(** * Flux gateway: selection core, proxy engine, health monitor, registry

    A shallow embedding of the Go sources of the gateway (packages
    [strategy], [proxy], [health] and [admin]) together with the theorems
    that settle the specification's claims against them.

    Conventions of the embedding:
    - [*Backend] pointers are locations in a heap ([gmap loc Backend]); the
      atomic fields of a backend are plain fields of the heap cell, every
      method being one atomic load, store or add;
    - Go's [int], [int64] and [uint64] are [Z] with the wrap-around of the
      64-bit targets the gateway is built for written out;
    - a Go [(T, error)] result is an [option], [None] being the error;
    - calls that leave the package (log lines, [onChange], [Done] on a
      picker, lock operations) are recorded in event traces. *)

From Stdlib Require Import ZArith Lia List Ascii String Bool PrimFloat.
From stdpp Require Import base option gmap strings list.

Local Open Scope Z_scope.

(** ** Go machine integers *)

Module GoInt.

Definition wrap_u64 (z : Z) : Z := z mod 2 ^ 64.

Definition wrap_i64 (z : Z) : Z := (z + 2 ^ 63) mod 2 ^ 64 - 2 ^ 63.

(** Go's [int] is 64 bits wide on the targets of the gateway. *)
Definition wrap_int (z : Z) : Z := wrap_i64 z.

Definition max_i64 : Z := 2 ^ 63 - 1.
Definition min_i64 : Z := - 2 ^ 63.

Definition in_i64 (z : Z) : Prop := min_i64 <= z <= max_i64.

End GoInt.

(** ** Byte strings

    Go strings are byte sequences; [string] is a list of bytes ([ascii]). *)

Module GoStrings.

Definition byte := ascii.

Definition byte_le (a b : byte) : bool := (N_of_ascii a <=? N_of_ascii b)%N.

Definition between (lo hi c : byte) : bool := byte_le lo c && byte_le c hi.

Definition is_lower (c : byte) : bool := between "a"%char "z"%char c.
Definition is_upper (c : byte) : bool := between "A"%char "Z"%char c.
Definition is_digit (c : byte) : bool := between "0"%char "9"%char c.
Definition is_alpha (c : byte) : bool := is_lower c || is_upper c.

Definition byte_eqb (a b : byte) : bool := Ascii.eqb a b.

Definition one_of (cs : string) (c : byte) : bool :=
  existsb (byte_eqb c) (list_ascii_of_string cs).

Definition to_lower_byte (c : byte) : byte :=
  if is_upper c then ascii_of_N (N_of_ascii c + 32) else c.

Definition to_upper_byte (c : byte) : byte :=
  if is_lower c then ascii_of_N (N_of_ascii c - 32) else c.

(** [strings.ToLower] on the ASCII range. *)
Fixpoint ToLower (s : string) : string :=
  match s with
  | EmptyString => EmptyString
  | String c r => String (to_lower_byte c) (ToLower r)
  end.

Definition HasPrefix (s p : string) : bool := String.prefix p s.

Fixpoint ContainsByte (c : byte) (s : string) : bool :=
  match s with
  | EmptyString => false
  | String d r => byte_eqb c d || ContainsByte c r
  end.

Fixpoint CountByte (c : byte) (s : string) : nat :=
  match s with
  | EmptyString => O
  | String d r => ((if byte_eqb c d then 1 else 0) + CountByte c r)%nat
  end.

(** [strings.Cut(s, sep)] for a one-byte separator:
    [(before, after, found)]. *)
Fixpoint Cut (s : string) (sep : byte) : string * string * bool :=
  match s with
  | EmptyString => (EmptyString, EmptyString, false)
  | String d r =>
      if byte_eqb sep d then (EmptyString, r, true)
      else let '(b, a, f) := Cut r sep in (String d b, a, f)
  end.

(** Split at the last occurrence of [sep]: [Some (s[:i], s[i+1:])] for
    [i = strings.LastIndex(s, sep)], [None] when [sep] does not occur. *)
Fixpoint CutLast (s : string) (sep : byte) : option (string * string) :=
  match s with
  | EmptyString => None
  | String d r =>
      match CutLast r sep with
      | Some (b, a) => Some (String d b, a)
      | None => if byte_eqb sep d then Some (EmptyString, r) else None
      end
  end.

(** Split at the first occurrence of the substring [sep]:
    [Some (s[:i], s[i:])] for [i = strings.Index(s, sep)]. *)
Fixpoint SplitAtIndex (s sep : string) : option (string * string) :=
  if String.prefix sep s then Some (EmptyString, s)
  else match s with
       | EmptyString => None
       | String d r =>
           match SplitAtIndex r sep with
           | Some (b, a) => Some (String d b, a)
           | None => None
           end
       end.

Fixpoint all_bytes (p : byte -> bool) (s : string) : bool :=
  match s with
  | EmptyString => true
  | String d r => p d && all_bytes p r
  end.

Definition HasSuffixByte (s : string) (c : byte) : bool :=
  match rev (list_ascii_of_string s) with
  | d :: _ => byte_eqb c d
  | [] => false
  end.

Definition drop_last (s : string) : string :=
  string_of_list_ascii (removelast (list_ascii_of_string s)).

End GoStrings.

(** ** net/url

    [url.Parse] of the Go standard library (Go 1.24, the version the
    gateway is built with), which [strategy.NewBackend] calls.  The
    gateway reads [Scheme] and [Host] of the result; [RawPath] and
    [RawFragment], hints for re-encoding that nothing here reads, are
    left out of the record. *)

Module URL.
Import GoStrings.

Record Userinfo := mkUserinfo {
  username : string;
  password : string;
  passwordSet : bool
}.

Record t := mkURL {
  Scheme : string;
  Opaque : string;
  User : option Userinfo;
  Host : string;
  Path : string;
  OmitHost : bool;
  ForceQuery : bool;
  RawQuery : string;
  Fragment : string
}.

Definition empty : t :=
  mkURL EmptyString EmptyString None EmptyString EmptyString false false
        EmptyString EmptyString.

Inductive encoding :=
| encodePath | encodeUserPassword | encodeHost | encodeZone | encodeFragment.

Definition is_host_mode (m : encoding) : bool :=
  match m with encodeHost | encodeZone => true | _ => false end.

Definition dquote : byte := ascii_of_N 34.

Definition stringContainsCTLByte (s : string) : bool :=
  negb (all_bytes (fun b => negb ((N_of_ascii b <? 32)%N || (N_of_ascii b =? 127)%N)) s).

Definition ishex (c : byte) : bool :=
  is_digit c || between "a"%char "f"%char c || between "A"%char "F"%char c.

Definition unhex (c : byte) : N :=
  if is_digit c then (N_of_ascii c - 48)%N
  else if between "a"%char "f"%char c then (N_of_ascii c - 97 + 10)%N
  else if between "A"%char "F"%char c then (N_of_ascii c - 65 + 10)%N
  else 0%N.

(** [shouldEscape(c, encodeHost)]. *)
Definition shouldEscape_host (c : byte) : bool :=
  if is_alpha c || is_digit c then false
  else if one_of "!$&'()*+,;=:[]<>" c || byte_eqb c dquote then false
  else if one_of "-_.~" c then false
  else true.

Definition unhex2 (a b : byte) : byte := ascii_of_N (unhex a * 16 + unhex b)%N.

(** First loop of [unescape]: every [%] starts a well-formed escape and,
    in the host modes, every byte is one a host may hold. *)
Fixpoint unescape_ok (mode : encoding) (s : string) : bool :=
  match s with
  | EmptyString => true
  | String c r =>
      if byte_eqb c "%"%char then
        match r with
        | String a (String b r') =>
            ishex a && ishex b
            && negb (match mode with
                     | encodeHost =>
                         (unhex a <? 8)%N
                         && negb (byte_eqb a "2"%char && byte_eqb b "5"%char)
                     | encodeZone =>
                         negb (byte_eqb a "2"%char && byte_eqb b "5"%char)
                         && negb (byte_eqb (unhex2 a b) " "%char)
                         && shouldEscape_host (unhex2 a b)
                     | _ => false
                     end)
            && unescape_ok mode r'
        | _ => false
        end
      else if byte_eqb c "+"%char then unescape_ok mode r
      else
        negb (is_host_mode mode && (N_of_ascii c <? 128)%N && shouldEscape_host c)
        && unescape_ok mode r
  end.

(** Second loop of [unescape]: the escapes decoded. *)
Fixpoint unescape_decode (s : string) : string :=
  match s with
  | EmptyString => EmptyString
  | String c r =>
      if byte_eqb c "%"%char then
        match r with
        | String a (String b r') => String (unhex2 a b) (unescape_decode r')
        | _ => s
        end
      else String c (unescape_decode r)
  end.

Definition unescape (s : string) (mode : encoding) : option string :=
  if unescape_ok mode s then Some (unescape_decode s) else None.

Inductive scheme_scan :=
| SchemeAt (scheme rest : string)
| NoScheme
| MissingScheme.

Fixpoint scanScheme (first : bool) (s : string) : scheme_scan :=
  match s with
  | EmptyString => NoScheme
  | String c r =>
      let continue :=
        match scanScheme false r with
        | SchemeAt p rest => SchemeAt (String c p) rest
        | other => other
        end in
      if is_alpha c then continue
      else if is_digit c || one_of "+-." c then
        if first then NoScheme else continue
      else if byte_eqb c ":"%char then
        if first then MissingScheme else SchemeAt EmptyString r
      else NoScheme
  end.

(** [getScheme]: [(scheme, rest)], or the error "missing protocol scheme". *)
Definition getScheme (rawURL : string) : option (string * string) :=
  match scanScheme true rawURL with
  | SchemeAt p rest => Some (p, rest)
  | NoScheme => Some (EmptyString, rawURL)
  | MissingScheme => None
  end.

Definition validOptionalPort (port : string) : bool :=
  match port with
  | EmptyString => true
  | String c r => byte_eqb c ":"%char && all_bytes is_digit r
  end.

Definition validUserinfo (s : string) : bool :=
  all_bytes (fun r => is_alpha r || is_digit r || one_of "-._:~!$&'()*+,;=%@" r) s.

Definition parseHost (host : string) : option string :=
  if HasPrefix host "[" then
    match CutLast host "]"%char with
    | None => None
    | Some (before, colonPort) =>
        if negb (validOptionalPort colonPort) then None
        else
          match SplitAtIndex before "%25" with
          | Some (h1, h2) =>
              host1 ← unescape h1 encodeHost;
              host2 ← unescape h2 encodeZone;
              host3 ← unescape (String "]"%char colonPort) encodeHost;
              Some (host1 +:+ host2 +:+ host3)
          | None => unescape host encodeHost
          end
    end
  else
    match CutLast host ":"%char with
    | Some (_, port) =>
        if negb (validOptionalPort (String ":"%char port)) then None
        else unescape host encodeHost
    | None => unescape host encodeHost
    end.

Definition parseAuthority (authority : string) : option (option Userinfo * string) :=
  match CutLast authority "@"%char with
  | None => host ← parseHost authority; Some (None, host)
  | Some (userinfo, hostpart) =>
      host ← parseHost hostpart;
      if negb (validUserinfo userinfo) then None
      else if negb (ContainsByte ":"%char userinfo) then
        u ← unescape userinfo encodeUserPassword;
        Some (Some (mkUserinfo u EmptyString false), host)
      else
        let '(uname, pass, _) := Cut userinfo ":"%char in
        u ← unescape uname encodeUserPassword;
        p ← unescape pass encodeUserPassword;
        Some (Some (mkUserinfo u p true), host)
  end.

Definition nonempty (s : string) : bool :=
  match s with EmptyString => false | _ => true end.

(** [parse(rawURL, viaRequest = false)]. *)
Definition parse (rawURL : string) : option t :=
  if stringContainsCTLByte rawURL then None
  else if String.eqb rawURL "*" then
    Some (mkURL EmptyString EmptyString None EmptyString "*" false false
                EmptyString EmptyString)
  else
    '(scheme0, rest0) ← getScheme rawURL;
    let scheme := ToLower scheme0 in
    let '(rest, force, query) :=
      if HasSuffixByte rest0 "?"%char && Nat.eqb (CountByte "?"%char rest0) 1
      then (drop_last rest0, true, EmptyString)
      else let '(r, q, _) := Cut rest0 "?"%char in (r, false, q) in
    if negb (HasPrefix rest "/") && nonempty scheme then
      Some (mkURL scheme rest None EmptyString EmptyString false force query
                  EmptyString)
    else if negb (HasPrefix rest "/")
            && ContainsByte ":"%char (fst (fst (Cut rest "/"%char))) then None
    else if (nonempty scheme || negb (HasPrefix rest "///"))
            && HasPrefix rest "//" then
      let after := match rest with
                   | String _ (String _ a) => a
                   | _ => EmptyString
                   end in
      let '(authority, rest') :=
        match SplitAtIndex after "/" with
        | Some (a, r) => (a, r)
        | None => (after, EmptyString)
        end in
      '(user, host) ← parseAuthority authority;
      path ← unescape rest' encodePath;
      Some (mkURL scheme EmptyString user host path false force query
                  EmptyString)
    else
      let omit := nonempty scheme && HasPrefix rest "/" in
      path ← unescape rest encodePath;
      Some (mkURL scheme EmptyString None EmptyString path omit force query
                  EmptyString).

(** [url.Parse]: the fragment is cut off first and set afterwards. *)
Definition Parse (rawURL : string) : option t :=
  let '(u, frag, _) := Cut rawURL "#"%char in
  url ← parse u;
  if nonempty frag then
    f ← unescape frag encodeFragment;
    Some (mkURL (Scheme url) (Opaque url) (User url) (Host url) (Path url)
                (OmitHost url) (ForceQuery url) (RawQuery url) f)
  else Some url.

End URL.

(** ** Package strategy *)

Module Strategy.
Import GoInt.

(** A [*Backend]. *)
Definition loc := nat.

Record Backend := mkBackend {
  URL : URL.t;
  RawURL : string;
  Weight : Z;
  healthy : bool;
  blocked : bool;
  activeConns : Z;
  totalRequests : Z;
  totalErrors : Z
}.

#[export] Instance Backend_inhabited : Inhabited Backend :=
  populate (mkBackend URL.empty EmptyString 0 false false 0 0 0).

Abbreviation heap := (gmap loc Backend).

Definition set_healthy (v : bool) (x : Backend) : Backend :=
  mkBackend (URL x) (RawURL x) (Weight x) v (blocked x)
            (activeConns x) (totalRequests x) (totalErrors x).
Definition set_blocked (v : bool) (x : Backend) : Backend :=
  mkBackend (URL x) (RawURL x) (Weight x) (healthy x) v
            (activeConns x) (totalRequests x) (totalErrors x).
Definition add_activeConns (d : Z) (x : Backend) : Backend :=
  mkBackend (URL x) (RawURL x) (Weight x) (healthy x) (blocked x)
            (wrap_i64 (activeConns x + d)) (totalRequests x) (totalErrors x).
Definition add_totalRequests (d : Z) (x : Backend) : Backend :=
  mkBackend (URL x) (RawURL x) (Weight x) (healthy x) (blocked x)
            (activeConns x) (wrap_i64 (totalRequests x + d)) (totalErrors x).
Definition add_totalErrors (d : Z) (x : Backend) : Backend :=
  mkBackend (URL x) (RawURL x) (Weight x) (healthy x) (blocked x)
            (activeConns x) (totalRequests x) (wrap_i64 (totalErrors x + d)).

(** The object a pointer designates, and an in-place update of it. *)
Definition deref (h : heap) (b : loc) : Backend := h !!! b.
Definition modify (f : Backend -> Backend) (b : loc) (h : heap) : heap :=
  <[b := f (deref h b)]> h.

(** [NewBackend]: a fresh object, healthy, every counter zero. *)
Definition NewBackend (rawURL : string) (weight : Z) (h : heap)
  : option (loc * heap) :=
  match URL.Parse rawURL with
  | None => None
  | Some u =>
      let b := fresh (dom h) in
      Some (b, <[b := mkBackend u rawURL weight true false 0 0 0]> h)
  end.

Definition IsHealthy (h : heap) (b : loc) : bool := healthy (deref h b).
Definition SetHealthy (b : loc) (v : bool) (h : heap) : heap :=
  modify (set_healthy v) b h.
Definition IsBlocked (h : heap) (b : loc) : bool := blocked (deref h b).
Definition SetBlocked (b : loc) (v : bool) (h : heap) : heap :=
  modify (set_blocked v) b h.
Definition IncConns (b : loc) (h : heap) : Z * heap :=
  let h' := modify (add_activeConns 1) b h in (activeConns (deref h' b), h').
Definition DecConns (b : loc) (h : heap) : Z * heap :=
  let h' := modify (add_activeConns (-1)) b h in (activeConns (deref h' b), h').
Definition ActiveConns (h : heap) (b : loc) : Z := activeConns (deref h b).
Definition IncRequests (b : loc) (h : heap) : heap :=
  modify (add_totalRequests 1) b h.
Definition TotalRequests (h : heap) (b : loc) : Z := totalRequests (deref h b).
Definition IncErrors (b : loc) (h : heap) : heap :=
  modify (add_totalErrors 1) b h.
Definition TotalErrors (h : heap) (b : loc) : Z := totalErrors (deref h b).

(** [healthySubset]: the healthy, non-blocked backends, in order. *)
Fixpoint healthySubset (h : heap) (all : list loc) : list loc :=
  match all with
  | [] => []
  | b :: rest =>
      if IsHealthy h b && negb (IsBlocked h b)
      then b :: healthySubset h rest
      else healthySubset h rest
  end.

(** The result of [Next]: a backend, or [ErrNoHealthyBackend]. *)
Definition ErrNoHealthyBackend : option loc := None.

(** *** RoundRobin *)

Record RoundRobin := mkRoundRobin {
  rr_backends : list loc;
  rr_counter : Z
}.

Definition NewRoundRobin (backends : list loc) : RoundRobin :=
  mkRoundRobin backends 0.

Definition RoundRobin_Next (r : RoundRobin) (h : heap)
  : option loc * RoundRobin * heap :=
  let healthy := healthySubset h (rr_backends r) in
  if Nat.eqb (length healthy) 0 then (ErrNoHealthyBackend, r, h)
  else
    let c := wrap_u64 (rr_counter r + 1) in
    let idx := wrap_u64 (c - 1) in
    let b := healthy !!! Z.to_nat (idx mod Z.of_nat (length healthy)) in
    (Some b, mkRoundRobin (rr_backends r) c, snd (IncConns b h)).

Definition RoundRobin_Done (r : RoundRobin) (b : loc) (h : heap) : heap :=
  snd (DecConns b h).

(** *** LeastConnections *)

Record LeastConnections := mkLeastConnections {
  lc_backends : list loc
}.

Definition NewLeastConnections (backends : list loc) : LeastConnections :=
  mkLeastConnections backends.

(** The scan of [Next]; [best] is [None] while the Go variable is nil. *)
Fixpoint lc_scan (h : heap) (bs : list loc) (best : option loc) : option loc :=
  match bs with
  | [] => best
  | b :: rest =>
      if negb (IsHealthy h b) then lc_scan h rest best
      else
        match best with
        | None => lc_scan h rest (Some b)
        | Some cur =>
            if ActiveConns h b <? ActiveConns h cur
            then lc_scan h rest (Some b)
            else lc_scan h rest best
        end
  end.

Definition LeastConnections_Next (l : LeastConnections) (h : heap)
  : option loc * LeastConnections * heap :=
  match lc_scan h (lc_backends l) None with
  | None => (ErrNoHealthyBackend, l, h)
  | Some best => (Some best, l, snd (IncConns best h))
  end.

Definition LeastConnections_Done (l : LeastConnections) (b : loc) (h : heap)
  : heap := snd (DecConns b h).

(** *** WeightedRoundRobin *)

Record wrrEntry := mkEntry {
  backend : loc;
  currentWeight : Z
}.

Record WeightedRoundRobin := mkWeightedRoundRobin {
  entries : list wrrEntry
}.

Definition NewWeightedRoundRobin (backends : list loc) : WeightedRoundRobin :=
  mkWeightedRoundRobin (map (fun b => mkEntry b 0) backends).

Definition weight_of (h : heap) (e : wrrEntry) : Z := Weight (deref h (backend e)).

(** First loop of [Next].  The slice [healthy] holds pointers to entries
    of [w.entries]: here, their indices.  [i] is the index of the head of
    [es]. *)
Fixpoint wrr_collect (h : heap) (i : nat) (es : list wrrEntry)
         (healthy : list nat) (total : Z) : list nat * Z :=
  match es with
  | [] => (healthy, total)
  | e :: rest =>
      if IsHealthy h (backend e)
      then wrr_collect h (S i) rest (healthy ++ [i]) (wrap_int (total + weight_of h e))
      else wrr_collect h (S i) rest healthy total
  end.

Definition add_currentWeight (d : Z) (e : wrrEntry) : wrrEntry :=
  mkEntry (backend e) (wrap_int (currentWeight e + d)).

(** Step 1: [e.currentWeight += e.backend.Weight] for [e] in [healthy]. *)
Fixpoint wrr_raise (h : heap) (healthy : list nat) (es : list wrrEntry)
  : list wrrEntry :=
  match healthy with
  | [] => es
  | i :: rest =>
      wrr_raise h rest (alter (fun e => add_currentWeight (weight_of h e) e) i es)
  end.

#[export] Instance wrrEntry_inhabited : Inhabited wrrEntry := populate (mkEntry 0%nat 0).

Definition cw_at (es : list wrrEntry) (i : nat) : Z := currentWeight (es !!! i).

(** Step 2: the loop over [healthy[1:]], [best] starting at [healthy[0]]. *)
Fixpoint wrr_best (es : list wrrEntry) (rest : list nat) (best : nat) : nat :=
  match rest with
  | [] => best
  | i :: rest' =>
      if cw_at es i >? cw_at es best then wrr_best es rest' i
      else wrr_best es rest' best
  end.

Definition WeightedRoundRobin_Next (w : WeightedRoundRobin) (h : heap)
  : option loc * WeightedRoundRobin * heap :=
  let '(healthy, total) := wrr_collect h 0 (entries w) [] 0 in
  match healthy with
  | [] => (ErrNoHealthyBackend, w, h)
  | first :: others =>
      let es1 := wrr_raise h healthy (entries w) in
      let best := wrr_best es1 others first in
      let es2 := alter (add_currentWeight (- total)) best es1 in
      let b := backend (es2 !!! best) in
      (Some b, mkWeightedRoundRobin es2, snd (IncConns b h))
  end.

Definition WeightedRoundRobin_Done (w : WeightedRoundRobin) (b : loc) (h : heap)
  : heap := snd (DecConns b h).

(** *** The Picker interface *)

Class Picker (P : Type) := {
  Next : P -> heap -> option loc * P * heap;
  Done : P -> loc -> heap -> heap
}.

#[export] Instance RoundRobin_Picker : Picker RoundRobin :=
  {| Next := RoundRobin_Next; Done := RoundRobin_Done |}.
#[export] Instance LeastConnections_Picker : Picker LeastConnections :=
  {| Next := LeastConnections_Next; Done := LeastConnections_Done |}.
#[export] Instance WeightedRoundRobin_Picker : Picker WeightedRoundRobin :=
  {| Next := WeightedRoundRobin_Next; Done := WeightedRoundRobin_Done |}.

(** A value of interface type [Picker]: one of the three implementations. *)
Inductive AnyPicker :=
| PRoundRobin (r : RoundRobin)
| PWeightedRoundRobin (w : WeightedRoundRobin)
| PLeastConnections (l : LeastConnections).

Definition AnyPicker_Next (p : AnyPicker) (h : heap) : option loc * AnyPicker * heap :=
  match p with
  | PRoundRobin r => let '(b, r', h') := Next r h in (b, PRoundRobin r', h')
  | PWeightedRoundRobin w => let '(b, w', h') := Next w h in (b, PWeightedRoundRobin w', h')
  | PLeastConnections l => let '(b, l', h') := Next l h in (b, PLeastConnections l', h')
  end.

Definition AnyPicker_Done (p : AnyPicker) (b : loc) (h : heap) : heap :=
  match p with
  | PRoundRobin r => Done r b h
  | PWeightedRoundRobin w => Done w b h
  | PLeastConnections l => Done l b h
  end.

#[export] Instance AnyPicker_Picker : Picker AnyPicker :=
  {| Next := AnyPicker_Next; Done := AnyPicker_Done |}.

(** [strategy.New]: the picker named by [strategy]. *)
Definition New (strategy : string) (backends : list loc) : option AnyPicker :=
  if Nat.eqb (length backends) 0 then None
  else if String.eqb strategy "round_robin" || String.eqb strategy EmptyString
  then Some (PRoundRobin (NewRoundRobin backends))
  else if String.eqb strategy "weighted_round_robin"
  then Some (PWeightedRoundRobin (NewWeightedRoundRobin backends))
  else if String.eqb strategy "least_connections"
  then Some (PLeastConnections (NewLeastConnections backends))
  else None.

End Strategy.

(** ** Package health *)

Module Health.
Import Strategy.

Record Config := mkConfig {
  Path : string
}.

(** What [m.client.Get(target)] returns: an error (transport failure or
    timeout) or a response with its status code. *)
Inductive GetResult :=
| GetError
| GetResponse (StatusCode : Z).

Inductive LogRecord :=
| Warn (msg : string) (backend : string)
| Info (msg : string) (backend : string).

(** [Monitor.probe]; [client] is the network seen through [m.client.Get].
    Returns the log lines written and the heap after the store. *)
Definition probe (cfg : Config) (client : string -> GetResult) (b : loc) (h : heap)
  : list LogRecord * heap :=
  let target := (RawURL (deref h b) +:+ Path cfg)%string in
  match client target with
  | GetError =>
      ((if IsHealthy h b
        then [Warn "health: backend became unhealthy" (RawURL (deref h b))]
        else []),
       SetHealthy b false h)
  | GetResponse code =>
      if (code >=? 200) && (code <? 400) then
        ((if negb (IsHealthy h b)
          then [Info "health: backend recovered" (RawURL (deref h b))]
          else []),
         SetHealthy b true h)
      else
        ((if IsHealthy h b
          then [Warn "health: backend became unhealthy" (RawURL (deref h b))]
          else []),
         SetHealthy b false h)
  end.

End Health.

(** ** net/http headers *)

Module Header.
Import GoStrings.

(** [http.Header]: canonical key to the values of that key, in order. *)
Abbreviation t := (gmap string (list string)).

Definition validHeaderFieldByte (c : byte) : bool :=
  is_alpha c || is_digit c || one_of "!#$%&'*+-.^_`|~" c.

Fixpoint canon (upper : bool) (s : string) : string :=
  match s with
  | EmptyString => EmptyString
  | String c r =>
      let c' := if upper then to_upper_byte c else to_lower_byte c in
      String c' (canon (byte_eqb c' "-"%char) r)
  end.

(** [textproto.CanonicalMIMEHeaderKey]: a key holding a byte that no
    header name may hold is returned as it is. *)
Definition CanonicalMIMEHeaderKey (s : string) : string :=
  if all_bytes validHeaderFieldByte s then canon true s else s.

Definition Get (h : t) (key : string) : string :=
  match h !! CanonicalMIMEHeaderKey key with
  | Some (v :: _) => v
  | _ => EmptyString
  end.

Definition Set_ (key value : string) (h : t) : t :=
  <[CanonicalMIMEHeaderKey key := [value]]> h.

Definition Del (key : string) (h : t) : t :=
  delete (CanonicalMIMEHeaderKey key) h.

End Header.

(** ** Package proxy *)

Module Proxy.
Import Strategy.

(** The fields of [*http.Request] the gateway touches.  [TLS] is
    [r.TLS != nil]; [ctxBackend] is the value stored under [ctxKey{}] in
    the request context. *)
Record Request := mkRequest {
  Method : string;
  URLScheme : string;
  URLHost : string;
  URLPath : string;
  Host : string;
  Hdr : Header.t;
  RemoteAddr : string;
  TLS : bool;
  ctxBackend : option loc
}.

(** A [*Picker] held by the gateway. *)
Definition ploc := nat.

Inductive Event :=
| CallNext (p : ploc) (result : option loc)
| CallDone (p : ploc) (b : loc)
| LogError (msg : string)
| LogDebug (msg : string) (backend : string).

#[export] Instance AnyPicker_inhabited : Inhabited AnyPicker :=
  populate (PRoundRobin (NewRoundRobin [])).

(** The gateway with what it reaches: [picker] is the field [gw.picker],
    [pickers] the picker objects, [backends] the backend objects;
    [trace] records the calls on pickers and the log lines, oldest first. *)
Record World := mkWorld {
  picker : ploc;
  pickers : gmap ploc AnyPicker;
  backends : heap;
  trace : list Event
}.

(** What the client receives from [http.Error]. *)
Record Response := mkResponse {
  StatusCode : Z;
  ContentType : string;
  Body : string
}.

Definition StatusBadGateway : Z := 502.

Definition UpdatePicker (p : ploc) (w : World) : World :=
  mkWorld p (pickers w) (backends w) (trace w).

Definition requestScheme (r : Request) : string :=
  if TLS r then "https" else "http".

Definition backendFromCtx (r : Request) : option loc := ctxBackend r.

(** [picker.Next()] through the pointer [p]. *)
Definition callNext (p : ploc) (w : World) : option loc * World :=
  let '(r, P', h') := Next (pickers w !!! p) (backends w) in
  (r, mkWorld (picker w) (<[p := P']> (pickers w)) h'
              (trace w ++ [CallNext p r])).

(** [picker.Done(b)] through the pointer [p]. *)
Definition callDone (p : ploc) (b : loc) (w : World) : World :=
  mkWorld (picker w) (pickers w) (Done (pickers w !!! p) b (backends w))
          (trace w ++ [CallDone p b]).

Definition log (e : Event) (w : World) : World :=
  mkWorld (picker w) (pickers w) (backends w) (trace w ++ [e]).

Definition onBackends (f : heap -> heap) (w : World) : World :=
  mkWorld (picker w) (pickers w) (f (backends w)) (trace w).

Definition director (req : Request) (w : World) : Request * World :=
  let p := picker w in
  let '(r, w1) := callNext p w in
  match r with
  | None =>
      (mkRequest (Method req) "http" "0.0.0.0:0" (URLPath req) (Host req)
                 (Hdr req) (RemoteAddr req) (TLS req) (ctxBackend req),
       log (LogError "no healthy backend available") w1)
  | Some b =>
      let originalHost := Host req in
      let u := URL (deref (backends w1) b) in
      let hd := Header.Del "Trailers" (Header.Del "Te" (Hdr req)) in
      let prior := Header.Get hd "X-Forwarded-For" in
      let hd :=
        if negb (String.eqb prior EmptyString)
        then Header.Set_ "X-Forwarded-For" (prior +:+ ", " +:+ RemoteAddr req) hd
        else Header.Set_ "X-Forwarded-For" (RemoteAddr req) hd in
      let hd := Header.Set_ "X-Real-IP" (RemoteAddr req) hd in
      let hd := Header.Set_ "X-Forwarded-Host" originalHost hd in
      let hd := Header.Set_ "X-Forwarded-Proto" (requestScheme req) hd in
      (mkRequest (Method req) (URL.Scheme u) (URL.Host u) (URLPath req)
                 (URL.Host u) hd (RemoteAddr req) (TLS req) (Some b),
       log (LogDebug "proxying request" (RawURL (deref (backends w1) b))) w1)
  end.

Definition modifyResponse (req : Request) (w : World) : World :=
  match backendFromCtx req with
  | Some b =>
      let p := picker w in
      onBackends (IncRequests b) (callDone p b w)
  | None => w
  end.

(** [http.Error(w, msg, code)]: a plain-text reply, the message followed
    by a newline. *)
Definition http_Error (msg : string) (code : Z) : Response :=
  mkResponse code "text/plain; charset=utf-8" (msg +:+ String (ascii_of_N 10) EmptyString).

Definition errorHandler (r : Request) (w : World) : Response * World :=
  let w' :=
    match backendFromCtx r with
    | Some b =>
        let p := picker w in
        let w1 := callDone p b w in
        let w2 := onBackends (SetHealthy b false) w1 in
        let w3 := onBackends (IncRequests b) w2 in
        let w4 := onBackends (IncErrors b) w3 in
        log (LogError "backend error — marked unhealthy") w4
    | None => log (LogError "backend error") w
    end in
  (http_Error "bad gateway" StatusBadGateway, w').

End Proxy.

(** ** Package admin *)

Module Admin.
Import Strategy.

Inductive Event :=
| Lock | Unlock | RLock | RUnlock
| OnChange (strategyName : string) (snapshot : list loc).

Record Registry := mkRegistry {
  backends : list loc;
  strategy : string
}.

(** [find]: the index of the first backend with the given URL, or -1. *)
Fixpoint find_from (h : heap) (i : Z) (bs : list loc) (rawURL : string) : Z :=
  match bs with
  | [] => -1
  | b :: rest =>
      if String.eqb (RawURL (deref h b)) rawURL then i
      else find_from h (i + 1) rest rawURL
  end.

Definition find (h : heap) (r : Registry) (rawURL : string) : Z :=
  find_from h 0 (backends r) rawURL.

(** [snapshot]: a copy of the slice; lists being values, the list itself. *)
Definition snapshot (r : Registry) : list loc := backends r.

(** The duplicate scan of [Add]. *)
Definition exists_url (h : heap) (r : Registry) (rawURL : string) : bool :=
  existsb (fun existing => String.eqb (RawURL (deref h existing)) rawURL) (backends r).

(** Every mutator returns [(ok, registry, heap, events)]: [ok] is whether
    the Go method returned a nil error, [events] the lock operations and
    [onChange] calls it made, in order. *)
Definition Add (rawURL : string) (weight : Z) (r : Registry) (h : heap)
  : bool * Registry * heap * list Event :=
  match NewBackend rawURL weight h with
  | None => (false, r, h, [])
  | Some (b, h') =>
      if exists_url h' r rawURL then (false, r, h', [Lock; Unlock])
      else
        let r' := mkRegistry (backends r ++ [b]) (strategy r) in
        let snap := snapshot r' in
        let strat := strategy r' in
        (true, r', h', [Lock; Unlock; OnChange strat snap])
  end.

Definition Remove (rawURL : string) (r : Registry) (h : heap)
  : bool * Registry * heap * list Event :=
  let idx := find h r rawURL in
  if idx <? 0 then (false, r, h, [Lock; Unlock])
  else
    let i := Z.to_nat idx in
    let r' := mkRegistry (take i (backends r) ++ drop (S i) (backends r)) (strategy r) in
    let snap := snapshot r' in
    let strat := strategy r' in
    (true, r', h, [Lock; Unlock; OnChange strat snap]).

Definition setBlockedAt (v : bool) (rawURL : string) (r : Registry) (h : heap)
  : bool * Registry * heap * list Event :=
  let idx := find h r rawURL in
  if idx <? 0 then (false, r, h, [RLock; RUnlock])
  else
    let b := backends r !!! Z.to_nat idx in
    let strat := strategy r in
    let snap := snapshot r in
    (true, r, SetBlocked b v h, [RLock; RUnlock; OnChange strat snap]).

Definition Block := setBlockedAt true.
Definition Unblock := setBlockedAt false.

Definition ReplaceAll (bs : list loc) (strategyName : string) (r : Registry) (h : heap)
  : bool * Registry * heap * list Event :=
  let r' := mkRegistry bs strategyName in
  (true, r', h, [Lock; Unlock; OnChange strategyName (snapshot r')]).

(** How many locks are held after a sequence of events. *)
Fixpoint held (evs : list Event) : Z :=
  match evs with
  | [] => 0
  | (Lock | RLock) :: rest => held rest + 1
  | (Unlock | RUnlock) :: rest => held rest - 1
  | OnChange _ _ :: rest => held rest
  end.

(** The [onChange] calls of a trace, each with whether it ran with no
    lock held. *)
Fixpoint onChangeCalls (before : list Event) (evs : list Event)
  : list (string * list loc * bool) :=
  match evs with
  | [] => []
  | OnChange s snap :: rest =>
      (s, snap, held before =? 0) :: onChangeCalls (before ++ [OnChange s snap]) rest
  | e :: rest => onChangeCalls (before ++ [e]) rest
  end.

End Admin.

(** ** Smooth weighted round robin, entry by entry

    What the three loops of [WeightedRoundRobin.Next] compute, stated per
    entry; the properties section proves that the loops compute this. *)

Module Smooth.
Import Strategy GoInt.

Fixpoint sumZ (l : list Z) : Z :=
  match l with
  | [] => 0
  | x :: rest => x + sumZ rest
  end.

Section Fixed.
Variable h : heap.

(** The test of the first loop. *)
Definition active (e : wrrEntry) : bool := IsHealthy h (backend e).

(** The indices gathered in [healthy], [i] being the index of the head. *)
Fixpoint indices (i : nat) (es : list wrrEntry) : list nat :=
  match es with
  | [] => []
  | e :: rest =>
      if active e then i :: indices (S i) rest else indices (S i) rest
  end.

(** The value of [total], accumulated in Go's [int]. *)
Fixpoint total_from (t : Z) (es : list wrrEntry) : Z :=
  match es with
  | [] => t
  | e :: rest =>
      total_from (if active e then wrap_int (t + weight_of h e) else t) rest
  end.

(** An entry after step 1. *)
Definition raised (e : wrrEntry) : wrrEntry :=
  if active e then add_currentWeight (weight_of h e) e else e.

(** The total weight of the healthy entries, as an integer. *)
Definition totalWeight (es : list wrrEntry) : Z :=
  sumZ ((fun e => if active e then weight_of h e else 0) <$> es).

(** The sum of the current weights of the healthy entries. *)
Definition activeSum (es : list wrrEntry) : Z :=
  sumZ ((fun e => if active e then currentWeight e else 0) <$> es).
(** Step 1 on an entry, in unbounded integers. *)
Definition raisedZ (e : wrrEntry) : wrrEntry :=
  if active e then mkEntry (backend e) (currentWeight e + weight_of h e) else e.

(** The invariant of a run over healthy entries that never change:
    their current weights sum to zero and each exceeds minus the
    total weight. *)
Definition balanced (es : list wrrEntry) : Prop :=
  activeSum es = 0
  /\ Forall (fun e => active e = true -> - totalWeight es < currentWeight e) es.

(** Weights are at least one and small enough for [int]: the number of
    entries times the total weight is at most [max_i64]. *)
Definition fits (es : list wrrEntry) : Prop :=
  Forall (fun e => active e = true -> 1 <= weight_of h e) es
  /\ Z.of_nat (length es) * totalWeight es <= max_i64.
End Fixed.

(** The sum of the current weights of all entries. *)
Definition weightSum (es : list wrrEntry) : Z := sumZ (currentWeight <$> es).

(** Two heaps that [Next] cannot tell apart: the same health flags and
    the same weights. *)
Definition same_view (h h' : heap) : Prop :=
  forall b, IsHealthy h b = IsHealthy h' b
            /\ Weight (deref h b) = Weight (deref h' b).

End Smooth.

(** ** Sequential use and concrete scenarios *)

Module Scenario.
Import Strategy.

(** [n] calls of [Next], one after the other, nothing else touching the
    heap in between: the results in order, the picker and the heap left. *)
Fixpoint calls {P} `{Picker P} (n : nat) (p : P) (h : heap)
  : list (option loc) * P * heap :=
  match n with
  | O => ([], p, h)
  | S k =>
      let '(r, p1, h1) := Next p h in
      let '(rs, p2, h2) := calls k p1 h1 in
      (r :: rs, p2, h2)
  end.

Definition results {P} `{Picker P} (n : nat) (p : P) (h : heap) : list (option loc) :=
  fst (fst (calls n p h)).

(** The calls [m+1 .. m+n] of a picker: a window of [n] calls after [m]
    earlier ones. *)
Definition window {P} `{Picker P} (m n : nat) (p : P) (h : heap) : list (option loc) :=
  let '(_, p1, h1) := calls m p h in results n p1 h1.

(** How often backend [b] was returned. *)
Definition selected (b : loc) (rs : list (option loc)) : nat :=
  length (filter (fun r => r = Some b) rs).

Definition backendAt (rawURL : string) (weight : Z) (isHealthy isBlocked : bool) : Backend :=
  match URL.Parse rawURL with
  | Some u => mkBackend u rawURL weight isHealthy isBlocked 0 0 0
  | None => mkBackend URL.empty rawURL weight isHealthy isBlocked 0 0 0
  end.

(** One backend, healthy but blocked by the administrator. *)
Definition blockedHeap : heap :=
  {[ 1%nat := backendAt "http://b1:80" 1 true true ]}.

(** Two healthy backends of weights 3 and 1. *)
Definition twoHeap : heap :=
  <[ 1%nat := backendAt "http://b1:80" 3 true false ]>
    {[ 2%nat := backendAt "http://b2:80" 1 true false ]}.

(** Three healthy backends of weight 1. *)
Definition threeHeap : heap :=
  <[ 1%nat := backendAt "http://b1:80" 1 true false ]>
    (<[ 2%nat := backendAt "http://b2:80" 1 true false ]>
       {[ 3%nat := backendAt "http://b3:80" 1 true false ]}).

(** A gateway on picker 1 (round robin over backend 1), with a second
    picker 2 (round robin over backend 2) ready to be swapped in. *)
Definition swapWorld : Proxy.World :=
  Proxy.mkWorld 1%nat
    (<[ 1%nat := PRoundRobin (NewRoundRobin [1%nat]) ]>
       {[ 2%nat := PRoundRobin (NewRoundRobin [2%nat]) ]})
    twoHeap [].

(** A plain-HTTP request from 10.0.0.7 carrying the given headers. *)
Definition requestWith (hdr : Header.t) : Proxy.Request :=
  Proxy.mkRequest "GET" EmptyString EmptyString "/" "gateway.local" hdr
                  "10.0.0.7:51234" false None.

(** The request of [requestWith] once [director] has attached backend 1. *)
Definition inflightRequest : Proxy.Request :=
  Proxy.mkRequest "GET" "http" "b1:80" "/" "b1:80" ∅ "10.0.0.7:51234" false
                  (Some 1%nat).

(** A registry over the two backends of [twoHeap]. *)
Definition twoRegistry : Admin.Registry :=
  Admin.mkRegistry [1%nat; 2%nat] "weighted_round_robin".

(** A probe target that answers 204 whatever the URL. *)
Definition answers204 (target : string) : Health.GetResult :=
  Health.GetResponse 204.

(** [twoHeap] with backend 1 demoted. *)
Definition demotedHeap : heap := SetHealthy 1%nat false twoHeap.

End Scenario.

(** ** Accounting of a run of the weighted round robin *)

Module SmoothRun.
Import Strategy Smooth Scenario.

(** After the calls that returned [rs], a healthy entry of weight [w]
    selected [k] times holds [|rs| * w - total * k]; an unhealthy entry
    holds zero. *)
Definition counted (h : heap) (rs : list (option loc)) (es : list wrrEntry) : Prop :=
  Forall (fun e =>
            currentWeight e
            = if active h e
              then Z.of_nat (length rs) * weight_of h e
                   - totalWeight h es * Z.of_nat (selected (backend e) rs)
              else 0) es.

(** The total weight of the healthy backends of a list. *)
Definition healthyWeight (h : heap) (bs : list loc) : Z :=
  sumZ ((fun b => if IsHealthy h b then Weight (deref h b) else 0) <$> bs).

(** The total weight of a list of backends. *)
Definition listWeight (h : heap) (bs : list loc) : Z :=
sumZ ((fun b => Weight (deref h b)) <$> bs).

End SmoothRun.

(** ** The time package

    An instant and a [Duration] are counts of nanoseconds. *)

Module Time.
Import GoInt.

Definition Second : Z := 1000000000.
Definition Minute : Z := 60 * Second.

(** [t.Sub(u)], which [time.Since] returns: the difference, held to the
    range of a [Duration]. *)
Definition Sub (t u : Z) : Z := Z.max min_i64 (Z.min max_i64 (t - u)).

End Time.

(** ** Package config *)

Module Config.

Module BackendCfg.
Record t := mk {
  URL : string;
  Weight : Z
}.
End BackendCfg.

Module HealthCheckCfg.
Record t := mk {
  Enabled : bool;
  Interval : string;
  Timeout : string;
  Path : string
}.

Section Parsed.
(** The duration [time.ParseDuration] returns, zero when it fails; its
    error is dropped by both callers. *)
Variable ParseDuration : string -> Z.

Definition ParsedInterval (h : t) : Z :=
  let d := ParseDuration (Interval h) in
  if d <=? 0 then 10 * Time.Second else d.

Definition ParsedTimeout (h : t) : Z :=
  let d := ParseDuration (Timeout h) in
  if d <=? 0 then 2 * Time.Second else d.
End Parsed.
End HealthCheckCfg.

Module RateLimitCfg.
Record t := mk {
  Enabled : bool;
  RPS : float;
  Burst : Z
}.
End RateLimitCfg.

Module AuthCfg.
Record t := mk {
  Enabled : bool;
  Secret : string;
  Exclude : list string
}.
End AuthCfg.

Module AdminCfg.
Record t := mk {
  Enabled : bool;
  ListenAddr : string
}.
End AdminCfg.

Record t := mk {
  ListenAddr : string;
  Strategy : string;
  Backends : list BackendCfg.t;
  HealthCheck : HealthCheckCfg.t;
  RateLimit : RateLimitCfg.t;
  Auth : AuthCfg.t;
  Admin : AdminCfg.t
}.

Definition Default : t :=
  mk ":8080" "round_robin"
     [BackendCfg.mk "http://localhost:8081" 1]
     (HealthCheckCfg.mk true "10s" "2s" "/healthz")
     (RateLimitCfg.mk false 100%float 200)
     (AuthCfg.mk false EmptyString [])
     (AdminCfg.mk false EmptyString).

Inductive Error :=
| ErrReading
| ErrParsing
| ErrNoBackends
| ErrEmptyURL (i : nat).

Inductive result :=
| Ok (cfg : t)
| Fail (e : Error).

(** [cfg.Backends[i].Weight = 1]. *)
Definition setWeightAt (i : nat) (w : Z) (cfg : t) : t :=
  mk (ListenAddr cfg) (Strategy cfg)
     (alter (fun b => BackendCfg.mk (BackendCfg.URL b) w) i (Backends cfg))
     (HealthCheck cfg) (RateLimit cfg) (Auth cfg) (Admin cfg).

(** The loop of [unmarshal]: [todo] is what is left of the slice ranged
    over, [i] the index of its head. *)
Fixpoint unmarshal_loop (i : nat) (todo : list BackendCfg.t) (cfg : t) : result :=
  match todo with
  | [] => Ok cfg
  | b :: rest =>
      if String.eqb (BackendCfg.URL b) EmptyString then Fail (ErrEmptyURL i)
      else if BackendCfg.Weight b <=? 0
      then unmarshal_loop (S i) rest (setWeightAt i 1 cfg)
      else unmarshal_loop (S i) rest cfg
  end.

(** [unmarshal]; [decoded] is what [v.Unmarshal(&cfg)] left in [cfg],
    [None] when it returned an error. *)
Definition unmarshal (decoded : option t) : result :=
  match decoded with
  | None => Fail ErrParsing
  | Some cfg =>
      if Nat.eqb (length (Backends cfg)) 0 then Fail ErrNoBackends
      else unmarshal_loop 0 (Backends cfg) cfg
  end.

(** A configuration with another list of backends. *)
Definition withBackends (bs : list BackendCfg.t) (cfg : t) : t :=
  mk (ListenAddr cfg) (Strategy cfg) bs
     (HealthCheck cfg) (RateLimit cfg) (Auth cfg) (Admin cfg).

(** A backend entry with a weight below one raised to one. *)
Definition atLeastOne (b : BackendCfg.t) : BackendCfg.t :=
  if BackendCfg.Weight b <=? 0 then BackendCfg.mk (BackendCfg.URL b) 1 else b.

(** [Load]; [read] is whether [v.ReadInConfig()] succeeded. *)
Definition Load (read : bool) (decoded : option t) : result :=
  if negb read then Fail ErrReading else unmarshal decoded.

(** The callback [Watch] registers with Viper: a file that does not pass
    [unmarshal] is logged and skipped; otherwise [onChange] runs on the
    configuration.  The lines are those logged. *)
Definition Watch {X : Type} (onChange : t -> X -> X) (decoded : option t) (x : X)
  : list string * X :=
  match unmarshal decoded with
  | Fail _ => (["config hot-reload failed"], x)
  | Ok cfg => (["config hot-reloaded"], onChange cfg x)
  end.

End Config.

(** ** Package strategy: a pool from its configuration *)

Module Backends.
Import Strategy.

(** The loop of [NewBackends].  The heap returned with a failure holds
    the backends built before it, which nothing refers to. *)
Fixpoint NewBackends_loop (cfgs : list Config.BackendCfg.t) (backends : list loc)
         (h : heap) : option (list loc) * heap :=
  match cfgs with
  | [] => (Some backends, h)
  | c :: rest =>
      match NewBackend (Config.BackendCfg.URL c) (Config.BackendCfg.Weight c) h with
      | None => (None, h)
      | Some (b, h') => NewBackends_loop rest (backends ++ [b]) h'
      end
  end.

Definition NewBackends (cfgs : list Config.BackendCfg.t) (h : heap)
  : option (list loc) * heap :=
  NewBackends_loop cfgs [] h.

(** The backends a picker was built over. *)
Definition pool (p : AnyPicker) : list loc :=
  match p with
  | PRoundRobin r => rr_backends r
  | PWeightedRoundRobin w => backend <$> entries w
  | PLeastConnections l => lc_backends l
  end.

(** What [Next] of a picker takes for a backend it may return. *)
Definition eligible (p : AnyPicker) (h : heap) (b : loc) : bool :=
  match p with
  | PRoundRobin _ => IsHealthy h b && negb (IsBlocked h b)
  | _ => IsHealthy h b
  end.

(** What the scan of [LeastConnections.Next] holds in [best] after the
    backends [pre]: nothing when none was healthy, and otherwise the first
    of the healthy backends of least active connections. *)
Definition least_of (h : heap) (pre : list loc) (best : option loc) : Prop :=
  match best with
  | None => forall b, b ∈ pre -> IsHealthy h b = false
  | Some cur =>
      exists j, pre !! j = Some cur /\ IsHealthy h cur = true
        /\ forall i b, pre !! i = Some b -> IsHealthy h b = true ->
             ActiveConns h cur <= ActiveConns h b
             /\ ((i < j)%nat -> ActiveConns h cur < ActiveConns h b)
  end.

End Backends.

(** ** Package health: the monitor *)

Module Monitor.
Import Strategy Health.

(** [health.Config] with the two durations that [probe] does not read. *)
Record Config := mkConfig {
  Interval : Z;
  Timeout : Z;
  Path : string
}.

(** The part of the configuration that [probe] reads. *)
Definition probeConfig (c : Config) : Health.Config := Health.mkConfig (Path c).

(** [Monitor]: [clientTimeout] is [m.client.Timeout]. *)
Record t := mk {
  cfg : Config;
  clientTimeout : Z;
  backends : list loc
}.

Definition New (backends : list loc) (cfg : Config) : t :=
  mk cfg (Timeout cfg) backends.

Definition UpdateBackends (backends : list loc) (m : t) : t :=
  mk (cfg m) (clientTimeout m) backends.

(** The probes of [probeAll], one goroutine after the other in the order
    of [jobs]; each job is a backend with what its [Get] returned. *)
Fixpoint probeEach (c : Config) (jobs : list (loc * GetResult)) (h : heap)
  : list LogRecord * heap :=
  match jobs with
  | [] => ([], h)
  | (b, answer) :: rest =>
      let '(l1, h1) := probe (probeConfig c) (fun _ => answer) b h in
      let '(l2, h2) := probeEach c rest h1 in
      (l1 ++ l2, h2)
  end.

(** [probeAll]: one probe per backend of the list as it is when the call
    starts; [answers] holds what each [Get] returned, in the order of the
    list.  The goroutines run here in the order of the list. *)
Definition probeAll (m : t) (answers : list GetResult) (h : heap)
  : list LogRecord * heap :=
  probeEach (cfg m) (zip (backends m) answers) h.

(** Whether a probe with this answer marks the backend healthy. *)
Definition up (answer : GetResult) : bool :=
  match answer with
  | GetError => false
  | GetResponse code => (code >=? 200) && (code <? 400)
  end.

End Monitor.

(** ** Package admin: the dashboard *)

Module AdminAPI.
Import GoInt Strategy Admin.

Module BackendInfo.
Record t := mk {
  URL : string;
  Weight : Z;
  Healthy : bool;
  Blocked : bool;
  ActiveConns : Z;
  TotalRequests : Z;
  TotalErrors : Z
}.
End BackendInfo.

Definition NewRegistry (backends : list loc) (strategyName : string) : Registry :=
  mkRegistry backends strategyName.

(** The [BackendInfo] that [List] builds for one backend. *)
Definition info (h : heap) (b : loc) : BackendInfo.t :=
  BackendInfo.mk (RawURL (deref h b)) (Weight (deref h b))
                 (IsHealthy h b) (IsBlocked h b)
                 (ActiveConns h b) (TotalRequests h b) (TotalErrors h b).

Definition List (r : Registry) (h : heap) : list BackendInfo.t * list Event :=
  (info h <$> Admin.backends r, [RLock; RUnlock]).

Definition Backends (r : Registry) : list loc * list Event :=
  (snapshot r, [RLock; RUnlock]).

Module statsResponse.
Record t := mk {
  Uptime : string;
  Version : string;
  TotalRequests : Z;
  TotalErrors : Z;
  ActiveConns : Z;
  BackendsTotal : Z;
  BackendsHealthy : Z;
  BackendsBlocked : Z
}.
End statsResponse.

(** The five variables of the loop of [handleStats]. *)
Module tally.
Record t := mk {
  totalReqs : Z;
  totalErrs : Z;
  activeConns : Z;
  healthy : Z;
  blocked : Z
}.
End tally.

Definition tally_step (b : BackendInfo.t) (t : tally.t) : tally.t :=
  let healthy :=
    if BackendInfo.Healthy b && negb (BackendInfo.Blocked b)
    then wrap_int (tally.healthy t + 1) else tally.healthy t in
  let blocked :=
    if BackendInfo.Blocked b
    then wrap_int (tally.blocked t + 1) else tally.blocked t in
  tally.mk (wrap_i64 (tally.totalReqs t + BackendInfo.TotalRequests b))
           (wrap_i64 (tally.totalErrs t + BackendInfo.TotalErrors b))
           (wrap_i64 (tally.activeConns t + BackendInfo.ActiveConns b))
           healthy blocked.

Fixpoint tally_loop (backends : list BackendInfo.t) (t : tally.t) : tally.t :=
  match backends with
  | [] => t
  | b :: rest => tally_loop rest (tally_step b t)
  end.

(** What a handler hands to the JSON encoder. *)
Inductive Message :=
| Text (s : string)
| ErrorString.

Inductive Payload :=
| Stats (s : statsResponse.t)
| Infos (l : list BackendInfo.t)
| Status (s : string)
| Failure (msg : Message).

Record Reply := mkReply {
  Code : Z;
  ContentType : string;
  Body : Payload
}.

Definition StatusOK : Z := 200.
Definition StatusBadRequest : Z := 400.
Definition StatusNotFound : Z := 404.
Definition StatusConflict : Z := 409.

Definition jsonOK (v : Payload) : Reply := mkReply StatusOK "application/json" v.

Definition jsonErr (msg : Message) (code : Z) : Reply :=
  mkReply code "application/json" (Failure msg).

(** [handleStats]; [uptime] is the rounded [time.Since(s.startTime)] as a
    string, [version] the field of the server. *)
Definition handleStats (version uptime : string) (r : Registry) (h : heap)
  : Reply * list Event :=
  let '(backends, evs) := List r h in
  let t := tally_loop backends (tally.mk 0 0 0 0 0) in
  (jsonOK (Stats (statsResponse.mk uptime version
                    (tally.totalReqs t) (tally.totalErrs t) (tally.activeConns t)
                    (Z.of_nat (length backends)) (tally.healthy t) (tally.blocked t))),
   evs).

Definition handleListBackends (r : Registry) (h : heap) : Reply * list Event :=
  let '(backends, evs) := List r h in (jsonOK (Infos backends), evs).

(** What a handler that writes to the registry leaves: its reply, the
    registry and the heap, the lock operations and [onChange] calls, and
    the lines logged. *)
Record Outcome := mkOutcome {
  reply : Reply;
  registry : Registry;
  store : heap;
  events : list Event;
  logged : list string
}.

(** The decoded body of [POST /api/backends]. *)
Module AddBody.
Record t := mk {
  URL : string;
  Weight : Z
}.
End AddBody.

(** [handleAddBackend]; [body] is what the JSON decoder produced, [None]
    when it failed. *)
Definition handleAddBackend (body : option AddBody.t) (r : Registry) (h : heap)
  : Outcome :=
  match body with
  | None => mkOutcome (jsonErr (Text "invalid JSON body") StatusBadRequest) r h [] []
  | Some body =>
      if String.eqb (AddBody.URL body) EmptyString
      then mkOutcome (jsonErr (Text "url is required") StatusBadRequest) r h [] []
      else
        let weight := if AddBody.Weight body <=? 0 then 1 else AddBody.Weight body in
        let '(ok, r', h', evs) := Add (AddBody.URL body) weight r h in
        if negb ok then mkOutcome (jsonErr ErrorString StatusConflict) r' h' evs []
        else mkOutcome (jsonOK (Status "added")) r' h' evs ["admin: backend added"]
  end.

(** The three handlers that take the URL from the query; [u] is
    [r.URL.Query().Get("url")]. *)
Definition handleRemoveBackend (u : string) (r : Registry) (h : heap) : Outcome :=
  if String.eqb u EmptyString
  then mkOutcome (jsonErr (Text "url query parameter is required") StatusBadRequest)
                 r h [] []
  else
    let '(ok, r', h', evs) := Remove u r h in
    if negb ok then mkOutcome (jsonErr ErrorString StatusNotFound) r' h' evs []
    else mkOutcome (jsonOK (Status "removed")) r' h' evs ["admin: backend removed"].

Definition handleBlock (u : string) (r : Registry) (h : heap) : Outcome :=
  if String.eqb u EmptyString
  then mkOutcome (jsonErr (Text "url query parameter is required") StatusBadRequest)
                 r h [] []
  else
    let '(ok, r', h', evs) := Block u r h in
    if negb ok then mkOutcome (jsonErr ErrorString StatusNotFound) r' h' evs []
    else mkOutcome (jsonOK (Status "blocked")) r' h' evs ["admin: backend blocked"].

Definition handleUnblock (u : string) (r : Registry) (h : heap) : Outcome :=
  if String.eqb u EmptyString
  then mkOutcome (jsonErr (Text "url query parameter is required") StatusBadRequest)
                 r h [] []
  else
    let '(ok, r', h', evs) := Unblock u r h in
    if negb ok then mkOutcome (jsonErr ErrorString StatusNotFound) r' h' evs []
    else mkOutcome (jsonOK (Status "unblocked")) r' h' evs ["admin: backend unblocked"].

(** The raw URLs of the registered backends, in order. *)
Definition urls (h : heap) (r : Registry) : list string :=
  (fun b => RawURL (deref h b)) <$> Admin.backends r.

(** Every registered backend is an object of the heap. *)
Definition allocated (h : heap) (r : Registry) : Prop :=
  forall b, b ∈ Admin.backends r -> b ∈ dom h.

End AdminAPI.

(** ** Command gateway *)

Module Main.
Import Strategy Proxy.

(** The middleware around the gateway, outermost first. *)
Inductive Layer :=
| Logger
| RateLimiter (rps : float) (burst : Z)
| JWTAuth (secret : string) (exclude : list string).

Definition buildChain (c : Config.t) : list Layer :=
  let h := [] in
  let h :=
    if Config.AuthCfg.Enabled (Config.Auth c)
    then JWTAuth (Config.AuthCfg.Secret (Config.Auth c))
                 (Config.AuthCfg.Exclude (Config.Auth c)) :: h
    else h in
  let h :=
    if Config.RateLimitCfg.Enabled (Config.RateLimit c)
    then RateLimiter (Config.RateLimitCfg.RPS (Config.RateLimit c))
                     (Config.RateLimitCfg.Burst (Config.RateLimit c)) :: h
    else h in
  Logger :: h.

(** What [main] holds once it runs: the gateway with the pickers and the
    backends it reaches, the health monitor, the middleware chain in
    [current], and the lines [main] logged. *)
Record System := mkSystem {
  gw : World;
  monitor : Monitor.t;
  current : list Layer;
  journal : list string
}.

(** A picker just built, stored as a new object and made the picker of
    the gateway by [UpdatePicker]. *)
Definition install (newPicker : AnyPicker) (w : World) : World :=
  let p := fresh (dom (pickers w)) in
  UpdatePicker p (mkWorld (picker w) (<[p := newPicker]> (pickers w))
                          (Proxy.backends w) (trace w)).

(** [proxy.New]. *)
Definition newGateway (p : AnyPicker) (h : heap) : World :=
  mkWorld 0%nat {[ 0%nat := p ]} h [].

Definition withBackends (h : heap) (s : System) : System :=
  mkSystem (onBackends (fun _ => h) (gw s)) (monitor s) (current s) (journal s).

Definition say (line : string) (s : System) : System :=
  mkSystem (gw s) (monitor s) (current s) (journal s ++ [line]).

(** The callback that [main] hands to [admin.NewRegistry]. *)
Definition onChange (strat : string) (backends : list loc) (s : System) : System :=
  match Strategy.New strat backends with
  | None => say "admin: failed to rebuild picker" s
  | Some newPicker =>
      mkSystem (install newPicker (gw s))
               (Monitor.UpdateBackends backends (monitor s))
               (current s) (journal s)
  end.

(** The [onChange] calls among the events of a registry method, run in
    order. *)
Fixpoint notify (evs : list Admin.Event) (s : System) : System :=
  match evs with
  | [] => s
  | Admin.OnChange strat backends :: rest => notify rest (onChange strat backends s)
  | _ :: rest => notify rest s
  end.

(** A method of the registry of a running gateway: it acts on the
    backends, then its [onChange] calls run. *)
Definition call (method : Admin.Registry -> heap -> bool * Admin.Registry * heap * list Admin.Event)
           (r : Admin.Registry) (s : System) : bool * Admin.Registry * System :=
  let '(ok, r', h', evs) := method r (Proxy.backends (gw s)) in
  (ok, r', notify evs (withBackends h' s)).

(** The callback that [main] hands to [config.Watch]. *)
Definition hotReload (newCfg : Config.t) (r : Admin.Registry) (s : System)
  : Admin.Registry * System :=
  let '(newBackends, h') :=
    Backends.NewBackends (Config.Backends newCfg) (Proxy.backends (gw s)) in
  match newBackends with
  | None => (r, say "hot-reload: invalid backends" (withBackends h' s))
  | Some bs =>
      let '(_, r', s1) :=
        call (Admin.ReplaceAll bs (Config.Strategy newCfg)) r (withBackends h' s) in
      (r', say "hot-reload applied"
               (mkSystem (gw s1) (monitor s1) (buildChain newCfg) (journal s1)))
  end.

(** What runs in [main] when the configuration file changes. *)
Definition reload (decoded : option Config.t) (r : Admin.Registry) (s : System)
  : Admin.Registry * System :=
  snd (Config.Watch (fun newCfg '(r, s) => hotReload newCfg r s) decoded (r, s)).

(** Every registered backend has a weight of at least one. *)
Definition weighted (h : heap) (r : Admin.Registry) : Prop :=
  forall b, b ∈ Admin.backends r -> 1 <= Weight (deref h b).

Section Startup.
Variable ParseDuration : string -> Z.

(** [buildGateway]: the gateway and the monitor, or no result with an
    error; the heap in both cases. *)
Definition buildGateway (cfg : Config.t) (h : heap)
  : option (World * Monitor.t) * heap :=
  let '(backends, h1) := Backends.NewBackends (Config.Backends cfg) h in
  match backends with
  | None => (None, h1)
  | Some bs =>
      match Strategy.New (Config.Strategy cfg) bs with
      | None => (None, h1)
      | Some picker =>
          (Some (newGateway picker h1,
                 Monitor.New bs
                   (Monitor.mkConfig
                      (Config.HealthCheckCfg.ParsedInterval ParseDuration
                         (Config.HealthCheck cfg))
                      (Config.HealthCheckCfg.ParsedTimeout ParseDuration
                         (Config.HealthCheck cfg))
                      (Config.HealthCheckCfg.Path (Config.HealthCheck cfg)))),
           h1)
      end
  end.

(** [main] up to the point where it serves: the configuration loaded or
    the default one, the gateway and the monitor, the registry over a
    second set of backends, and the picker and the monitor moved onto the
    backends of the registry.  [None] where [main] exits. *)
Definition startup (loaded : Config.result) (h : heap)
  : option (Admin.Registry * System) :=
  let '(cfg, lines) :=
    match loaded with
    | Config.Ok cfg => (cfg, [])
    | Config.Fail _ => (Config.Default, ["could not load config file, using defaults"])
    end in
  match buildGateway cfg h with
  | (None, _) => None
  | (Some (gw, monitor), h1) =>
      let '(initialBackends, h2) := Backends.NewBackends (Config.Backends cfg) h1 in
      match initialBackends with
      | None => None
      | Some bs =>
          let reg := AdminAPI.NewRegistry bs (Config.Strategy cfg) in
          match Strategy.New (Config.Strategy cfg) (fst (AdminAPI.Backends reg)) with
          | None => None
          | Some seedPicker =>
              Some (reg,
                    mkSystem (install seedPicker (onBackends (fun _ => h2) gw))
                             (Monitor.UpdateBackends (fst (AdminAPI.Backends reg)) monitor)
                             (buildChain cfg) lines)
          end
      end
  end.
End Startup.

(** What a change of the registry leaves of the gateway and the monitor:
    with a picker that [strategy.New] could build over the list of the
    registry, that picker, a new object, is the picker of the gateway and
    the monitor probes the list; without one, the gateway keeps its picker
    and the monitor its list. *)
Definition rebuilt (r' : Admin.Registry) (s s' : System) : Prop :=
  match Strategy.New (Admin.strategy r') (Admin.backends r') with
  | Some P =>
      pickers (gw s') !! picker (gw s') = Some P
      /\ Backends.pool P = Admin.backends r'
      /\ (picker (gw s') ∉ dom (pickers (gw s)))
      /\ (forall p, p ∈ dom (pickers (gw s)) ->
            pickers (gw s') !! p = pickers (gw s) !! p)
      /\ Monitor.backends (monitor s') = Admin.backends r'
  | None =>
      picker (gw s') = picker (gw s)
      /\ pickers (gw s') = pickers (gw s)
      /\ monitor s' = monitor s
  end.

Definition untouched (s s' : System) : Prop :=
  picker (gw s') = picker (gw s)
  /\ pickers (gw s') = pickers (gw s)
  /\ monitor s' = monitor s
  /\ journal s' = journal s.

End Main.

(** ** Package middleware *)

Module Middleware.
Import GoInt GoStrings Proxy.

(** *** The client address *)

Definition len (s : string) : Z := Z.of_nat (String.length s).

(** [s[lo:hi]]. *)
Definition slice (s : string) (lo hi : Z) : string :=
  substring (Z.to_nat lo) (Z.to_nat (hi - lo)) s.

(** [bytealg.IndexByteString] and [bytealg.LastIndexByteString]: the index
    of the first and of the last occurrence of [c], or -1. *)
Fixpoint IndexByte (s : string) (c : byte) : Z :=
  match s with
  | EmptyString => -1
  | String d r =>
      if byte_eqb c d then 0
      else let i := IndexByte r c in if i <? 0 then -1 else i + 1
  end.

Fixpoint LastIndexByte (s : string) (c : byte) : Z :=
  match s with
  | EmptyString => -1
  | String d r =>
      let i := LastIndexByte r c in
      if 0 <=? i then i + 1 else if byte_eqb c d then 0 else -1
  end.

(** [net.SplitHostPort]: host and port, or [None] for each of its
    errors. *)
Definition SplitHostPort (hostport : string) : option (string * string) :=
  let i := LastIndexByte hostport ":"%char in
  if i <? 0 then None
  else
    let bracketed :=
      match hostport with
      | String c _ => byte_eqb c "["%char
      | EmptyString => false
      end in
    let parsed :=
      if bracketed then
        let end_ := IndexByte hostport "]"%char in
        if end_ <? 0 then None
        else if end_ + 1 =? len hostport then None
        else if end_ + 1 =? i then Some (slice hostport 1 end_, 1, end_ + 1)
        else None
      else
        let host := slice hostport 0 i in
        if 0 <=? IndexByte host ":"%char then None else Some (host, 0, 0) in
    match parsed with
    | None => None
    | Some (host, j, k) =>
        if 0 <=? IndexByte (slice hostport j (len hostport)) "["%char then None
        else if 0 <=? IndexByte (slice hostport k (len hostport)) "]"%char then None
        else Some (host, slice hostport (i + 1) (len hostport))
    end.

Definition clientIP (r : Request) : string :=
  let ip := Header.Get (Hdr r) "X-Real-IP" in
  if negb (String.eqb ip EmptyString) then ip
  else
    match SplitHostPort (RemoteAddr r) with
    | Some (ip, _) => ip
    | None => RemoteAddr r
    end.

(** A host or a port that holds none of the bytes [SplitHostPort]
    looks for, and a host that holds no bracket. *)
Definition plain (s : string) : bool :=
  negb (ContainsByte ":"%char s) && negb (ContainsByte "["%char s)
  && negb (ContainsByte "]"%char s).

Definition unbracketed (s : string) : bool :=
  negb (ContainsByte "["%char s) && negb (ContainsByte "]"%char s).

(** *** The rate limiter *)

Definition StatusTooManyRequests : Z := 429.

Section RateLimiter.
(** [rate.Limiter] of golang.org/x/time: its state, its constructor, and
    [Allow] at an instant, which returns the verdict and the state left. *)
Context {Limiter : Type}.
Variable NewLimiter : float -> Z -> Limiter.
Variable Allow : Limiter -> Z -> bool * Limiter.
(** What the next handler acts on. *)
Context {S : Type}.

Record ipEntry := mkIpEntry {
  limiter : Limiter;
  lastSeen : Z
}.

(** [getLimiter] at the instant [now]: the limiter of the address, made
    on its first request. *)
Definition getLimiter (rps : float) (burst : Z) (ip : string) (now : Z)
           (entries : gmap string ipEntry) : Limiter * gmap string ipEntry :=
  let e :=
    match entries !! ip with
    | Some e => e
    | None => mkIpEntry (NewLimiter rps burst) 0
    end in
  let e := mkIpEntry (limiter e) now in
  (limiter e, <[ip := e]> entries).

(** The handler that [RateLimiter(rps, burst)(next)] returns: [now] is
    the instant read by [getLimiter], [at] the one read by [Allow]; the
    limiter is an object, so what [Allow] leaves of it is what the map
    holds afterwards.  The last component tells whether the refusal was
    logged. *)
Definition limited (rps : float) (burst : Z) (next : Request -> S -> Response * S)
           (r : Request) (now at_ : Z) (entries : gmap string ipEntry) (s : S)
  : Response * gmap string ipEntry * S * bool :=
  let ip := clientIP r in
  let '(l, entries) := getLimiter rps burst ip now entries in
  let '(ok, l') := Allow l at_ in
  let entries := alter (fun e => mkIpEntry l' (lastSeen e)) ip entries in
  if negb ok
  then (http_Error "too many requests" StatusTooManyRequests, entries, s, true)
  else let '(resp, s') := next r s in (resp, entries, s', false).

(** One round of the cleanup goroutine at the instant [now]: the loop
    over the map deletes as it goes. *)
Definition cleanup (now : Z) (entries : gmap string ipEntry) : gmap string ipEntry :=
  map_fold (fun ip e acc =>
              if Time.Sub now (lastSeen e) >? 10 * Time.Minute
              then delete ip acc else acc)
           entries entries.
End RateLimiter.

(** *** The response recorder *)

Section Recorder.
(** The [http.ResponseWriter] wrapped: its state and its two methods;
    [Write] returns the count written and whether it failed. *)
Context {W : Type}.
Variable innerWriteHeader : Z -> W -> W.
Variable innerWrite : string -> W -> Z * bool * W.

Record responseRecorder := mkRecorder {
  ResponseWriter : W;
  status : Z;
  bytes : Z
}.

Definition WriteHeader (code : Z) (rr : responseRecorder) : responseRecorder :=
  mkRecorder (innerWriteHeader code (ResponseWriter rr)) code (bytes rr).

Definition Write (b : string) (rr : responseRecorder) : Z * bool * responseRecorder :=
  let '(n, err, w) := innerWrite b (ResponseWriter rr) in
  (n, err, mkRecorder w (status rr) (wrap_int (bytes rr + n))).

(** What a handler does to the writer it is given. *)
Inductive call :=
| CallWriteHeader (code : Z)
| CallWrite (b : string).

Fixpoint serve (calls : list call) (rr : responseRecorder) : responseRecorder :=
  match calls with
  | [] => rr
  | CallWriteHeader code :: rest => serve rest (WriteHeader code rr)
  | CallWrite b :: rest => serve rest (snd (Write b rr))
  end.

(** The same calls on the wrapped writer itself, with the counts its
    [Write] returned. *)
Fixpoint serveInner (calls : list call) (w : W) : list Z * W :=
  match calls with
  | [] => ([], w)
  | CallWriteHeader code :: rest => serveInner rest (innerWriteHeader code w)
  | CallWrite b :: rest =>
      let '(n, _, w1) := innerWrite b w in
      let '(ns, w2) := serveInner rest w1 in
      (n :: ns, w2)
  end.

(** The code of the last [WriteHeader] among the calls, [d] without
    one. *)
Fixpoint lastStatus (d : Z) (calls : list call) : Z :=
  match calls with
  | [] => d
  | CallWriteHeader code :: rest => lastStatus code rest
  | CallWrite _ :: rest => lastStatus d rest
  end.
End Recorder.

(** *** Request identifiers *)

Definition hextable : string := "0123456789abcdef".

Definition hexdigit (n : N) : byte :=
  match String.get (N.to_nat n) hextable with
  | Some c => c
  | None => Ascii.zero
  end.

(** [hex.EncodeToString]. *)
Fixpoint EncodeToString (src : list byte) : string :=
  match src with
  | [] => EmptyString
  | v :: rest =>
      String (hexdigit (N.shiftr (N_of_ascii v) 4))
             (String (hexdigit (N.land (N_of_ascii v) 15)) (EncodeToString rest))
  end.

(** [newRequestID]; [random i] is the byte that [rand.Read] stored at
    index [i] of the buffer. *)
Definition newRequestID (random : nat -> byte) : string :=
  EncodeToString (random <$> seq 0 8).

End Middleware.

(** ** Weighted round robin over equal weights *)

Module Rotation.
Import Strategy.

(** What a plain rotation over [bs] returns on [n] calls: the backends in
    the order of the list, over and over; nothing when the list is
    empty. *)
Definition rotation (bs : list loc) (n : nat) : list (option loc) :=
  (fun i => bs !! (i mod length bs)%nat) <$> seq 0 n.

(** The entries of a weighted round robin over [bs], every weight being
    [wt], after [r] calls of a cycle: each entry has gained [wt] on every
    call, and the first [r] entries, selected once each, have given back
    the total weight. *)
Definition turn (wt : Z) (bs : list loc) (r : nat) : list wrrEntry :=
  imap (fun j b =>
          mkEntry b (Z.of_nat r * wt
                     - (if (j <? r)%nat then Z.of_nat (length bs) * wt else 0))) bs.

End Rotation.

(** ** More concrete scenarios *)

Module Cases.
Import Strategy Scenario.

(** The gateway of [swapWorld] with backend 1, the only backend of its
    picker, demoted. *)
Definition downWorld : Proxy.World :=
  Proxy.mkWorld 1%nat (Proxy.pickers swapWorld) demotedHeap [].

(** A request that carries an [Accept] header. *)
Definition acceptRequest : Proxy.Request :=
  requestWith {[ "Accept"%string := ["*/*"%string] ]}.

(** A running gateway: [swapWorld], a monitor over both backends, the
    logger as the only middleware. *)
Definition liveSystem : Main.System :=
  Main.mkSystem swapWorld
    (Monitor.New [1%nat; 2%nat] (Monitor.mkConfig (10 * Time.Second) (2 * Time.Second) "/healthz"))
    [Main.Logger] [].

End Cases.

(** ** A health flip in the middle of a weighted rotation *)

Module Flip.
Import Strategy Scenario.

(** Three healthy backends of weights 3, 1 and 1, none blocked. *)
Definition weightedHeap : heap :=
  <[ 1%nat := backendAt "http://b1:80" 3 true false ]>
    (<[ 2%nat := backendAt "http://b2:80" 1 true false ]>
       {[ 3%nat := backendAt "http://b3:80" 1 true false ]}).

(** A new weighted round robin over the three after two calls. *)
Definition afterTwo : list (option loc) * WeightedRoundRobin * heap :=
  calls 2 (NewWeightedRoundRobin [1%nat; 2%nat; 3%nat]) weightedHeap.

(** The backends once the monitor has then found backend 3 down. *)
Definition flipped : heap := SetHealthy 3%nat false (snd afterTwo).

End Flip.

(** * Properties *)

Import GoInt GoStrings Strategy.

(** ** Machine integers *)

Lemma wrap_i64_id z : in_i64 z -> wrap_i64 z = z.
Proof.
  unfold in_i64, min_i64, max_i64, wrap_i64. intros Hz.
  rewrite Z.mod_small; lia.
Qed.

Lemma wrap_i64_range z : in_i64 (wrap_i64 z).
Proof.
  unfold in_i64, min_i64, max_i64, wrap_i64.
  pose proof (Z.mod_pos_bound (z + 2 ^ 63) (2 ^ 64) ltac:(lia)). lia.
Qed.

Lemma wrap_u64_id z : 0 <= z < 2 ^ 64 -> wrap_u64 z = z.
Proof. intros Hz. unfold wrap_u64. apply Z.mod_small. lia. Qed.

(** ** The heap of backends *)

Lemma deref_modify_eq f b (h : heap) : deref (modify f b h) b = f (deref h b).
Proof. unfold deref, modify. apply lookup_total_insert_eq. Qed.

Lemma deref_modify_ne f b b' (h : heap) :
  b <> b' -> deref (modify f b h) b' = deref h b'.
Proof. intros Hne. unfold deref, modify. by apply lookup_total_insert_ne. Qed.

Lemma deref_modify f b b' (h : heap) :
  deref (modify f b h) b' = if decide (b = b') then f (deref h b) else deref h b'.
Proof.
  case_decide as Hb; [subst; apply deref_modify_eq | by apply deref_modify_ne].
Qed.

(** A field that [f] does not touch reads the same after [modify f]. *)
Lemma modify_preserves {A} (proj : Backend -> A) f b b' (h : heap) :
  (forall x, proj (f x) = proj x) ->
  proj (deref (modify f b h) b') = proj (deref h b').
Proof.
  intros Hf. rewrite deref_modify. case_decide; [subst; apply Hf | done].
Qed.

Lemma IncConns_healthy b b' (h : heap) :
  IsHealthy (snd (IncConns b h)) b' = IsHealthy h b'.
Proof. apply (modify_preserves healthy). by intros []. Qed.

Lemma IncConns_blocked b b' (h : heap) :
  IsBlocked (snd (IncConns b h)) b' = IsBlocked h b'.
Proof. apply (modify_preserves blocked). by intros []. Qed.

Lemma IncConns_Weight b b' (h : heap) :
  Weight (deref (snd (IncConns b h)) b') = Weight (deref h b').
Proof. apply (modify_preserves Weight). by intros []. Qed.

(** ** The health monitor *)

Import Health.

(** C6.  Whatever the flag held before, [probe] stores [true] on a reply
    with a status in [200, 400) and logs a recovery exactly when the backend
    was unhealthy; it stores [false] on a reply with a status of 400 or
    more, and on a transport or timeout error. *)
Theorem probe_sets_healthy cfg client b (h : heap) logs h' :
  probe cfg client b h = (logs, h') ->
  let target := (RawURL (deref h b) +:+ Path cfg)%string in
  let recovered := Info "health: backend recovered" (RawURL (deref h b)) in
  (forall code, client target = GetResponse code -> 200 <= code < 400 ->
     h' = SetHealthy b true h /\ IsHealthy h' b = true /\
     (In recovered logs <-> IsHealthy h b = false))
  /\ (forall code, client target = GetResponse code -> 400 <= code ->
     h' = SetHealthy b false h /\ IsHealthy h' b = false /\
     ~ In recovered logs)
  /\ (client target = GetError ->
     h' = SetHealthy b false h /\ IsHealthy h' b = false /\
     ~ In recovered logs).
Proof.
  intros Hp target recovered. unfold probe in Hp. fold target in Hp.
  assert (Hset : forall v, IsHealthy (SetHealthy b v h) b = v).
  { intros v. unfold IsHealthy, SetHealthy. by rewrite deref_modify_eq. }
  assert (Hwarn : ~ In recovered
                    (if IsHealthy h b
                     then [Warn "health: backend became unhealthy" (RawURL (deref h b))]
                     else [])).
  { destruct (IsHealthy h b); [| intros []]. intros [Hc | []]. discriminate Hc. }
  split; [| split].
  - intros code Hget Hcode. rewrite Hget in Hp.
    replace ((code >=? 200) && (code <? 400)) with true in Hp by lia.
    injection Hp as <- <-. split; [done |]. split; [apply Hset |].
    destruct (IsHealthy h b); cbn [negb In]; [| tauto].
    split; [intros [] | discriminate].
  - intros code Hget Hcode. rewrite Hget in Hp.
    replace ((code >=? 200) && (code <? 400)) with false in Hp by lia.
    injection Hp as <- <-. split; [done |]. split; [apply Hset | exact Hwarn].
  - intros Hget. rewrite Hget in Hp.
    injection Hp as <- <-. split; [done |]. split; [apply Hset | exact Hwarn].
Qed.

(** ** The proxy engine *)

Import Proxy.

Lemma Done_is_DecConns (P : AnyPicker) b (h : heap) : Done P b h = snd (DecConns b h).
Proof. by destruct P. Qed.

(** C2.  When dispatch fails for a request that carries a backend in its
    context, [errorHandler] calls [Done] for that backend once and nothing
    else on any picker, stores [false] in the healthy flag, adds one to
    [totalRequests] and one to [totalErrors], and answers 502 with the
    text [bad gateway]. *)
Theorem errorHandler_demotes_backend (r : Request) (w : World) b resp w' :
  backendFromCtx r = Some b ->
  errorHandler r w = (resp, w') ->
  let h := Proxy.backends w in
  let h' := Proxy.backends w' in
  trace w' = trace w ++ [CallDone (picker w) b;
                         LogError "backend error — marked unhealthy"]
  /\ ActiveConns h' b = wrap_i64 (ActiveConns h b - 1)
  /\ IsHealthy h' b = false
  /\ TotalRequests h' b = wrap_i64 (TotalRequests h b + 1)
  /\ TotalErrors h' b = wrap_i64 (TotalErrors h b + 1)
  /\ (in_i64 (TotalRequests h b + 1) -> TotalRequests h' b = TotalRequests h b + 1)
  /\ (in_i64 (TotalErrors h b + 1) -> TotalErrors h' b = TotalErrors h b + 1)
  /\ StatusCode resp = 502
  /\ Body resp = ("bad gateway" +:+ String (ascii_of_N 10) EmptyString)%string.
Proof.
  intros Hctx Herr h h'. unfold errorHandler in Herr. rewrite Hctx in Herr.
  inversion Herr; subst resp w'; clear Herr.
  subst h h'. cbn [trace Proxy.backends log onBackends callDone Proxy.picker Proxy.pickers].
  rewrite Done_is_DecConns.
  unfold ActiveConns, IsHealthy, TotalRequests, TotalErrors,
    IncErrors, IncRequests, SetHealthy, DecConns.
  cbn [snd]. rewrite !deref_modify_eq.
  set (x := deref (Proxy.backends w) b).
  assert (Hreq : totalRequests
            (add_totalErrors 1 (add_totalRequests 1 (set_healthy false (add_activeConns (-1) x))))
          = wrap_i64 (totalRequests x + 1)) by (by destruct x).
  assert (Herrs : totalErrors
            (add_totalErrors 1 (add_totalRequests 1 (set_healthy false (add_activeConns (-1) x))))
          = wrap_i64 (totalErrors x + 1)) by (by destruct x).
  rewrite Hreq, Herrs.
  split; [by rewrite <- app_assoc |].
  split; [by destruct x |].
  split; [by destruct x |].
  split; [done |]. split; [done |].
  split; [apply wrap_i64_id |]. split; [apply wrap_i64_id |].
  split; reflexivity.
Qed.

(** ** Selection *)

Import Scenario.

Lemma healthySubset_spec (h : heap) bs b :
  b ∈ healthySubset h bs <-> b ∈ bs /\ IsHealthy h b = true /\ IsBlocked h b = false.
Proof.
  induction bs as [| a bs IH]; simpl.
  - split; [intros Hb | intros [Hb _]]; by apply elem_of_nil in Hb.
  - destruct (IsHealthy h a) eqn:Hh, (IsBlocked h a) eqn:Hb; simpl;
      rewrite ?elem_of_cons, IH; split;
      try (intros [-> | (? & ? & ?)]; by auto);
      try (intros (? & ? & ?); by auto);
      intros ([-> | ?] & ? & ?); auto; congruence.
Qed.

(** [RoundRobin.Next] honours both flags. *)
Lemma RoundRobin_Next_selectable (r : RoundRobin) (h : heap) b r' h' :
  Next r h = (Some b, r', h') ->
  b ∈ rr_backends r /\ IsHealthy h b = true /\ IsBlocked h b = false.
Proof.
  cbn [Next RoundRobin_Picker]. unfold RoundRobin_Next.
  set (sub := healthySubset h (rr_backends r)).
  destruct (Nat.eqb_spec (length sub) 0) as [| Hlen]; [discriminate |].
  intros Heq. inversion Heq as [[Hb Hr Hh]]. clear Heq Hr Hh.
  apply healthySubset_spec. fold sub.
  apply list_elem_of_lookup. eexists.
  apply list_lookup_lookup_total_lt.
  pose proof (Z.mod_pos_bound
    (wrap_u64 (wrap_u64 (rr_counter r + 1) - 1)) (Z.of_nat (length sub)) ltac:(lia)).
  lia.
Qed.

(** C1.  [LeastConnections.Next] and [WeightedRoundRobin.Next] test
    [IsHealthy] alone: over a list whose one backend is healthy and blocked
    each of them returns that backend, where [RoundRobin.Next], which
    filters with [healthySubset], fails with [ErrNoHealthyBackend]. *)
Theorem blocked_backend_selected :
  IsHealthy blockedHeap 1%nat = true /\ IsBlocked blockedHeap 1%nat = true
  /\ fst (fst (Next (NewLeastConnections [1%nat]) blockedHeap)) = Some 1%nat
  /\ fst (fst (Next (NewWeightedRoundRobin [1%nat]) blockedHeap)) = Some 1%nat
  /\ fst (fst (Next (NewRoundRobin [1%nat]) blockedHeap)) = ErrNoHealthyBackend.
Proof. vm_compute. repeat split. Qed.

(** ** Backend construction *)

(** C7 (as stated, refuted).  A relative path and a [host:port] string
    without scheme whose host starts with a letter both parse, the first
    with neither scheme nor host, the second with the host name taken for
    the scheme: [NewBackend] returns a backend for each. *)
Lemma NewBackend_accepts_non_absolute_url :
  (exists b h', NewBackend "/api/v1" 1 ∅ = Some (b, h')
     /\ URL.Scheme (URL (deref h' b)) = EmptyString
     /\ URL.Host (URL (deref h' b)) = EmptyString)
  /\ (exists b h', NewBackend "localhost:8080" 1 ∅ = Some (b, h')
     /\ URL.Scheme (URL (deref h' b)) = "localhost"%string
     /\ URL.Host (URL (deref h' b)) = EmptyString).
Proof. split; do 2 eexists; vm_compute; repeat split. Qed.

(** C7 (amended).  [NewBackend] fails exactly when [url.Parse] fails on the
    raw URL; whenever it parses, with or without scheme and host, the
    result is a fresh backend holding the parsed URL, the raw URL and the
    weight, healthy, not blocked, every counter zero. *)
Theorem NewBackend_fails_iff_Parse_fails rawURL weight (h : heap) :
  (NewBackend rawURL weight h = None <-> URL.Parse rawURL = None)
  /\ (forall u, URL.Parse rawURL = Some u ->
        exists b, (b ∉ dom h)
          /\ NewBackend rawURL weight h
             = Some (b, <[b := mkBackend u rawURL weight true false 0 0 0]> h)).
Proof.
  unfold NewBackend. split.
  - destruct (URL.Parse rawURL); split; congruence.
  - intros u ->. exists (fresh (dom h)). split; [apply is_fresh | done].
Qed.

(** ** The registry *)

Import Admin.

Lemma find_from_spec (h : heap) rawURL bs i :
  0 <= i ->
  (find_from h i bs rawURL = -1
   /\ Forall (fun b => RawURL (deref h b) <> rawURL) bs)
  \/ (exists j b, find_from h i bs rawURL = i + Z.of_nat j
        /\ bs !! j = Some b /\ RawURL (deref h b) = rawURL
        /\ Forall (fun b => RawURL (deref h b) <> rawURL) (take j bs)).
Proof.
  revert i. induction bs as [| a bs IH]; intros i Hi; simpl.
  - left. by split.
  - destruct (String.eqb_spec (RawURL (deref h a)) rawURL) as [Heq | Hne].
    + right. exists 0%nat, a. repeat split; [lia | done | by constructor].
    + destruct (IH (i + 1) ltac:(lia)) as [[Hf Hall] | (j & b & Hf & Hj & Hb & Hall)].
      * left. split; [done | by constructor].
      * right. exists (S j), b. repeat split; [lia | done | done |].
        simpl. by constructor.
Qed.

Lemma exists_url_spec (h : heap) r rawURL :
  exists_url h r rawURL = true
  <-> exists b, b ∈ Admin.backends r /\ RawURL (deref h b) = rawURL.
Proof.
  unfold exists_url. rewrite existsb_exists. split.
  - intros (b & Hin & Heq). exists b. split; [by apply list_elem_of_In |].
    by apply String.eqb_eq.
  - intros (b & Hin & Heq). exists b. split; [by apply list_elem_of_In |].
    by apply String.eqb_eq.
Qed.

(** C9 (as stated, refuted).  [Add] of a URL that does not parse fails on an
    empty registry, where no backend with that URL is registered. *)
Lemma Add_fails_without_duplicate :
  Admin.backends (mkRegistry [] "round_robin") = []
  /\ Add "127.0.0.1:8080" 1 (mkRegistry [] "round_robin") ∅
     = (false, mkRegistry [] "round_robin", ∅, []).
Proof. split; [reflexivity | vm_compute; reflexivity]. Qed.

(** C9 (amended).  Over a registry whose backends are allocated:
    [Add] fails exactly when the URL does not parse or a backend with that
    raw URL is registered; [Remove] fails exactly when no backend with that
    raw URL is registered; a failed call leaves the list as it was and
    calls [onChange] never; a successful [Add], [Remove], [Block],
    [Unblock] or [ReplaceAll] calls [onChange] once, with no lock held,
    with the current strategy name and a copy of the list as the call left
    it. *)
Theorem Registry_mutations (r : Registry) (h : heap) rawURL weight :
  (forall b, b ∈ Admin.backends r -> b ∈ dom h) ->
  let registered :=
    exists b, b ∈ Admin.backends r /\ RawURL (deref h b) = rawURL in
  (forall ok r' h' evs, Add rawURL weight r h = (ok, r', h', evs) ->
     (ok = false <-> URL.Parse rawURL = None \/ registered)
     /\ (ok = false -> r' = r /\ onChangeCalls [] evs = [])
     /\ (ok = true ->
         exists b, (b ∉ dom h) /\ RawURL (deref h' b) = rawURL
           /\ Weight (deref h' b) = weight
           /\ Admin.backends r' = Admin.backends r ++ [b]
           /\ onChangeCalls [] evs = [(strategy r, Admin.backends r', true)]))
  /\ (forall ok r' h' evs, Remove rawURL r h = (ok, r', h', evs) ->
     (ok = false <-> ~ registered)
     /\ (ok = false -> r' = r /\ h' = h /\ onChangeCalls [] evs = [])
     /\ (ok = true ->
         exists j b, Admin.backends r !! j = Some b
           /\ RawURL (deref h b) = rawURL
           /\ Admin.backends r'
              = take j (Admin.backends r) ++ drop (S j) (Admin.backends r)
           /\ h' = h
           /\ onChangeCalls [] evs = [(strategy r, Admin.backends r', true)]))
  /\ (forall v ok r' h' evs, setBlockedAt v rawURL r h = (ok, r', h', evs) ->
     (ok = false <-> ~ registered)
     /\ r' = r
     /\ (ok = false -> h' = h /\ onChangeCalls [] evs = [])
     /\ (ok = true ->
         exists b, b ∈ Admin.backends r /\ RawURL (deref h b) = rawURL
           /\ h' = SetBlocked b v h
           /\ onChangeCalls [] evs = [(strategy r, Admin.backends r, true)]))
  /\ (forall bs name ok r' h' evs, ReplaceAll bs name r h = (ok, r', h', evs) ->
     ok = true /\ Admin.backends r' = bs /\ strategy r' = name /\ h' = h
     /\ onChangeCalls [] evs = [(name, bs, true)]).
Proof.
  intros Hwf registered.
  assert (Hreg : forall hh, (forall b, b ∈ Admin.backends r -> deref hh b = deref h b) ->
            exists_url hh r rawURL = true <-> registered).
  { intros hh Hsame. rewrite exists_url_spec. unfold registered.
    split; intros (b & Hin & Heq); exists b; (split; [done |]);
      [by rewrite <- Hsame | by rewrite Hsame]. }
  assert (Hfind : (find h r rawURL = -1 /\ ~ registered)
            \/ (exists j b, find h r rawURL = Z.of_nat j
                  /\ Admin.backends r !! j = Some b /\ RawURL (deref h b) = rawURL)).
  { unfold find.
    destruct (find_from_spec h rawURL (Admin.backends r) 0 ltac:(lia))
      as [[Hf Hall] | (j & b & Hf & Hj & Hb & _)].
    - left. split; [done |]. intros (b & Hin & Heq).
      rewrite Forall_forall in Hall. by apply (Hall b).
    - right. exists j, b. by rewrite Hf. }
  split; [| split; [| split]].
  - (* Add *)
    intros ok r' h' evs. unfold Add, NewBackend.
    destruct (URL.Parse rawURL) as [u |] eqn:Hparse.
    + set (b := fresh (dom h)).
      set (h1 := <[b := mkBackend u rawURL weight true false 0 0 0]> h).
      assert (Hfresh : b ∉ dom h) by apply is_fresh.
      assert (Hsame : forall b', b' ∈ Admin.backends r -> deref h1 b' = deref h b').
      { intros b' Hin. unfold deref, h1. apply lookup_total_insert_ne.
        intros ->. by apply Hfresh, Hwf. }
      specialize (Hreg h1 Hsame).
      destruct (exists_url h1 r rawURL) eqn:Hex; intros Heq;
        inversion Heq; subst; clear Heq.
      * split; [split; [intros _; right; by apply Hreg | done] |].
        split; [done | discriminate].
      * split; [split; [discriminate |] |].
        { intros [Hc | Hc]; [discriminate |]. apply Hreg in Hc. discriminate. }
        split; [discriminate |]. intros _. exists b.
        unfold deref, h1. rewrite lookup_total_insert_eq. by repeat split.
    + intros Heq. inversion Heq; subst; clear Heq.
      split; [split; [by left | done] |]. split; [done | discriminate].
  - (* Remove *)
    intros ok r' h' evs. unfold Remove.
    destruct Hfind as [[Hf Hnot] | (j & b & Hf & Hj & Hb)]; rewrite Hf.
    + simpl. intros Heq. inversion Heq; subst; clear Heq.
      split; [done |]. split; [done | discriminate].
    + replace (Z.of_nat j <? 0) with false by lia. rewrite Nat2Z.id.
      intros Heq. inversion Heq; subst; clear Heq.
      split; [split; [discriminate |] |].
      { intros Hnot. exfalso. apply Hnot. exists b. split; [| done].
        apply list_elem_of_lookup. by exists j. }
      split; [discriminate |]. intros _. exists j, b. by repeat split.
  - (* Block, Unblock *)
    intros v ok r' h' evs. unfold setBlockedAt.
    destruct Hfind as [[Hf Hnot] | (j & b & Hf & Hj & Hb)]; rewrite Hf.
    + simpl. intros Heq. inversion Heq; subst; clear Heq.
      split; [done |]. split; [done |]. split; [done | discriminate].
    + replace (Z.of_nat j <? 0) with false by lia. rewrite Nat2Z.id.
      intros Heq. inversion Heq; subst; clear Heq.
      split; [split; [discriminate |] |].
      { intros Hnot. exfalso. apply Hnot. exists b. split; [| done].
        apply list_elem_of_lookup. by exists j. }
      split; [done |]. split; [discriminate |]. intros _. exists b.
      rewrite (list_lookup_total_correct _ _ _ Hj).
      repeat split; try done. apply list_elem_of_lookup. by exists j.
  - (* ReplaceAll *)
    intros bs name ok r' h' evs. unfold ReplaceAll.
    intros Heq. inversion Heq; subst; clear Heq. by repeat split.
Qed.

(** ** Picker swap and completion *)

(** C3 (as stated, refuted).  A request selects its backend on picker 1;
    picker 2 is swapped in before it completes; the [Done] of the request,
    on the success path as on the failure path, is then called on picker 2
    and never on picker 1. *)
Lemma Done_called_on_swapped_picker :
  let out := fst (director (requestWith ∅) swapWorld) in
  let w1 := snd (director (requestWith ∅) swapWorld) in
  let w2 := UpdatePicker 2%nat w1 in
  backendFromCtx out = Some 1%nat
  /\ trace w1 = [CallNext 1%nat (Some 1%nat); LogDebug "proxying request" "http://b1:80"]
  /\ trace (modifyResponse out w2) = trace w1 ++ [CallDone 2%nat 1%nat]
  /\ ~ In (CallDone 1%nat 1%nat) (trace (modifyResponse out w2))
  /\ ~ In (CallDone 1%nat 1%nat) (trace (snd (errorHandler out w2))).
Proof.
  vm_compute. repeat split; intros H;
    repeat (destruct H as [H | H]; [discriminate H |]); exact H.
Qed.

(** C3 (amended).  Both completion paths read [gw.picker] again: for a
    request that carries backend [b], [Done] is called once, on the picker
    installed when the request completes, which after [UpdatePicker P'] is
    [P'] and not the picker that selected [b].  [Done] of every picker only
    decrements the active connections of [b], so the backend is left as a
    call on any other picker would leave it.  A request that starts after
    the swap calls [Next] on [P']. *)
Theorem Done_called_on_current_picker (req : Request) (w : World) (P' : ploc) b :
  backendFromCtx req = Some b ->
  let w' := UpdatePicker P' w in
  trace (modifyResponse req w') = trace w ++ [CallDone P' b]
  /\ trace (snd (errorHandler req w'))
     = trace w ++ [CallDone P' b; LogError "backend error — marked unhealthy"]
  /\ (forall P, Proxy.backends (callDone P b w') = Proxy.backends (callDone P' b w'))
  /\ (forall P, ActiveConns (Proxy.backends (callDone P b w')) b
                = wrap_i64 (ActiveConns (Proxy.backends w) b - 1))
  /\ (forall req2, exists r e,
        trace (snd (director req2 w')) = trace w ++ [CallNext P' r; e]).
Proof.
  intros Hctx w'. unfold modifyResponse, errorHandler. rewrite Hctx.
  split; [reflexivity |]. split; [| split; [| split]].
  - cbn. by rewrite <- app_assoc.
  - intros P. cbn. by rewrite !Done_is_DecConns.
  - intros P. cbn. rewrite Done_is_DecConns. unfold ActiveConns, DecConns.
    cbn [snd]. rewrite deref_modify_eq. by destruct (deref (Proxy.backends w) b).
  - intros req2. subst w'. unfold director, callNext, UpdatePicker.
    cbn [Proxy.picker Proxy.pickers Proxy.backends trace].
    destruct (Next _ _) as [[[b1 |] P1] h1]; eexists _, _;
      cbn [snd trace log]; by rewrite <- app_assoc.
Qed.

(** ** Request rewriting *)

Lemma canonical_header_keys :
  Header.CanonicalMIMEHeaderKey "Te" = "Te"%string
  /\ Header.CanonicalMIMEHeaderKey "Trailers" = "Trailers"%string
  /\ Header.CanonicalMIMEHeaderKey "X-Forwarded-For" = "X-Forwarded-For"%string
  /\ Header.CanonicalMIMEHeaderKey "X-Real-IP" = "X-Real-Ip"%string
  /\ Header.CanonicalMIMEHeaderKey "X-Forwarded-Host" = "X-Forwarded-Host"%string
  /\ Header.CanonicalMIMEHeaderKey "X-Forwarded-Proto" = "X-Forwarded-Proto"%string.
Proof. vm_compute. repeat split. Qed.

(** C8 (as stated, refuted).  An inbound request whose [X-Forwarded-For]
    header is present with an empty value leaves [director] with the bare
    client address: nothing is appended to the prior value. *)
Lemma empty_forwarded_for_is_replaced :
  let req := requestWith {[ "X-Forwarded-For"%string := [EmptyString] ]} in
  let out := fst (director req swapWorld) in
  Hdr req !! "X-Forwarded-For"%string = Some [EmptyString]
  /\ ctxBackend out = Some 1%nat
  /\ Hdr out !! "X-Forwarded-For"%string = Some ["10.0.0.7:51234"%string]
  /\ Hdr out !! "X-Forwarded-For"%string <> Some [", 10.0.0.7:51234"%string].
Proof. vm_compute. repeat split. discriminate. Qed.

(** C8 (amended).  When selection succeeds with backend [b], the request
    [director] leaves has: [X-Forwarded-For] set to the first prior value
    followed by [", "] and the client address when that value is not empty,
    and to the client address alone when the header is absent or its first
    value is empty; [X-Real-IP] set to the client address;
    [X-Forwarded-Host] set to the inbound [Host]; [X-Forwarded-Proto] set
    to [https] when the request came over TLS and to [http] otherwise; no
    [Te] and no [Trailers] header; and the target, the [Host] and the
    context taken from [b]. *)
Theorem director_forwarding_headers (req : Request) (w : World) b :
  fst (callNext (picker w) w) = Some b ->
  let out := fst (director req w) in
  let prior := Header.Get (Hdr req) "X-Forwarded-For" in
  let u := URL (deref (Proxy.backends (snd (callNext (picker w) w))) b) in
  Hdr out !! "X-Forwarded-For"%string
    = Some [match prior with
            | EmptyString => RemoteAddr req
            | _ => (prior +:+ ", " +:+ RemoteAddr req)%string
            end]
  /\ Header.Get (Hdr out) "X-Real-IP" = RemoteAddr req
  /\ Header.Get (Hdr out) "X-Forwarded-Host" = Host req
  /\ Header.Get (Hdr out) "X-Forwarded-Proto"
     = (if TLS req then "https" else "http")%string
  /\ Hdr out !! "Te"%string = None
  /\ Hdr out !! "Trailers"%string = None
  /\ URLScheme out = URL.Scheme u /\ URLHost out = URL.Host u
  /\ Host out = URL.Host u
  /\ backendFromCtx out = Some b.
Proof.
  intros Hnext out prior u. subst out u. unfold director.
  destruct (callNext (picker w) w) as [r w1]. cbn [fst snd] in *. subst r.
  cbn [fst Hdr URLScheme URLHost Host backendFromCtx ctxBackend].
  destruct canonical_header_keys as (Kte & Ktr & Kxff & Kip & Kh & Kp).
  assert (Hprior : Header.Get (Header.Del "Trailers" (Header.Del "Te" (Hdr req)))
                     "X-Forwarded-For" = prior).
  { subst prior. unfold Header.Get, Header.Del. rewrite Kte, Ktr, Kxff.
    by rewrite !lookup_delete_ne. }
  rewrite Hprior.
  unfold Header.Get, Header.Set_, Header.Del, requestScheme.
  rewrite Kte, Ktr, Kxff, Kip, Kh, Kp.
  repeat split.
  - rewrite !lookup_insert_ne by done.
    destruct prior; cbn [String.eqb negb]; by rewrite lookup_insert_eq.
  - rewrite lookup_insert_ne by done. rewrite lookup_insert_ne by done.
    by rewrite lookup_insert_eq.
  - rewrite lookup_insert_ne by done. by rewrite lookup_insert_eq.
  - by rewrite lookup_insert_eq.
  - rewrite !lookup_insert_ne by done.
    destruct (negb _); rewrite lookup_insert_ne by done;
      rewrite lookup_delete_ne by done; apply lookup_delete_eq.
  - rewrite !lookup_insert_ne by done.
    destruct (negb _); rewrite lookup_insert_ne by done; apply lookup_delete_eq.
Qed.

(** ** Sequential calls *)

Lemma calls_add {P} `{Picker P} (a b : nat) (p : P) (h : heap) :
  calls (a + b) p h =
  let '(rs1, p1, h1) := calls a p h in
  let '(rs2, p2, h2) := calls b p1 h1 in
  (rs1 ++ rs2, p2, h2).
Proof.
  revert p h. induction a as [| a IH]; intros p h; simpl.
  - by destruct (calls b p h) as [[rs2 p2] h2].
  - destruct (Next p h) as [[r p1] h1]. rewrite IH.
    destruct (calls a p1 h1) as [[rs1 p2] h2].
    by destruct (calls b p2 h2) as [[rs2 p3] h3].
Qed.

Lemma selected_app b rs1 rs2 :
  selected b (rs1 ++ rs2) = (selected b rs1 + selected b rs2)%nat.
Proof. unfold selected. by rewrite filter_app, length_app. Qed.

Lemma selected_Permutation b rs1 rs2 :
  rs1 ≡ₚ rs2 -> selected b rs1 = selected b rs2.
Proof. intros Hp. unfold selected. by rewrite Hp. Qed.

Lemma selected_Some b (l : list loc) :
  selected b (Some <$> l) = length (filter (fun x => x = b) l).
Proof.
  unfold selected. induction l as [| a l IH]; [done |].
  rewrite fmap_cons, !filter_cons. destruct (decide (a = b)) as [-> | Hne].
  - rewrite decide_True by done. simpl. by rewrite IH.
  - rewrite decide_False by congruence. done.
Qed.

Lemma NoDup_filter_eq_length (l : list loc) b :
  NoDup l -> b ∈ l -> length (filter (fun x => x = b) l) = 1%nat.
Proof.
  induction 1 as [| a l Hnotin Hnd IH]; intros Hin.
  - by apply elem_of_nil in Hin.
  - rewrite filter_cons. destruct (decide (a = b)) as [-> | Hne].
    + simpl. f_equal.
      destruct (filter (fun x => x = b) l) as [| x t] eqn:Hf; [done |].
      assert (Hx : x ∈ filter (fun x => x = b) l) by (rewrite Hf; left).
      apply list_elem_of_filter in Hx as [-> Hx]. done.
    + apply IH. apply elem_of_cons in Hin as [-> | Hin]; done.
Qed.

(** ** Round robin *)

Lemma healthySubset_IncConns b (h : heap) bs :
  healthySubset (snd (IncConns b h)) bs = healthySubset h bs.
Proof.
  induction bs as [| a bs IH]; cbn [healthySubset]; [done |].
  by rewrite IncConns_healthy, IncConns_blocked, IH.
Qed.

Lemma counter_index c : 0 <= c < 2 ^ 64 -> wrap_u64 (wrap_u64 (c + 1) - 1) = c.
Proof.
  intros Hc. unfold wrap_u64. rewrite Zminus_mod_idemp_l.
  replace (c + 1 - 1) with c by lia. apply Z.mod_small. lia.
Qed.

Lemma RoundRobin_Next_step (r : RoundRobin) (h : heap) :
  let subset := healthySubset h (rr_backends r) in
  subset <> [] -> 0 <= rr_counter r < 2 ^ 64 ->
  let b := subset !!! Z.to_nat (rr_counter r mod Z.of_nat (length subset)) in
  Next r h = (Some b, mkRoundRobin (rr_backends r) (wrap_u64 (rr_counter r + 1)),
              snd (IncConns b h)).
Proof.
  intros subset Hne Hc b. cbn [Next RoundRobin_Picker]. unfold RoundRobin_Next.
  fold subset. destruct (Nat.eqb_spec (length subset) 0) as [Hz | _].
  - by destruct subset.
  - subst b. by rewrite counter_index.
Qed.

(** The results of [j] calls that do not take the counter past [2^64]. *)
Lemma RoundRobin_calls (j : nat) : forall (r : RoundRobin) (h : heap),
  let subset := healthySubset h (rr_backends r) in
  subset <> [] -> 0 <= rr_counter r < 2 ^ 64 ->
  rr_counter r + Z.of_nat j <= 2 ^ 64 ->
  exists r' h',
    calls j r h
    = ((fun i => Some (subset !!! Z.to_nat
                         ((rr_counter r + Z.of_nat i) mod Z.of_nat (length subset))))
         <$> seq 0 j, r', h')
    /\ rr_backends r' = rr_backends r
    /\ rr_counter r' = wrap_u64 (rr_counter r + Z.of_nat j)
    /\ healthySubset h' (rr_backends r) = subset.
Proof.
  induction j as [| j IH]; intros r h subset Hne Hlo Hhi.
  - exists r, h. simpl. split_and!; [done | done | | done].
    rewrite Z.add_0_r. symmetry. apply wrap_u64_id. lia.
  - cbn [calls]. rewrite RoundRobin_Next_step by (done || lia). fold subset.
    set (b := subset !!! _).
    set (r1 := mkRoundRobin _ _). set (h1 := snd (IncConns b h)).
    assert (Hsub1 : healthySubset h1 (rr_backends r1) = subset)
      by apply healthySubset_IncConns.
    destruct (decide (j = 0%nat)) as [-> | Hj].
    + exists r1, h1. simpl. rewrite Z.add_0_r. by split_and!.
    + assert (Hc1 : rr_counter r1 = rr_counter r + 1).
      { unfold r1. cbn [rr_counter]. apply wrap_u64_id. lia. }
      destruct (IH r1 h1) as (r' & h' & Hcalls & Hbs & Hcnt & Hsub').
      { by rewrite Hsub1. } { lia. } { lia. }
      rewrite Hcalls. exists r', h'. rewrite Hsub1 in *.
      split_and!; [| done | rewrite Hcnt, Hc1; f_equal; lia | done].
      f_equal. f_equal. cbn [seq fmap list_fmap]. rewrite Z.add_0_r. f_equal.
      rewrite <- fmap_S_seq, <- list_fmap_compose.
      apply list_fmap_ext. intros _ i _. rewrite Hc1. unfold compose.
      do 4 f_equal. lia.
Qed.

Lemma rotation_block (subset : list loc) c :
  subset <> [] -> 0 <= c ->
  (fun i => subset !!! Z.to_nat ((c + Z.of_nat i) mod Z.of_nat (length subset)))
    <$> seq 0 (length subset)
  = rotate (Z.to_nat (c mod Z.of_nat (length subset))) subset.
Proof.
  intros Hne Hc.
  assert (Hk : (0 < length subset)%nat) by (destruct subset; [done | simpl; lia]).
  set (k := length subset) in *.
  apply (list_eq_same_length _ _ k).
  - by rewrite length_rotate.
  - by rewrite length_fmap, length_seq.
  - intros i x y Hi Hx Hy.
    rewrite list_lookup_fmap, lookup_seq_lt in Hx by done.
    rewrite lookup_rotate_r in Hy by done.
    unfold rotate_nat_add in Hy. fold k in Hy.
    rewrite Z2Nat.id in Hy by (apply Z.mod_pos_bound; lia).
    rewrite Zplus_mod_idemp_l in Hy.
    cbn in Hx. inversion Hx; subst x; clear Hx.
    apply list_lookup_total_correct. done.
Qed.

Lemma rotate_Permutation {A} n (l : list A) : rotate n l ≡ₚ l.
Proof.
  unfold rotate. rewrite Permutation_app_comm. by rewrite take_drop.
Qed.

Lemma healthySubset_NoDup (h : heap) bs : NoDup bs -> NoDup (healthySubset h bs).
Proof.
  induction 1 as [| a bs Hnotin Hnd IH]; simpl; [constructor |].
  destruct (IsHealthy h a && negb (IsBlocked h a)); [| done].
  constructor; [| done]. intros Hin. apply healthySubset_spec in Hin. tauto.
Qed.

(** A window of [n * k] calls that ends before the counter wraps returns
    every backend [n] times for each place it has in the subset. *)
Lemma RoundRobin_window (n : nat) : forall (r : RoundRobin) (h : heap) b,
  let subset := healthySubset h (rr_backends r) in
  let k := length subset in
  subset <> [] -> 0 <= rr_counter r < 2 ^ 64 ->
  rr_counter r + Z.of_nat (n * k) <= 2 ^ 64 ->
  selected b (results (n * k) r h)
  = (n * length (filter (fun x => x = b) subset))%nat.
Proof.
  induction n as [| n IH]; intros r h b subset k Hne Hc Hhi; [done |].
  assert (Hk : (0 < k)%nat).
  { subst k. destruct subset; [done | simpl; lia]. }
  unfold results. replace (S n * k)%nat with (k + n * k)%nat by lia.
  rewrite calls_add.
  destruct (RoundRobin_calls k r h) as (r1 & h1 & Hcalls & Hbs & Hcnt & Hsub);
    [done | done | fold subset k; lia |].
  fold subset k in Hcalls, Hsub. rewrite Hcalls.
  destruct (calls (n * k) r1 h1) as [[rs2 r2] h2] eqn:Hrest. cbn [fst].
  rewrite selected_app.
  replace (fmap _ (seq 0 k))
    with (Some <$> rotate (Z.to_nat (rr_counter r mod Z.of_nat k)) subset).
  2:{ unfold k. rewrite <- (rotation_block subset (rr_counter r)) by (done || lia).
      by rewrite <- list_fmap_compose. }
  rewrite selected_Some.
  rewrite (Permutation_length
             (filter_Permutation _ _ _ (rotate_Permutation _ subset))).
  simpl. f_equal.
  destruct (decide (n = 0%nat)) as [-> | Hn].
  - simpl in Hrest. by inversion Hrest.
  - assert (Hc1 : rr_counter r1 = rr_counter r + Z.of_nat k).
    { rewrite Hcnt. apply wrap_u64_id. nia. }
    specialize (IH r1 h1 b). cbv zeta in IH. rewrite Hbs, Hsub in IH.
    fold k in IH.
    unfold results in IH. rewrite Hrest in IH. cbn [fst] in IH.
    apply IH; [done | nia | nia].
Qed.

Lemma healthySubset_filter (h : heap) bs :
  healthySubset h bs
  = List.filter (fun b => IsHealthy h b && negb (IsBlocked h b)) bs.
Proof.
  induction bs as [| a bs IH]; [done |]. cbn [healthySubset List.filter].
  by rewrite IH.
Qed.

(** C5.  [RoundRobin.Next] takes the selectable subset, the backends of
    its list that are healthy and not blocked, in the order of the list;
    when it is empty the call fails and nothing changes; otherwise the
    counter is incremented and, [c] being its new value, the call returns
    [subset[(c-1) mod |subset|]].  Hence, over distinct backends, a window
    of [n * k] consecutive calls, from any value of the counter, selects
    each of the [k] selectable backends [n] times, the counter being
    monotonic over the window (it does not wrap past [2^64] inside it). *)
Theorem RoundRobin_rotation (r : RoundRobin) (h : heap) :
  let subset :=
    List.filter (fun b => IsHealthy h b && negb (IsBlocked h b)) (rr_backends r) in
  let k := length subset in
  (forall b, b ∈ subset
             <-> b ∈ rr_backends r /\ IsHealthy h b = true /\ IsBlocked h b = false)
  /\ subset `sublist_of` rr_backends r
  /\ (subset = [] -> Next r h = (ErrNoHealthyBackend, r, h))
  /\ (subset <> [] ->
      let c := wrap_u64 (rr_counter r + 1) in
      let b := subset !!! Z.to_nat (wrap_u64 (c - 1) mod Z.of_nat k) in
      Next r h = (Some b, mkRoundRobin (rr_backends r) c, snd (IncConns b h)))
  /\ (forall n b,
        NoDup (rr_backends r) ->
        0 <= rr_counter r < 2 ^ 64 ->
        rr_counter r + Z.of_nat (n * k) <= 2 ^ 64 ->
        b ∈ subset ->
        selected b (results (n * k) r h) = n).
Proof.
  intros subset k.
  assert (Hsub : healthySubset h (rr_backends r) = subset) by apply healthySubset_filter.
  split_and!.
  - intros b. rewrite <- Hsub. apply healthySubset_spec.
  - unfold subset. generalize (rr_backends r). intros l.
    induction l as [| a l IH]; cbn [List.filter]; [done |].
    destruct (IsHealthy h a && negb (IsBlocked h a)); by constructor.
  - intros Hnil. cbn [Next RoundRobin_Picker]. unfold RoundRobin_Next.
    rewrite Hsub. by rewrite Hnil.
  - intros Hne c b. cbn [Next RoundRobin_Picker]. unfold RoundRobin_Next.
    rewrite Hsub. destruct (Nat.eqb_spec (length subset) 0) as [Hz | _]; [| done].
    by destruct subset.
  - intros n b Hnd Hc Hhi Hin.
    assert (Hne : subset <> []) by (intros Hnil; rewrite Hnil in Hin; by apply elem_of_nil in Hin).
    pose proof (RoundRobin_window n r h b) as Hw. cbv zeta in Hw.
    rewrite Hsub in Hw. fold k in Hw. rewrite (Hw Hne Hc Hhi).
    rewrite NoDup_filter_eq_length; [lia | | done].
    rewrite <- Hsub. by apply healthySubset_NoDup.
Qed.

(** ** Weighted round robin: what the loops compute *)

Import Smooth.

Lemma wrr_collect_eq (h : heap) es : forall i acc t,
  wrr_collect h i es acc t = (acc ++ indices h i es, total_from h t es).
Proof.
  induction es as [| e es IH]; intros i acc t; simpl.
  - by rewrite app_nil_r.
  - unfold active. destruct (IsHealthy h (backend e)); rewrite IH; [| done].
    by rewrite <- app_assoc.
Qed.

Lemma wrr_raise_eq_gen (h : heap) es : forall pre,
  wrr_raise h (indices h (length pre) es) (pre ++ es) = pre ++ (raised h <$> es).
Proof.
  induction es as [| e es IH]; intros pre; [done |].
  cbn [indices fmap list_fmap]. unfold raised at 1.
  replace (S (length pre)) with (length (pre ++ [e])) by (rewrite length_app; simpl; lia).
  destruct (active h e) eqn:Hact.
  - cbn [wrr_raise].
    replace (alter _ (length pre) (pre ++ e :: es))
      with ((pre ++ [add_currentWeight (weight_of h e) e]) ++ es).
    2:{ rewrite <- app_assoc. cbn [app].
        rewrite <- (Nat.add_0_r (length pre)) at 1.
        by rewrite alter_app_r. }
    replace (length (pre ++ [e]))
      with (length (pre ++ [add_currentWeight (weight_of h e) e]))
      by (rewrite !length_app; done).
    rewrite IH. by rewrite <- app_assoc.
  - replace (pre ++ e :: es) with ((pre ++ [e]) ++ es) by (by rewrite <- app_assoc).
    rewrite IH. by rewrite <- app_assoc.
Qed.

Lemma wrr_raise_eq (h : heap) es :
  wrr_raise h (indices h 0 es) es = raised h <$> es.
Proof. apply (wrr_raise_eq_gen h es []). Qed.

(** [Next], with its first two loops replaced by what they compute. *)
Lemma WeightedRoundRobin_Next_eq (w : WeightedRoundRobin) (h : heap) :
  Next w h =
  match indices h 0 (entries w) with
  | [] => (ErrNoHealthyBackend, w, h)
  | first :: others =>
      let es1 := raised h <$> entries w in
      let best := wrr_best es1 others first in
      let es2 := alter (add_currentWeight (- total_from h 0 (entries w))) best es1 in
      let b := backend (es2 !!! best) in
      (Some b, mkWeightedRoundRobin es2, snd (IncConns b h))
  end.
Proof.
  cbn [Next WeightedRoundRobin_Picker]. unfold WeightedRoundRobin_Next.
  rewrite wrr_collect_eq. cbn [app].
  destruct (indices h 0 (entries w)) as [| first others] eqn:Hidx; [done |].
  by rewrite <- Hidx, wrr_raise_eq.
Qed.

Lemma indices_elem (h : heap) es : forall i0 j,
  j ∈ indices h i0 es
  <-> (i0 <= j)%nat /\ exists e, es !! (j - i0)%nat = Some e /\ active h e = true.
Proof.
  induction es as [| e es IH]; intros i0 j; cbn [indices].
  - split; [intros Hj; by apply elem_of_nil in Hj | intros (_ & e & He & _); done].
  - assert (Htail : j ∈ indices h (S i0) es
              <-> (i0 < j)%nat /\ exists e', (e :: es) !! (j - i0)%nat = Some e'
                                            /\ active h e' = true).
    { rewrite IH. split.
      - intros (Hle & e' & He' & Ha). split; [lia |]. exists e'. split; [| done].
        replace (j - i0)%nat with (S (j - S i0)) by lia. done.
      - intros (Hlt & e' & He' & Ha). split; [lia |]. exists e'. split; [| done].
        replace (j - i0)%nat with (S (j - S i0)) in He' by lia. done. }
    destruct (active h e) eqn:Hact.
    + rewrite elem_of_cons, Htail. split.
      * intros [-> | (Hlt & Hex)]; [| split; [lia | done]].
        split; [lia |]. exists e. by rewrite Nat.sub_diag.
      * intros (Hle & e' & He' & Ha).
        destruct (decide (j = i0)) as [-> | Hne]; [by left |].
        right. split; [lia |]. by exists e'.
    + rewrite Htail. split.
      * intros (Hlt & Hex). split; [lia | done].
      * intros (Hle & e' & He' & Ha).
        destruct (decide (j = i0)) as [-> | Hne].
        { rewrite Nat.sub_diag in He'. cbn in He'. congruence. }
        split; [lia |]. by exists e'.
Qed.

Lemma indices_split (h : heap) es : forall i0 pre r post,
  indices h i0 es = pre ++ r :: post ->
  (forall j, j ∈ pre -> (j < r)%nat) /\ (forall j, j ∈ post -> (r < j)%nat).
Proof.
  induction es as [| e es IH]; intros i0 pre r post Heq; cbn [indices] in Heq.
  - by destruct pre.
  - destruct (active h e).
    + destruct pre as [| p pre']; cbn [app] in Heq;
        injection Heq as Hhead Htail; subst.
      * split; [intros j Hj; by apply elem_of_nil in Hj |].
        intros j Hj. apply indices_elem in Hj. lia.
      * destruct (IH _ _ _ _ Htail) as [Hpre Hpost]. split; [| done].
        intros j Hj. apply elem_of_cons in Hj as [Hj | Hj]; [| by apply Hpre].
        assert (Hr : r ∈ indices h (S p) es).
        { rewrite Htail. apply elem_of_app. right. apply elem_of_cons. by left. }
        apply indices_elem in Hr. lia.
    + by apply (IH (S i0)).
Qed.

(** The second loop returns the first of the entries of greatest current
    weight. *)
Lemma wrr_best_spec es rest : forall seen_lt best seen_le,
  (forall j, j ∈ seen_lt -> cw_at es j < cw_at es best) ->
  (forall j, j ∈ seen_le -> cw_at es j <= cw_at es best) ->
  exists pre post,
    seen_lt ++ best :: seen_le ++ rest = pre ++ wrr_best es rest best :: post
    /\ (forall j, j ∈ pre -> cw_at es j < cw_at es (wrr_best es rest best))
    /\ (forall j, j ∈ post -> cw_at es j <= cw_at es (wrr_best es rest best)).
Proof.
  induction rest as [| i rest IH]; intros seen_lt best seen_le Hlt Hle; cbn [wrr_best].
  - exists seen_lt, seen_le. by rewrite app_nil_r.
  - destruct (Z.gtb_spec (cw_at es i) (cw_at es best)) as [Hgt | Hngt].
    + destruct (IH (seen_lt ++ best :: seen_le) i []) as (pre & post & Heq & Hpre & Hpost).
      * intros j [Hj | [-> | Hj]%elem_of_cons]%elem_of_app.
        -- specialize (Hlt j Hj). lia.
        -- lia.
        -- specialize (Hle j Hj). lia.
      * intros j Hj. by apply elem_of_nil in Hj.
      * exists pre, post. split; [| done]. rewrite <- Heq.
        by rewrite <- !app_assoc.
    + destruct (IH seen_lt best (seen_le ++ [i])) as (pre & post & Heq & Hpre & Hpost).
      * done.
      * intros j [Hj | ->%list_elem_of_singleton]%elem_of_app; [by apply Hle | lia].
      * exists pre, post. split; [| done]. rewrite <- Heq.
        by rewrite <- !app_assoc.
Qed.

Lemma backend_raised (h : heap) e : backend (raised h e) = backend e.
Proof. unfold raised. by destruct (active h e). Qed.

Lemma indices_nil (h : heap) es :
  indices h 0 es = [] <-> forall e, e ∈ es -> active h e = false.
Proof.
  split.
  - intros Hnil e He. apply list_elem_of_lookup in He as [j Hj].
    destruct (active h e) eqn:Hact; [| done].
    assert (Hin : j ∈ indices h 0 es).
    { apply indices_elem. split; [lia |]. exists e. by rewrite Nat.sub_0_r. }
    rewrite Hnil in Hin. by apply elem_of_nil in Hin.
  - intros Hall. destruct (indices h 0 es) as [| j rest] eqn:Hidx; [done |].
    assert (Hin : j ∈ indices h 0 es) by (rewrite Hidx; apply elem_of_cons; by left).
    apply indices_elem in Hin as (_ & e & He & Hact).
    rewrite (Hall e) in Hact; [done |]. apply list_elem_of_lookup. by eexists.
Qed.

(** One call of [Next], entry by entry: with no healthy entry it fails and
    changes nothing; otherwise every healthy entry is raised by its weight,
    the winner [r] is the first healthy entry of greatest raised weight,
    the total is subtracted from it, and its backend is returned with one
    more active connection. *)
Lemma WeightedRoundRobin_Next_spec (w : WeightedRoundRobin) (h : heap) :
  let es := entries w in
  let es1 := raised h <$> es in
  ((forall e, e ∈ es -> active h e = false) ->
     Next w h = (ErrNoHealthyBackend, w, h))
  /\ ((exists e, e ∈ es /\ active h e = true) ->
      exists r e,
        es !! r = Some e /\ active h e = true
        /\ (forall j e', es !! j = Some e' -> active h e' = true ->
              cw_at es1 j <= cw_at es1 r /\ ((j < r)%nat -> cw_at es1 j < cw_at es1 r))
        /\ Next w h
           = (Some (backend e),
              mkWeightedRoundRobin
                (alter (add_currentWeight (- total_from h 0 es)) r es1),
              snd (IncConns (backend e) h))).
Proof.
  intros es es1. rewrite WeightedRoundRobin_Next_eq. fold es. split.
  - intros Hnone. by rewrite (proj2 (indices_nil h es) Hnone).
  - intros (e0 & He0 & Hact0).
    destruct (indices h 0 es) as [| first others] eqn:Hidx.
    { pose proof (proj1 (indices_nil h es) Hidx) as Hall.
      rewrite (Hall e0 He0) in Hact0. done. }
    cbv zeta. fold es1. set (r := wrr_best es1 others first).
    destruct (wrr_best_spec es1 others [] first []) as (pre & post & Heq & Hpre & Hpost);
      [intros j Hj; by apply elem_of_nil in Hj .. |].
    cbn [app] in Heq. fold r in Heq, Hpre, Hpost. rewrite <- Hidx in Heq.
    destruct (indices_split h es 0 pre r post Heq) as [Hbefore Hafter].
    assert (Hr : r ∈ indices h 0 es).
    { rewrite Heq. apply elem_of_app. right. apply elem_of_cons. by left. }
    apply indices_elem in Hr as (_ & e & He & Hact). rewrite Nat.sub_0_r in He.
    exists r, e. split_and!; [done | done | |].
    + intros j e' Hj Hact'.
      assert (Hin : j ∈ indices h 0 es).
      { apply indices_elem. split; [lia |]. exists e'. by rewrite Nat.sub_0_r. }
      rewrite Heq in Hin.
      apply elem_of_app in Hin as [Hin | Hin].
      { specialize (Hpre j Hin). split; [lia | done]. }
      apply elem_of_cons in Hin as [-> | Hin]; [split; lia |].
      specialize (Hpost j Hin). specialize (Hafter j Hin). split; [done | lia].
    + assert (Hlen : (r < length es1)%nat).
      { unfold es1. rewrite length_fmap. by apply lookup_lt_Some in He. }
      rewrite list_lookup_total_alter_eq by done.
      assert (Hes1 : es1 !!! r = raised h e).
      { apply list_lookup_total_correct. unfold es1.
        by rewrite list_lookup_fmap, He. }
      rewrite Hes1. cbn [backend add_currentWeight]. by rewrite backend_raised.
Qed.

(** ** Weighted round robin: sums of current weights *)

Lemma sumZ_app l1 l2 : sumZ (l1 ++ l2) = sumZ l1 + sumZ l2.
Proof. induction l1 as [| a l1 IH]; simpl; [done | rewrite IH; lia]. Qed.

Lemma sumZ_fmap_alter {A} (g : A -> Z) (f : A -> A) (l : list A) r x :
  l !! r = Some x ->
  sumZ (g <$> alter f r l) = sumZ (g <$> l) - g x + g (f x).
Proof.
  revert r. induction l as [| a l IH]; intros r Hr; [done |].
  destruct r as [| r]; cbn [alter list_alter fmap list_fmap sumZ].
  - inversion Hr; subst. lia.
  - change (list_fmap A Z g (list_alter f r l)) with (g <$> alter f r l).
    rewrite (IH r Hr). change (list_fmap A Z g l) with (g <$> l). lia.
Qed.

Lemma divide_eq m a b : (m | a) -> a = b -> (m | b).
Proof. by intros Ha <-. Qed.

Lemma wrap_int_divide z : (2 ^ 64 | wrap_int z - z).
Proof.
  unfold wrap_int, wrap_i64. exists (- ((z + 2 ^ 63) / 2 ^ 64)).
  rewrite Z.mod_eq by lia. lia.
Qed.

Lemma wrap_int_zero z : (2 ^ 64 | z) -> wrap_int z = 0.
Proof.
  intros [q ->]. unfold wrap_int, wrap_i64.
  rewrite Z.add_comm, Z_mod_plus_full. reflexivity.
Qed.

Lemma total_from_divide (h : heap) es : forall t,
  (2 ^ 64 | total_from h t es - t - totalWeight h es).
Proof.
  unfold totalWeight.
  induction es as [| e es IH]; intros t; cbn [total_from fmap list_fmap sumZ].
  - exists 0. lia.
  - destruct (active h e).
    + specialize (IH (wrap_int (t + weight_of h e))).
      pose proof (wrap_int_divide (t + weight_of h e)) as Hw.
      pose proof (Z.divide_add_r _ _ _ IH Hw) as Hsum.
      eapply divide_eq; [exact Hsum | lia].
    + specialize (IH t). eapply divide_eq; [exact IH | lia].
Qed.

Lemma weightSum_raised_divide (h : heap) es :
  (2 ^ 64 | weightSum (raised h <$> es) - weightSum es - totalWeight h es).
Proof.
  unfold weightSum, totalWeight.
  induction es as [| e es IH]; cbn [fmap list_fmap sumZ].
  - exists 0. lia.
  - unfold raised at 1. destruct (active h e).
    + cbn [currentWeight add_currentWeight].
      pose proof (wrap_int_divide (currentWeight e + weight_of h e)) as Hw.
      pose proof (Z.divide_add_r _ _ _ IH Hw) as Hsum.
      eapply divide_eq; [exact Hsum | lia].
    + eapply divide_eq; [exact IH | lia].
Qed.

(** Every call of [Next], whatever the health flags and the weights,
    leaves the sum of the current weights where it was modulo [2^64]. *)
Lemma Next_weightSum_divide (w : WeightedRoundRobin) (h : heap) :
  (2 ^ 64 | weightSum (entries w)) ->
  (2 ^ 64 | weightSum (entries (snd (fst (Next w h))))).
Proof.
  intros Hsum.
  destruct (indices h 0 (entries w)) as [| first others] eqn:Hidx.
  - destruct (WeightedRoundRobin_Next_spec w h) as [Hnone _].
    rewrite Hnone; [done |]. by apply indices_nil.
  - destruct (WeightedRoundRobin_Next_spec w h) as [_ Hsome].
    destruct Hsome as (r & e & He & Hact & _ & Heq).
    { assert (Hin : first ∈ indices h 0 (entries w))
        by (rewrite Hidx; apply elem_of_cons; by left).
      apply indices_elem in Hin as (_ & e & He & Hact).
      exists e. split; [| done]. apply list_elem_of_lookup. by eexists. }
    rewrite Heq. cbn [fst snd entries]. unfold weightSum.
    rewrite (sumZ_fmap_alter currentWeight _ _ r (raised h e))
      by (by rewrite list_lookup_fmap, He).
    cbn [currentWeight add_currentWeight].
    pose proof (wrap_int_divide (currentWeight (raised h e)
                                 + - total_from h 0 (entries w))) as H1.
    pose proof (total_from_divide h (entries w) 0) as H2.
    pose proof (weightSum_raised_divide h (entries w)) as H3.
    unfold weightSum in H3, Hsum.
    pose proof (Z.divide_add_r _ _ _ Hsum
                  (Z.divide_add_r _ _ _ H3 (Z.divide_sub_r _ _ _ H1 H2))) as Hall.
    eapply divide_eq; [exact Hall | lia].
Qed.

(** ** Weighted round robin: exact arithmetic under the invariant *)

Section Exact.
Variable h : heap.

Lemma totalWeight_app es1 es2 :
  totalWeight h (es1 ++ es2) = totalWeight h es1 + totalWeight h es2.
Proof. unfold totalWeight. by rewrite fmap_app, sumZ_app. Qed.

Lemma activeSum_app es1 es2 :
  activeSum h (es1 ++ es2) = activeSum h es1 + activeSum h es2.
Proof. unfold activeSum. by rewrite fmap_app, sumZ_app. Qed.

Lemma totalWeight_nonneg es :
  Forall (fun e => active h e = true -> 1 <= weight_of h e) es ->
  0 <= totalWeight h es.
Proof.
  unfold totalWeight. induction 1 as [| e es He _ IH]; cbn [fmap list_fmap sumZ]; [lia |].
  change (list_fmap _ _ ?f es) with (f <$> es).
  destruct (active h e); [specialize (He eq_refl) |]; lia.
Qed.

Lemma weight_le_total es e :
  Forall (fun e => active h e = true -> 1 <= weight_of h e) es ->
  e ∈ es -> active h e = true ->
  1 <= weight_of h e <= totalWeight h es.
Proof.
  intros Hall Hin Hact. apply list_elem_of_split in Hin as (l1 & l2 & ->).
  apply Forall_app in Hall as [H1 H2]. apply Forall_cons in H2 as [He H2].
  rewrite totalWeight_app.
  pose proof (totalWeight_nonneg l1 H1). pose proof (totalWeight_nonneg l2 H2).
  change (e :: l2) with ([e] ++ l2). rewrite totalWeight_app.
  unfold totalWeight at 2. cbn [fmap list_fmap sumZ]. rewrite Hact.
  specialize (He Hact). lia.
Qed.

Lemma activeSum_lower es T :
  0 <= T ->
  Forall (fun e => active h e = true -> - T < currentWeight e) es ->
  - (Z.of_nat (length es) * T) <= activeSum h es.
Proof.
  intros HT. unfold activeSum.
  induction 1 as [| e es He _ IH]; cbn [fmap list_fmap sumZ length]; [lia |].
  change (list_fmap _ _ ?f es) with (f <$> es).
  destruct (active h e); [specialize (He eq_refl) |]; nia.
Qed.

Lemma activeSum_nonpos es :
  Forall (fun e => active h e = true -> currentWeight e <= 0) es ->
  activeSum h es <= 0.
Proof.
  unfold activeSum.
  induction 1 as [| e es He _ IH]; cbn [fmap list_fmap sumZ]; [lia |].
  change (list_fmap _ _ ?f es) with (f <$> es).
  destruct (active h e); [specialize (He eq_refl) |]; lia.
Qed.

Lemma balanced_bounds es e :
  balanced h es ->
  Forall (fun e => active h e = true -> 1 <= weight_of h e) es ->
  e ∈ es -> active h e = true ->
  - totalWeight h es < currentWeight e
  /\ currentWeight e <= (Z.of_nat (length es) - 1) * totalWeight h es.
Proof.
  intros [Hsum Hlow] Hw Hin Hact.
  pose proof (totalWeight_nonneg es Hw) as HT.
  split; [rewrite Forall_forall in Hlow; by apply Hlow |].
  apply list_elem_of_split in Hin as (l1 & l2 & Heq).
  set (T := totalWeight h es) in *. clearbody T. subst es.
  apply Forall_app in Hlow as [H1 H2]. apply Forall_cons in H2 as [_ H2].
  pose proof (activeSum_lower l1 T HT H1). pose proof (activeSum_lower l2 T HT H2).
  rewrite activeSum_app in Hsum. change (e :: l2) with ([e] ++ l2) in Hsum.
  rewrite activeSum_app in Hsum. unfold activeSum at 2 in Hsum.
  cbn [fmap list_fmap sumZ] in Hsum. rewrite Hact in Hsum.
  rewrite length_app. cbn [length]. nia.
Qed.

Lemma total_from_exact es : forall t,
  Forall (fun e => active h e = true -> 1 <= weight_of h e) es ->
  0 <= t -> t + totalWeight h es <= max_i64 ->
  total_from h t es = t + totalWeight h es.
Proof.
  unfold totalWeight.
  induction es as [| e es IH]; intros t Hw Ht Hmax; cbn [total_from fmap list_fmap sumZ] in *.
  - lia.
  - change (list_fmap _ _ ?f es) with (f <$> es) in *.
    apply Forall_cons in Hw as [He Hw].
    pose proof (totalWeight_nonneg es Hw) as HT. unfold totalWeight in HT.
    destruct (active h e).
    + specialize (He eq_refl).
      unfold wrap_int. rewrite (wrap_i64_id (t + weight_of h e))
        by (unfold in_i64, min_i64, max_i64 in *; lia).
      rewrite IH; [lia | done | lia | lia].
    + rewrite IH; [lia | done | lia | lia].
Qed.

End Exact.

(** ** Weighted round robin: heaps that [Next] cannot tell apart *)

Lemma same_view_refl (h : heap) : same_view h h.
Proof. by intros b. Qed.

Lemma same_view_IncConns (h h' : heap) b :
  same_view h h' -> same_view h (snd (IncConns b h')).
Proof.
  intros Hv b'. destruct (Hv b') as [Hh Hw].
  by rewrite IncConns_healthy, IncConns_Weight.
Qed.

Section SameView.
Variables h h' : heap.
Hypothesis Hview : same_view h h'.

Lemma same_view_active e : active h' e = active h e.
Proof. unfold active. by destruct (Hview (backend e)) as [-> _]. Qed.

Lemma same_view_weight e : weight_of h' e = weight_of h e.
Proof. unfold weight_of. by destruct (Hview (backend e)) as [_ ->]. Qed.

Lemma same_view_indices es i : indices h' i es = indices h i es.
Proof.
  revert i. induction es as [| e es IH]; intros i; cbn [indices]; [done |].
  by rewrite same_view_active, !IH.
Qed.

Lemma same_view_total_from es t : total_from h' t es = total_from h t es.
Proof.
  revert t. induction es as [| e es IH]; intros t; cbn [total_from]; [done |].
  by rewrite same_view_active, same_view_weight, IH.
Qed.

Lemma same_view_raised e : raised h' e = raised h e.
Proof. unfold raised. by rewrite same_view_active, same_view_weight. Qed.

(** On such heaps [Next] returns the same backend and leaves the same
    picker, and the heaps it leaves are again such heaps. *)
Lemma Next_same_view (w : WeightedRoundRobin) :
  fst (Next w h') = fst (Next w h) /\ same_view h (snd (Next w h')).
Proof.
  rewrite !WeightedRoundRobin_Next_eq.
  rewrite same_view_indices, same_view_total_from.
  replace (raised h' <$> entries w) with (raised h <$> entries w)
    by (apply list_fmap_ext; intros; by rewrite same_view_raised).
  destruct (indices h 0 (entries w)); cbn [fst snd]; [done |].
  split; [done | by apply same_view_IncConns].
Qed.
End SameView.

(** ** Weighted round robin: one call under the invariant *)

Section ExactStep.
Variable h : heap.

Lemma active_raisedZ e : active h (raisedZ h e) = active h e.
Proof. unfold raisedZ, active. by destruct (IsHealthy h (backend e)) eqn:He. Qed.

Lemma weight_raisedZ e : weight_of h (raisedZ h e) = weight_of h e.
Proof. unfold raisedZ, weight_of. by destruct (active h e). Qed.

Lemma backend_raisedZ e : backend (raisedZ h e) = backend e.
Proof. unfold raisedZ. by destruct (active h e). Qed.

Lemma totalWeight_backends es :
  totalWeight h es
  = sumZ ((fun b => if IsHealthy h b then Weight (deref h b) else 0) <$> (backend <$> es)).
Proof. unfold totalWeight. by rewrite <- list_fmap_compose. Qed.

Lemma fits_backends es es' :
  backend <$> es' = backend <$> es -> fits h es -> fits h es'.
Proof.
  intros Hb [Hw Hmax]. split.
  - apply Forall_lookup. intros j e' Hj Hact.
    assert (Hbj : (backend <$> es) !! j = Some (backend e'))
      by (by rewrite <- Hb, list_lookup_fmap, Hj).
    rewrite list_lookup_fmap in Hbj.
    destruct (es !! j) as [e |] eqn:He; [| done]. cbn in Hbj.
    injection Hbj as Hbe. rewrite Forall_lookup in Hw.
    unfold active, weight_of in *. rewrite <- Hbe in *. by apply (Hw j e).
  - rewrite (totalWeight_backends es'), Hb, <- totalWeight_backends.
    replace (length es') with (length es); [done |].
    by rewrite <- (length_fmap backend es), <- Hb, length_fmap.
Qed.

Lemma activeSum_raisedZ es :
  activeSum h (raisedZ h <$> es) = activeSum h es + totalWeight h es.
Proof.
  unfold activeSum, totalWeight.
  induction es as [| e es IH]; cbn [fmap list_fmap sumZ]; [done |].
  change (list_fmap _ _ ?f ?l) with (f <$> l) in *.
  rewrite IH, active_raisedZ. unfold raisedZ.
  destruct (active h e); cbn [currentWeight]; lia.
Qed.

Lemma raised_exact es e :
  balanced h es -> fits h es -> e ∈ es -> raised h e = raisedZ h e.
Proof.
  intros Hbal [Hw Hmax] Hin. unfold raised, raisedZ.
  destruct (active h e) eqn:Hact; [| done].
  unfold add_currentWeight, wrap_int. f_equal. apply wrap_i64_id.
  destruct (balanced_bounds h es e Hbal Hw Hin Hact) as [Hlo Hhi].
  destruct (weight_le_total h es e Hw Hin Hact) as [Hw1 HwT].
  assert (Hlen : (0 < length es)%nat) by (destruct es; [by apply elem_of_nil in Hin | simpl; lia]).
  unfold in_i64, min_i64, max_i64 in *. nia.
Qed.

Lemma alter_at {A} (f g : A -> A) (l : list A) r x :
  l !! r = Some x -> f x = g x -> alter f r l = alter g r l.
Proof.
  revert r. induction l as [| a l IH]; intros r Hr Hfg; [done |].
  destruct r as [| r]; cbn in *.
  - inversion Hr; subst. by rewrite Hfg.
  - f_equal. by apply IH.
Qed.

End ExactStep.

Lemma exact_step (h : heap) es r e :
  balanced h es -> fits h es ->
  es !! r = Some e -> active h e = true ->
  (forall j e', es !! j = Some e' -> active h e' = true ->
     cw_at (raised h <$> es) j <= cw_at (raised h <$> es) r) ->
  let T := totalWeight h es in
  let es2 := alter (add_currentWeight (- total_from h 0 es)) r (raised h <$> es) in
  es2 = alter (fun x => mkEntry (backend x) (currentWeight x - T)) r (raisedZ h <$> es)
  /\ backend <$> es2 = backend <$> es
  /\ totalWeight h es2 = T
  /\ balanced h es2 /\ fits h es2.
Proof.
  intros Hbal Hfit Hr Hact Hmax T es2.
  assert (Hin : e ∈ es) by (apply list_elem_of_lookup; by eexists).
  assert (Hlen : (0 < length es)%nat) by (by apply lookup_lt_Some in Hr; lia).
  pose proof Hfit as [Hw HnT].
  pose proof (totalWeight_nonneg h es Hw) as HT0. fold T in HT0, HnT.
  destruct (weight_le_total h es e Hw Hin Hact) as [Hw1 HwT]. fold T in HwT.
  assert (Hraised : raised h <$> es = raisedZ h <$> es).
  { apply list_fmap_ext. intros j x Hj. apply (raised_exact h es); [done | done |].
    apply list_elem_of_lookup. by eexists. }
  assert (Htotal : total_from h 0 es = T).
  { rewrite total_from_exact; [subst T; lia | done | lia |].
    unfold max_i64 in *. fold T. nia. }
  set (es1 := raisedZ h <$> es).
  assert (Hsum1 : activeSum h es1 = T).
  { unfold es1. rewrite activeSum_raisedZ. destruct Hbal as [-> _]. subst T. lia. }
  assert (Hr1 : es1 !! r = Some (raisedZ h e)) by (unfold es1; by rewrite list_lookup_fmap, Hr).
  set (c1 := currentWeight (raisedZ h e)).
  assert (Hcw : forall j x, es1 !! j = Some x -> cw_at es1 j = currentWeight x).
  { intros j x Hj. unfold cw_at. by rewrite (list_lookup_total_correct _ _ _ Hj). }
  assert (Hc1pos : 1 <= c1).
  { destruct (Z_le_gt_dec 1 c1) as [| Hneg]; [done |]. exfalso.
    assert (Hnonpos : activeSum h es1 <= 0); [| lia].
    apply activeSum_nonpos. apply Forall_lookup. intros j x Hj Hactx.
    unfold es1 in Hj. rewrite list_lookup_fmap in Hj.
    destruct (es !! j) as [e' |] eqn:He'; [| done]. cbn in Hj. injection Hj as <-.
    rewrite active_raisedZ in Hactx. specialize (Hmax j e' He' Hactx).
    rewrite Hraised in Hmax. fold es1 in Hmax.
    rewrite (Hcw r _ Hr1) in Hmax.
    rewrite (Hcw j (raisedZ h e')) in Hmax
      by (unfold es1; by rewrite list_lookup_fmap, He').
    fold c1 in Hmax. lia. }
  assert (Hc1 : c1 = currentWeight e + weight_of h e).
  { unfold c1, raisedZ. by rewrite Hact. }
  destruct (balanced_bounds h es e Hbal Hw Hin Hact) as [Hlo Hhi]. fold T in Hlo, Hhi.
  assert (Hes2 : es2 = alter (fun x => mkEntry (backend x) (currentWeight x - T)) r es1).
  { unfold es2. rewrite Hraised, Htotal. fold es1.
    apply (alter_at _ _ _ _ _ Hr1). unfold add_currentWeight, wrap_int. f_equal.
    fold c1. rewrite wrap_i64_id; [lia |].
    unfold in_i64, min_i64, max_i64 in *. nia. }
  assert (Hback : backend <$> es2 = backend <$> es).
  { rewrite Hes2.
    rewrite (list_fmap_alter _ _ id) by (apply Forall_forall; intros x _; reflexivity).
    rewrite list_alter_id by (intros x; reflexivity). unfold es1.
    rewrite <- list_fmap_compose. apply list_fmap_ext. intros j x _.
    apply backend_raisedZ. }
  assert (Hfit2 : fits h es2) by (by apply (fits_backends h es)).
  assert (HT2 : totalWeight h es2 = T).
  { by rewrite (totalWeight_backends h es2), Hback, <- totalWeight_backends. }
  split; [done |]. split; [done |]. split; [done |]. split; [| done]. split.
  - rewrite Hes2. unfold activeSum.
    rewrite (sumZ_fmap_alter _ _ _ r (raisedZ h e) Hr1).
    fold (activeSum h es1). rewrite Hsum1.
    unfold active at 2. cbn [backend currentWeight]. fold (active h (raisedZ h e)).
    rewrite active_raisedZ, Hact. fold c1. lia.
  - rewrite HT2. apply Forall_lookup. intros j x Hj Hactx.
    rewrite Hes2 in Hj. destruct (decide (j = r)) as [-> | Hne].
    + rewrite list_lookup_alter_eq, Hr1 in Hj. cbn in Hj. injection Hj as <-.
      cbn [currentWeight]. fold c1. lia.
    + rewrite list_lookup_alter_ne in Hj by done.
      unfold es1 in Hj. rewrite list_lookup_fmap in Hj.
      destruct (es !! j) as [e' |] eqn:He'; [| done]. cbn in Hj. injection Hj as <-.
      rewrite active_raisedZ in Hactx.
      assert (Hin' : e' ∈ es) by (apply list_elem_of_lookup; by eexists).
      destruct (balanced_bounds h es e' Hbal Hw Hin' Hactx) as [Hlo' _].
      destruct (weight_le_total h es e' Hw Hin' Hactx) as [Hw1' _].
      fold T in Hlo'. unfold raisedZ. rewrite Hactx. cbn [currentWeight]. lia.
Qed.

(** ** Weighted round robin: runs *)

Import SmoothRun.

Lemma same_view_sym (h h' : heap) : same_view h h' -> same_view h' h.
Proof. intros Hv b. destruct (Hv b) as [-> ->]. done. Qed.

Lemma same_view_trans (h1 h2 h3 : heap) :
  same_view h1 h2 -> same_view h2 h3 -> same_view h1 h3.
Proof.
  intros H12 H23 b. destruct (H12 b) as [-> ->]. apply H23.
Qed.

Lemma calls_same_view (n : nat) : forall (w : WeightedRoundRobin) (h h' : heap),
  same_view h h' ->
  fst (calls n w h') = fst (calls n w h)
  /\ same_view h (snd (calls n w h')).
Proof.
  induction n as [| n IH]; intros w h h' Hv; [done |]. cbn [calls].
  destruct (Next_same_view h h' Hv w) as [Heq Hv1].
  destruct (Next_same_view h h (same_view_refl h) w) as [_ Hv2].
  destruct (Next w h') as [[r' w1'] h1']. destruct (Next w h) as [[r w1] h1].
  cbn [fst snd] in *. injection Heq as -> ->.
  assert (Hv3 : same_view h1 h1')
    by (eapply same_view_trans; [apply same_view_sym; exact Hv2 | exact Hv1]).
  destruct (IH w1 h1 h1' Hv3) as [Heq' Hv'].
  destruct (calls n w1 h1') as [[rs' w2'] h2']. destruct (calls n w1 h1) as [[rs w2] h2].
  cbn [fst snd] in *. injection Heq' as -> ->. split; [done |].
  eapply same_view_trans; [exact Hv2 | exact Hv'].
Qed.

Lemma selected_singleton b b' :
  selected b [Some b'] = if decide (b' = b) then 1%nat else 0%nat.
Proof.
  unfold selected. rewrite filter_cons, filter_nil.
  destruct (decide (b' = b)) as [-> | Hne].
  - by rewrite decide_True.
  - by rewrite decide_False by congruence.
Qed.

Lemma NoDup_backends es j r (e' e : wrrEntry) :
  NoDup (backend <$> es) -> es !! j = Some e' -> es !! r = Some e ->
  j <> r -> backend e <> backend e'.
Proof.
  intros Hnd Hj Hr Hne Heq. apply Hne.
  apply (NoDup_lookup _ j r (backend e') Hnd);
    rewrite list_lookup_fmap; [by rewrite Hj | rewrite Hr; cbn; by rewrite Heq].
Qed.

(** The invariant of a run: [n] more calls from a balanced state keep it
    balanced and keep the accounts of [counted]. *)
Lemma wrr_run (h : heap) (n : nat) :
  forall (w : WeightedRoundRobin) (h0 : heap) (rs0 : list (option loc)),
  fits h (entries w) -> balanced h (entries w) ->
  same_view h h0 ->
  (exists e, e ∈ entries w /\ active h e = true) ->
  exists rs wn hn,
    calls n w h0 = (rs, wn, hn) /\ length rs = n /\ same_view h hn
    /\ backend <$> entries wn = backend <$> entries w
    /\ balanced h (entries wn) /\ fits h (entries wn)
    /\ (NoDup (backend <$> entries w) -> counted h rs0 (entries w) ->
        counted h (rs0 ++ rs) (entries wn)).
Proof.
  induction n as [| n IH]; intros w h0 rs0 Hfit Hbal Hv Hex.
  { exists [], w, h0. rewrite app_nil_r. by split_and!. }
  cbn [calls].
  destruct (Next_same_view h h0 Hv w) as [Heq Hv1].
  destruct (WeightedRoundRobin_Next_spec w h) as [_ Hsome].
  destruct (Hsome Hex) as (r & e & Hr & Hact & Hmax & HNext). clear Hsome.
  rewrite HNext in Heq.
  destruct (Next w h0) as [[r0 w1] h1]. cbn [fst snd] in Heq, Hv1.
  injection Heq as -> ->.
  set (es := entries w) in *. set (T := totalWeight h es).
  destruct (exact_step h es r e Hbal Hfit Hr Hact
              (fun j e' Hj Ha => proj1 (Hmax j e' Hj Ha)))
    as (Hes2 & Hback & HT2 & Hbal2 & Hfit2).
  fold T in Hes2, HT2.
  set (es2 := alter (add_currentWeight (- total_from h 0 es)) r (raised h <$> es)) in *.
  assert (Hr2 : es2 !! r = Some (mkEntry (backend (raisedZ h e))
                                         (currentWeight (raisedZ h e) - T))).
  { rewrite Hes2, list_lookup_alter_eq, list_lookup_fmap, Hr. done. }
  assert (Hcnt2 : NoDup (backend <$> es) -> counted h rs0 es ->
                  counted h (rs0 ++ [Some (backend e)]) es2).
  { intros Hnd Hcnt. unfold counted. rewrite HT2. apply Forall_lookup. intros j x Hj.
    rewrite length_app, Nat2Z.inj_add, selected_app, Nat2Z.inj_add.
    cbn [length]. rewrite selected_singleton.
    unfold counted in Hcnt. rewrite Forall_lookup in Hcnt. fold T in Hcnt.
    destruct (decide (j = r)) as [-> | Hne].
    - rewrite Hr2 in Hj. injection Hj as <-.
      unfold active, weight_of. cbn [backend currentWeight].
      rewrite backend_raisedZ. fold (active h e) (weight_of h e).
      rewrite Hact, decide_True by done.
      specialize (Hcnt r e Hr). rewrite Hact in Hcnt.
      unfold raisedZ. rewrite Hact. cbn [currentWeight]. lia.
    - rewrite Hes2, list_lookup_alter_ne, list_lookup_fmap in Hj by done.
      destruct (es !! j) as [e' |] eqn:He'; [| done]. cbn in Hj. injection Hj as <-.
      rewrite active_raisedZ, weight_raisedZ, backend_raisedZ.
      specialize (Hcnt j e' He').
      rewrite decide_False by (by apply (NoDup_backends es j r)).
      unfold raisedZ. destruct (active h e'); cbn [currentWeight]; lia. }
  destruct (IH (mkWeightedRoundRobin es2) h1 (rs0 ++ [Some (backend e)]))
    as (rs & wn & hn & Hcalls & Hlen & Hvn & Hbn & Hbaln & Hfitn & Hcntn).
  - done.
  - done.
  - done.
  - exists (mkEntry (backend (raisedZ h e)) (currentWeight (raisedZ h e) - T)).
    split; [apply list_elem_of_lookup; by exists r |].
    unfold active. cbn [backend]. rewrite backend_raisedZ. exact Hact.
  - rewrite Hcalls. exists (Some (backend e) :: rs), wn, hn.
    cbn [entries] in Hbn, Hcntn. rewrite Hback in Hbn, Hcntn.
    split_and!; try done; [cbn [length]; lia |].
    intros Hnd Hcnt. rewrite <- app_assoc in Hcntn. by apply Hcntn, Hcnt2.
Qed.

Lemma activeSum_nonneg (h : heap) es :
  Forall (fun e => active h e = true -> 0 <= currentWeight e) es ->
  0 <= activeSum h es.
Proof.
  unfold activeSum.
  induction 1 as [| e es He _ IH]; cbn [fmap list_fmap sumZ]; [lia |].
  change (list_fmap _ _ ?f es) with (f <$> es).
  destruct (active h e); [specialize (He eq_refl) |]; lia.
Qed.

Lemma activeSum_zero (h : heap) es :
  Forall (fun e => active h e = true -> 0 <= currentWeight e) es ->
  activeSum h es = 0 ->
  Forall (fun e => active h e = true -> currentWeight e = 0) es.
Proof.
  induction 1 as [| e es He Hes IH]; intros Hsum; [constructor |].
  pose proof (activeSum_nonneg h es Hes) as Hpos.
  unfold activeSum in *. cbn [fmap list_fmap sumZ] in Hsum.
  change (list_fmap _ _ ?f es) with (f <$> es) in Hsum.
  destruct (active h e) eqn:Hact.
  - specialize (He eq_refl). constructor; [intros _; lia | apply IH; lia].
  - constructor; [intros Ha; congruence | apply IH; lia].
Qed.

Lemma entries_of_backends es :
  Forall (fun e => currentWeight e = 0) es ->
  es = (fun b => mkEntry b 0) <$> (backend <$> es).
Proof.
  induction 1 as [| [b c] es He _ IH]; [done |].
  cbn in He. subst c. cbn [fmap list_fmap] in *. by rewrite <- IH.
Qed.

Lemma backends_New bs : backend <$> entries (NewWeightedRoundRobin bs) = bs.
Proof.
  cbn [NewWeightedRoundRobin entries]. rewrite <- list_fmap_compose.
  induction bs as [| b bs IH]; [done |]. cbn [fmap list_fmap] in *. by rewrite IH.
Qed.

Lemma totalWeight_New (h : heap) bs :
  totalWeight h (entries (NewWeightedRoundRobin bs)) = healthyWeight h bs.
Proof. by rewrite totalWeight_backends, backends_New. Qed.

(** After as many calls as the total weight, every healthy backend has been
    selected as often as its weight says and the picker is as constructed. *)
Lemma wrr_cycle (h h0 : heap) bs :
  NoDup bs ->
  (forall b, b ∈ bs -> IsHealthy h b = true -> 1 <= Weight (deref h b)) ->
  Z.of_nat (length bs) * healthyWeight h bs <= max_i64 ->
  (exists b, b ∈ bs /\ IsHealthy h b = true) ->
  same_view h h0 ->
  exists rs hn,
    calls (Z.to_nat (healthyWeight h bs)) (NewWeightedRoundRobin bs) h0
    = (rs, NewWeightedRoundRobin bs, hn)
    /\ same_view h hn
    /\ forall b, b ∈ bs -> IsHealthy h b = true ->
         selected b rs = Z.to_nat (Weight (deref h b)).
Proof.
  intros Hnd Hw Hmax (b0 & Hb0 & Hh0) Hv.
  set (w0 := NewWeightedRoundRobin bs). set (T := healthyWeight h bs) in *.
  assert (Hback0 : backend <$> entries w0 = bs) by apply backends_New.
  assert (HT0 : totalWeight h (entries w0) = T) by apply totalWeight_New.
  assert (Hin0 : forall e, e ∈ entries w0 -> backend e ∈ bs /\ currentWeight e = 0).
  { intros e He. cbn [w0 NewWeightedRoundRobin entries] in He.
    apply list_elem_of_fmap in He as (b & -> & Hb). done. }
  assert (Hfit : fits h (entries w0)).
  { split.
    - apply Forall_forall. intros e He Hact. apply Hw; [by apply Hin0 | done].
    - rewrite HT0. replace (length (entries w0)) with (length bs); [done |].
      by rewrite <- Hback0, length_fmap. }
  assert (Hex : exists e, e ∈ entries w0 /\ active h e = true).
  { exists (mkEntry b0 0). split; [| done].
    cbn [w0 NewWeightedRoundRobin entries]. apply list_elem_of_fmap. by exists b0. }
  assert (HTpos : 1 <= T).
  { destruct Hex as (e & He & Hact). rewrite <- HT0.
    destruct Hfit as [Hfw _].
    pose proof (weight_le_total h (entries w0) e Hfw He Hact). lia. }
  assert (Hbal : balanced h (entries w0)).
  { split.
    - apply Z.le_antisymm.
      + apply activeSum_nonpos, Forall_forall. intros e He _.
        destruct (Hin0 e He) as [_ ->]. lia.
      + apply activeSum_nonneg, Forall_forall. intros e He _.
        destruct (Hin0 e He) as [_ ->]. lia.
    - apply Forall_forall. intros e He _. destruct (Hin0 e He) as [_ ->].
      rewrite HT0. lia. }
  assert (Hcnt : counted h [] (entries w0)).
  { apply Forall_forall. intros e He. destruct (Hin0 e He) as [_ ->].
    destruct (active h e); cbn; lia. }
  destruct (wrr_run h (Z.to_nat T) w0 h0 [] Hfit Hbal Hv Hex)
    as (rs & wn & hn & Hcalls & Hlen & Hvn & Hbn & Hbaln & Hfitn & Hcntn).
  specialize (Hcntn ltac:(by rewrite Hback0) Hcnt).
  cbn [app] in Hcntn. rewrite Hback0 in Hbn.
  assert (HTn : totalWeight h (entries wn) = T)
    by (by rewrite totalWeight_backends, Hbn, <- Hback0, <- totalWeight_backends).
  unfold counted in Hcntn. rewrite HTn, Hlen, Z2Nat.id in Hcntn by lia.
  destruct Hbaln as [Hsumn Hlown]. rewrite HTn in Hlown.
  assert (Hzero : Forall (fun e => active h e = true -> currentWeight e = 0) (entries wn)).
  { apply activeSum_zero; [| done]. apply Forall_forall. intros e He Hact.
    rewrite Forall_forall in Hcntn, Hlown.
    specialize (Hcntn e He). specialize (Hlown e He Hact).
    rewrite Hact in Hcntn. clear - Hcntn Hlown HTpos.
    assert (0 <= weight_of h e - Z.of_nat (selected (backend e) rs)) by nia.
    nia. }
  assert (Hall0 : Forall (fun e => currentWeight e = 0) (entries wn)).
  { apply Forall_forall. intros e He. rewrite Forall_forall in Hzero, Hcntn.
    specialize (Hcntn e He). destruct (active h e) eqn:Hact; [by apply Hzero | done]. }
  assert (Hwn : wn = w0).
  { destruct wn as [esn]. cbn [entries] in *. unfold w0, NewWeightedRoundRobin.
    f_equal. rewrite (entries_of_backends esn Hall0). by rewrite Hbn. }
  subst wn. exists rs, hn. split; [done |]. split; [done |].
  intros b Hb Hhb.
  assert (He : mkEntry b 0 ∈ entries w0).
  { cbn [w0 NewWeightedRoundRobin entries]. apply list_elem_of_fmap. by exists b. }
  rewrite Forall_forall in Hcntn, Hzero.
  specialize (Hcntn _ He). specialize (Hzero _ He Hhb).
  unfold active, weight_of in Hcntn. cbn [backend currentWeight] in *.
  rewrite Hhb in Hcntn. nia.
Qed.

Lemma healthyWeight_all (h : heap) bs :
  (forall b, b ∈ bs -> IsHealthy h b = true) -> healthyWeight h bs = listWeight h bs.
Proof.
  intros Hall. unfold healthyWeight, listWeight. f_equal.
  apply list_fmap_ext. intros j b Hj.
  rewrite Hall; [done |]. apply list_elem_of_lookup. by eexists.
Qed.

(** The window property over a list whose backends are all selectable is
    the window property over its healthy backends. *)
Lemma wrap_int_congr a b : (2 ^ 64 | a - b) -> wrap_int a = wrap_int b.
Proof.
  intros [q Hq]. replace a with (b + q * 2 ^ 64) by lia.
  unfold wrap_int, wrap_i64.
  replace (b + q * 2 ^ 64 + 2 ^ 63) with (b + 2 ^ 63 + q * 2 ^ 64) by lia.
  by rewrite Z_mod_plus_full.
Qed.

Lemma healthyWeight_filter (h : heap) bs :
  (forall b, b ∈ bs -> IsBlocked h b = false) ->
  healthyWeight h bs
  = listWeight h (List.filter (fun b => IsHealthy h b && negb (IsBlocked h b)) bs).
Proof.
  unfold healthyWeight, listWeight.
  induction bs as [| a bs IH]; intros Hfree; [done |].
  rewrite fmap_cons. cbn [sumZ List.filter].
  rewrite (Hfree a) by (apply elem_of_cons; by left). rewrite andb_true_r.
  rewrite IH by (intros b Hb; apply Hfree, elem_of_cons; by right).
  destruct (IsHealthy h a); [rewrite fmap_cons; cbn [sumZ]; lia | lia].
Qed.

Lemma healthy_window (bs : list loc) (h : heap) :
  NoDup bs ->
  (forall b, b ∈ bs -> IsHealthy h b = true -> 1 <= Weight (deref h b)) ->
  Z.of_nat (length bs) * healthyWeight h bs <= max_i64 ->
  forall (m : nat) b, b ∈ bs -> IsHealthy h b = true ->
    selected b (window m (Z.to_nat (healthyWeight h bs)) (NewWeightedRoundRobin bs) h)
    = Z.to_nat (Weight (deref h b)).
Proof.
  intros Hnd Hw Hmax m b Hb Hhb.
  set (w0 := NewWeightedRoundRobin bs). set (T := Z.to_nat (healthyWeight h bs)).
  destruct (wrr_cycle h h bs Hnd Hw Hmax) as (rsT & hT & HcallsT & HvT & Hsel);
    [by exists b | apply same_view_refl |].
  fold w0 T in HcallsT.
  pose proof (calls_add m T w0 h) as Hmt.
  pose proof (calls_add T m w0 h) as Htm.
  rewrite HcallsT in Htm.
  destruct (calls_same_view m w0 h hT HvT) as [Hsame _].
  unfold window.
  destruct (calls m w0 h) as [[rsm wm] hm].
  unfold results. destruct (calls T wm hm) as [[win w2] h2].
  destruct (calls m w0 hT) as [[rsm' w3] h3].
  cbn [fst snd] in *. injection Hsame as -> ->.
  rewrite (Nat.add_comm m T), Htm in Hmt. injection Hmt as Hrs _ _.
  assert (Hcount : selected b (rsT ++ rsm) = selected b (rsm ++ win)) by (by rewrite Hrs).
  rewrite !selected_app, (Hsel b Hb Hhb) in Hcount. lia.
Qed.

(** C4 (as stated, refuted).  Three healthy backends of weights 3, 1 and
    1, none blocked.  After two calls of a new weighted round robin, which
    return backends 1 and 2, the monitor finds backend 3 down.  From then
    on the selectable set is backends 1 and 2, of total weight 4, and it
    stays so; yet the next four calls all return backend 1, whose weight
    is 3, and none returns backend 2: the entries keep the current weights
    they held at the flip. *)
Lemma window_after_health_flip :
  let bs := [1%nat; 2%nat; 3%nat] in
  let w := snd (fst Flip.afterTwo) in
  let selectable h b := IsHealthy h b && negb (IsBlocked h b) in
  fst (fst Flip.afterTwo) = [Some 1%nat; Some 2%nat]
  /\ List.filter (selectable Flip.flipped) bs = [1%nat; 2%nat]
  /\ List.filter (selectable (snd (calls 4 w Flip.flipped))) bs = [1%nat; 2%nat]
  /\ listWeight Flip.flipped [1%nat; 2%nat] = 4
  /\ Weight (deref Flip.flipped 1%nat) = 3
  /\ Weight (deref Flip.flipped 2%nat) = 1
  /\ results 4 w Flip.flipped = [Some 1%nat; Some 1%nat; Some 1%nat; Some 1%nat]
  /\ selected 1%nat (results 4 w Flip.flipped) = 4%nat
  /\ selected 2%nat (results 4 w Flip.flipped) = 0%nat.
Proof. vm_compute. by repeat split. Qed.

(** C4 (amended).  Over a list in which no backend is blocked, each call
    of [WeightedRoundRobin.Next] raises the current weight of every
    selectable entry by the weight of the entry, picks among them the
    entry of greatest current weight, the earliest on a tie, and subtracts
    the total selectable weight from it, in Go's [int]; it fails when no
    entry is selectable.  Over distinct backends whose flags have stayed
    as they are since the picker was built, with selectable weights of at
    least one that fit [int], any window of as many consecutive calls as
    the total selectable weight returns every selectable backend [i]
    exactly [w_i] times. *)
Theorem WeightedRoundRobin_window (bs : list loc) (h : heap) :
  (forall b, b ∈ bs -> IsBlocked h b = false) ->
  let selectable b := IsHealthy h b && negb (IsBlocked h b) in
  let total := listWeight h (List.filter selectable bs) in
  (forall w : WeightedRoundRobin,
     backend <$> entries w = bs ->
     let es := entries w in
     let es1 := (fun e => if selectable (backend e)
                          then add_currentWeight (weight_of h e) e else e) <$> es in
     ((forall b, b ∈ bs -> selectable b = false) ->
        Next w h = (ErrNoHealthyBackend, w, h))
     /\ ((exists b, b ∈ bs /\ selectable b = true) ->
         exists r e,
           es !! r = Some e /\ selectable (backend e) = true
           /\ (forall j e', es !! j = Some e' -> selectable (backend e') = true ->
                 cw_at es1 j <= cw_at es1 r
                 /\ ((j < r)%nat -> cw_at es1 j < cw_at es1 r))
           /\ Next w h
              = (Some (backend e),
                 mkWeightedRoundRobin (alter (add_currentWeight (- total)) r es1),
                 snd (IncConns (backend e) h))))
  /\ (NoDup bs ->
      (forall b, b ∈ bs -> selectable b = true -> 1 <= Weight (deref h b)) ->
      Z.of_nat (length bs) * total <= max_i64 ->
      forall (m : nat) b, b ∈ bs -> selectable b = true ->
        selected b (window m (Z.to_nat total) (NewWeightedRoundRobin bs) h)
        = Z.to_nat (Weight (deref h b))).
Proof.
  intros Hfree selectable total.
  assert (Hsel : forall b, b ∈ bs -> selectable b = IsHealthy h b).
  { intros b Hb. unfold selectable. rewrite (Hfree b Hb). apply andb_true_r. }
  assert (Htotal : healthyWeight h bs = total) by (by apply healthyWeight_filter).
  split.
  - intros w Hback es es1.
    assert (Hin : forall e, e ∈ es -> backend e ∈ bs).
    { intros e He. rewrite <- Hback. apply list_elem_of_fmap. by exists e. }
    assert (Hact : forall e, e ∈ es -> active h e = selectable (backend e)).
    { intros e He. by rewrite (Hsel _ (Hin e He)). }
    assert (Hes1 : raised h <$> es = es1).
    { apply list_fmap_ext. intros j e He. unfold raised.
      rewrite Hact; [done |]. apply list_elem_of_lookup. by exists j. }
    assert (HT : totalWeight h es = total).
    { unfold es. rewrite totalWeight_backends, Hback. exact Htotal. }
    destruct (WeightedRoundRobin_Next_spec w h) as [Hnone Hsome]. fold es in Hnone, Hsome.
    split.
    + intros Hall. apply Hnone. intros e He. rewrite (Hact e He). by apply Hall, Hin.
    + intros (b & Hb & Hbs).
      destruct Hsome as (r & e & Hr & Hae & Hbest & HNext).
      { rewrite <- Hback in Hb. apply list_elem_of_fmap in Hb as (e & -> & He).
        exists e. split; [done |]. by rewrite (Hact e He). }
      assert (He : e ∈ es) by (apply list_elem_of_lookup; by exists r).
      exists r, e. rewrite Hes1 in Hbest, HNext. split_and!.
      * done.
      * by rewrite <- (Hact e He).
      * intros j e' Hj Hs. apply (Hbest j e' Hj).
        rewrite Hact; [done |]. apply list_elem_of_lookup. by exists j.
      * rewrite HNext. do 3 f_equal. apply list_alter_ext; [| done].
        intros x _. unfold add_currentWeight. f_equal. apply wrap_int_congr.
        pose proof (total_from_divide h es 0) as Hd. rewrite HT in Hd.
        destruct Hd as [q Hq]. exists (- q). lia.
  - intros Hnd Hw Hmax m b Hb Hbs. rewrite <- Htotal in *.
    apply healthy_window; try done.
    + intros b' Hb' Hh. apply Hw; [done |]. by rewrite Hsel.
    + by rewrite <- Hsel.
Qed.

Lemma calls_weightSum_divide (n : nat) : forall (w : WeightedRoundRobin) (h : heap),
  (2 ^ 64 | weightSum (entries w)) ->
  (2 ^ 64 | weightSum (entries (snd (fst (calls n w h))))).
Proof.
  induction n as [| n IH]; intros w h Hsum; [done |]. cbn [calls].
  pose proof (Next_weightSum_divide w h Hsum) as Hstep.
  destruct (Next w h) as [[r w1] h1]. cbn [fst snd] in Hstep.
  specialize (IH w1 h1 Hstep).
  by destruct (calls n w1 h1) as [[rs w2] h2].
Qed.

Lemma calls_none (n : nat) (w : WeightedRoundRobin) (h : heap) :
  (forall e, e ∈ entries w -> active h e = false) ->
  calls n w h = (replicate n ErrNoHealthyBackend, w, h).
Proof.
  intros Hnone. induction n as [| n IH]; [done |]. cbn [calls].
  destruct (WeightedRoundRobin_Next_spec w h) as [Hfail _].
  by rewrite (Hfail Hnone), IH.
Qed.

Lemma weightSum_active (h : heap) es :
  (forall e, e ∈ es -> active h e = true) -> weightSum es = activeSum h es.
Proof.
  intros Hall. unfold weightSum, activeSum. f_equal.
  apply list_fmap_ext. intros j e Hj.
  rewrite Hall; [done |]. apply list_elem_of_lookup. by eexists.
Qed.

(** C10.  With every backend healthy, the current weights of a
    [WeightedRoundRobin] sum to zero after construction, and after any
    number of calls of [Next]: always so in Go's [int], the type the
    weights are kept in, and as integers whenever the weights are at least
    one and fit. *)
Theorem WeightedRoundRobin_zero_sum (bs : list loc) (h : heap) (n : nat) :
  (forall b, b ∈ bs -> IsHealthy h b = true) ->
  let w0 := NewWeightedRoundRobin bs in
  let wn := snd (fst (calls n w0 h)) in
  weightSum (entries w0) = 0
  /\ wrap_int (weightSum (entries wn)) = 0
  /\ ((forall b, b ∈ bs -> 1 <= Weight (deref h b)) ->
      Z.of_nat (length bs) * healthyWeight h bs <= max_i64 ->
      weightSum (entries wn) = 0).
Proof.
  intros Hall w0 wn.
  assert (Hzero : weightSum (entries w0) = 0).
  { unfold w0, weightSum. cbn [NewWeightedRoundRobin entries].
    rewrite <- list_fmap_compose. clear. induction bs as [| b bs IH]; [done |].
    cbn [fmap list_fmap sumZ] in *. by rewrite IH. }
  split; [done |]. split.
  - apply wrap_int_zero. apply calls_weightSum_divide. rewrite Hzero. by exists 0.
  - intros Hw Hmax.
    assert (Hin0 : forall e, e ∈ entries w0 -> backend e ∈ bs /\ currentWeight e = 0).
    { intros e He. unfold w0 in He. cbn [NewWeightedRoundRobin entries] in He.
      apply list_elem_of_fmap in He as (b & -> & Hb). done. }
    assert (Hact0 : forall e, e ∈ entries w0 -> active h e = true).
    { intros e He. apply Hall. by apply Hin0. }
    destruct (decide (bs = [])) as [Hnil | Hne].
    { subst wn. rewrite calls_none; [done |]. intros e He.
      apply Hin0 in He as [He _]. rewrite Hnil in He. by apply elem_of_nil in He. }
    assert (Hb0 : exists b0, b0 ∈ bs).
    { destruct bs as [| b0 bs']; [done |]. exists b0. by left. }
    destruct Hb0 as [b0 Hb0].
    assert (Hfit : fits h (entries w0)).
    { split.
      - apply Forall_forall. intros e He _. apply Hw. by apply Hin0.
      - unfold w0. rewrite totalWeight_New.
        replace (length (entries (NewWeightedRoundRobin bs))) with (length bs); [done |].
        by rewrite <- (backends_New bs) at 1; rewrite length_fmap. }
    assert (Hbal : balanced h (entries w0)).
    { split; [by rewrite <- weightSum_active |].
      apply Forall_forall. intros e He Hact. destruct (Hin0 e He) as [_ ->].
      destruct Hfit as [Hfw _].
      pose proof (weight_le_total h (entries w0) e Hfw He Hact). lia. }
    destruct (wrr_run h n w0 h [] Hfit Hbal (same_view_refl h))
      as (rs & wn' & hn & Hcalls & _ & _ & Hbn & [Hsum _] & _).
    { exists (mkEntry b0 0). split; [| by apply Hall].
      unfold w0. cbn [NewWeightedRoundRobin entries].
      apply list_elem_of_fmap. by exists b0. }
    subst wn. rewrite Hcalls. cbn [fst snd].
    rewrite (weightSum_active h); [done |].
    intros e He. apply Hall. rewrite <- (backends_New bs). fold w0. rewrite <- Hbn.
    apply list_elem_of_fmap. by exists e.
Qed.

(** ** What the two other pickers do guarantee *)

Lemma lc_scan_healthy (h : heap) bs : forall best b,
  lc_scan h bs best = Some b ->
  best = Some b \/ (b ∈ bs /\ IsHealthy h b = true).
Proof.
  induction bs as [| a bs IH]; intros best b Hscan; cbn [lc_scan] in Hscan.
  - by left.
  - destruct (IsHealthy h a) eqn:Ha; cbn [negb] in Hscan.
    + assert (Hnew : lc_scan h bs (Some a) = Some b ->
                     best = Some b \/ (b ∈ a :: bs /\ IsHealthy h b = true)).
      { intros Hs. apply IH in Hs as [Hs | [Hin Hh]].
        - injection Hs as ->. right. split; [by left | done].
        - right. split; [by right | done]. }
      destruct best as [cur |]; [| by apply Hnew].
      destruct (ActiveConns h a <? ActiveConns h cur); [by apply Hnew |].
      apply IH in Hscan as [Hs | [Hin Hh]]; [by left |].
      right. split; [by right | done].
    + apply IH in Hscan as [Hs | [Hin Hh]]; [by left |].
      right. split; [by right | done].
Qed.

(** [LeastConnections.Next] returns a healthy backend of its list. *)
Lemma LeastConnections_Next_healthy (l : LeastConnections) (h : heap) b l' h' :
  Next l h = (Some b, l', h') -> b ∈ lc_backends l /\ IsHealthy h b = true.
Proof.
  cbn [Next LeastConnections_Picker]. unfold LeastConnections_Next.
  destruct (lc_scan h (lc_backends l) None) as [best |] eqn:Hscan; [| discriminate].
  intros Heq. injection Heq as -> _ _.
  by apply lc_scan_healthy in Hscan as [Hs | Hs].
Qed.

(** [WeightedRoundRobin.Next] returns a healthy backend of its list. *)
Lemma WeightedRoundRobin_Next_healthy (w : WeightedRoundRobin) (h : heap) b w' h' :
  Next w h = (Some b, w', h') -> b ∈ backend <$> entries w /\ IsHealthy h b = true.
Proof.
  intros HNext.
  destruct (indices h 0 (entries w)) as [| first others] eqn:Hidx.
  - destruct (WeightedRoundRobin_Next_spec w h) as [Hnone _].
    rewrite Hnone in HNext; [discriminate |]. by apply indices_nil.
  - destruct (WeightedRoundRobin_Next_spec w h) as [_ Hsome].
    destruct Hsome as (r & e & He & Hact & _ & Heq).
    { assert (Hin : first ∈ indices h 0 (entries w))
        by (rewrite Hidx; apply elem_of_cons; by left).
      apply indices_elem in Hin as (_ & e & He & Hact).
      exists e. split; [| done]. apply list_elem_of_lookup. by eexists. }
    rewrite Heq in HNext. injection HNext as <- _ _. split; [| exact Hact].
    apply list_elem_of_fmap. exists e. split; [done |].
    apply list_elem_of_lookup. by eexists.
Qed.

(** ** The pickers: failure, frame and release *)

Import Backends.

Lemma lc_scan_Some (h : heap) bs : forall cur, exists b, lc_scan h bs (Some cur) = Some b.
Proof.
  induction bs as [| a bs IH]; intros cur; cbn [lc_scan]; [by eexists |].
  destruct (negb (IsHealthy h a)); [apply IH |].
  destruct (ActiveConns h a <? ActiveConns h cur); apply IH.
Qed.

Lemma lc_scan_None (h : heap) bs :
  lc_scan h bs None = None <-> forall b, b ∈ bs -> IsHealthy h b = false.
Proof.
  induction bs as [| a bs IH]; cbn [lc_scan].
  - split; [intros _ b Hb; by apply elem_of_nil in Hb | done].
  - destruct (IsHealthy h a) eqn:Ha; cbn [negb].
    + split.
      * intros Hn. destruct (lc_scan_Some h bs a) as [b Hb]. congruence.
      * intros Hall. specialize (Hall a ltac:(by left)). congruence.
    + rewrite IH. split.
      * intros Hall b Hb. apply elem_of_cons in Hb as [-> | Hb]; [done | by apply Hall].
      * intros Hall b Hb. apply Hall. by right.
Qed.

Lemma healthySubset_nil (h : heap) bs :
  healthySubset h bs = []
  <-> forall b, b ∈ bs -> IsHealthy h b && negb (IsBlocked h b) = false.
Proof.
  split.
  - intros Hnil b Hb.
    destruct (IsHealthy h b && negb (IsBlocked h b)) eqn:Hsel; [| done].
    apply andb_true_iff in Hsel as [Hh Hnb]. apply negb_true_iff in Hnb.
    assert (Hin : b ∈ healthySubset h bs) by (by apply healthySubset_spec).
    rewrite Hnil in Hin. by apply elem_of_nil in Hin.
  - intros Hall. destruct (healthySubset h bs) as [| b rest] eqn:Hsub; [done |].
    assert (Hin : b ∈ healthySubset h bs) by (rewrite Hsub; by left).
    apply healthySubset_spec in Hin as (Hb & Hh & Hnb).
    specialize (Hall b Hb). rewrite Hh, Hnb in Hall. done.
Qed.

Lemma Next_None_spec (p : AnyPicker) (h : heap) :
  (fst (fst (Next p h)) = None
   <-> forall b, b ∈ pool p -> eligible p h b = false)
  /\ (fst (fst (Next p h)) = None -> Next p h = (None, p, h)).
Proof.
  destruct p as [r | w | l]; cbn [Next AnyPicker_Picker AnyPicker_Next pool eligible].
  - cbn [Next RoundRobin_Picker]. unfold RoundRobin_Next.
    rewrite <- healthySubset_nil.
    destruct (healthySubset h (rr_backends r)) as [| b0 rest] eqn:Hsub;
      cbn [length Nat.eqb fst]; split; try done;
      split; intros Hc; discriminate Hc.
  - assert (Hact : forall e, active h e = IsHealthy h (backend e)) by done.
    destruct (WeightedRoundRobin_Next_spec w h) as [Hnone Hsome].
    destruct (decide (Exists (fun e => active h e = true) (entries w))) as [Hex | Hno];
      rewrite Exists_exists in *.
    + destruct (Hsome Hex) as (r & e & He & Hacte & _ & ->). cbn [fst].
      split; [| done]. split; [done |].
      intros Hall. exfalso.
      specialize (Hall (backend e)). rewrite <- Hact, Hacte in Hall.
      enough (false = true) by done. symmetry. apply Hall.
      apply list_elem_of_fmap. exists e. split; [done |].
      apply list_elem_of_lookup. by eexists.
    + assert (Hall : forall e, e ∈ entries w -> active h e = false).
      { intros e He. destruct (active h e) eqn:Ha; [| done].
        exfalso. apply Hno. by exists e. }
      rewrite (Hnone Hall). cbn [fst]. split; [| done]. split; [| done].
      intros _ b Hb. apply list_elem_of_fmap in Hb as (e & -> & He).
      rewrite <- Hact. by apply Hall.
  - cbn [Next LeastConnections_Picker]. unfold LeastConnections_Next.
    rewrite <- lc_scan_None.
    destruct (lc_scan h (lc_backends l) None) as [best |]; cbn [fst]; split; try done;
      split; intros Hc; discriminate Hc.
Qed.

(** X1.  [Next] of any picker fails exactly when its list holds no backend
    it takes for eligible (healthy and not blocked for round robin, healthy
    for the two others), and a failed call changes neither the picker, the
    round-robin counter included, nor any backend. *)
Theorem Next_fails_iff_none_eligible (p : AnyPicker) (h : heap) :
  (fst (fst (Next p h)) = None
   <-> forall b, b ∈ pool p -> eligible p h b = false)
  /\ (fst (fst (Next p h)) = None -> Next p h = (None, p, h)).
Proof. apply Next_None_spec. Qed.

Lemma fmap_backend_raised (h : heap) (es : list wrrEntry) :
  backend <$> (raised h <$> es) = backend <$> es.
Proof.
  rewrite <- list_fmap_compose. apply list_fmap_ext. intros i e _. cbn.
  apply backend_raised.
Qed.

Lemma fmap_backend_alter d r (es : list wrrEntry) :
  backend <$> alter (add_currentWeight d) r es = backend <$> es.
Proof.
  revert r. induction es as [| e es IH]; intros [| r]; cbn; try done.
  by rewrite IH.
Qed.

Lemma Next_is_IncConns (p : AnyPicker) (h : heap) b p' h' :
  Next p h = (Some b, p', h') ->
  b ∈ pool p /\ eligible p h b = true /\ pool p' = pool p /\ h' = snd (IncConns b h).
Proof.
  destruct p as [r | w | l]; cbn [Next AnyPicker_Picker AnyPicker_Next pool eligible].
  - destruct (Next r h) as [[ob r1] h1] eqn:HN. intros Heq.
    injection Heq as -> <- <-.
    destruct (RoundRobin_Next_selectable r h b r1 h1 HN) as (Hin & Hh & Hb).
    rewrite Hh, Hb. split; [done |]. split; [done |].
    cbn [Next RoundRobin_Picker] in HN. unfold RoundRobin_Next in HN.
    destruct (Nat.eqb _ 0); [discriminate |].
    injection HN as Hb' <- <-. cbn [pool rr_backends]. split; [done |]. by rewrite Hb'.
  - destruct (Next w h) as [[ob w1] h1] eqn:HN. intros Heq.
    injection Heq as -> <- <-.
    destruct (WeightedRoundRobin_Next_spec w h) as [Hnone Hsome].
    destruct (decide (Exists (fun e => active h e = true) (entries w))) as [Hex | Hno];
      rewrite Exists_exists in *.
    + destruct (Hsome Hex) as (r & e & He & Hacte & _ & Heq). rewrite Heq in HN.
      injection HN as <- <- <-. cbn [pool entries].
      split_and!; [| done | | done].
      * apply list_elem_of_fmap. exists e. split; [done |].
        apply list_elem_of_lookup. by eexists.
      * by rewrite fmap_backend_alter, fmap_backend_raised.
    + rewrite Hnone in HN; [discriminate |].
      intros e He. destruct (active h e) eqn:Ha; [| done].
      exfalso. apply Hno. by exists e.
  - destruct (Next l h) as [[ob l1] h1] eqn:HN. intros Heq.
    injection Heq as -> <- <-.
    cbn [Next LeastConnections_Picker] in HN. unfold LeastConnections_Next in HN.
    destruct (lc_scan h (lc_backends l) None) as [best |] eqn:Hscan; [| discriminate].
    injection HN as -> <- <-.
    apply lc_scan_healthy in Hscan as [Hs | [Hin Hh]]; [discriminate |]. done.
Qed.

(** X2.  A successful [Next] of any picker returns a backend of its list
    that it takes for eligible, keeps the list of the picker, and touches
    the heap in one place: the active connections of the returned backend
    go up by one (in [int64]); its flags, weight, URL and totals, and every
    other backend, stay as they were. *)
Theorem Next_touches_one_counter (p : AnyPicker) (h : heap) b p' h' :
  Next p h = (Some b, p', h') ->
  b ∈ pool p /\ eligible p h b = true
  /\ pool p' = pool p
  /\ deref h' b = add_activeConns 1 (deref h b)
  /\ ActiveConns h' b = wrap_i64 (ActiveConns h b + 1)
  /\ (forall b', b' <> b -> h' !! b' = h !! b').
Proof.
  intros HN. apply Next_is_IncConns in HN as (Hin & Hel & Hpool & ->).
  unfold IncConns, ActiveConns. cbn [snd]. rewrite deref_modify_eq.
  split_and!; try done.
  intros b' Hne. unfold modify. by rewrite lookup_insert_ne.
Qed.

Lemma add_activeConns_round_trip x :
  in_i64 (activeConns x) -> add_activeConns (-1) (add_activeConns 1 x) = x.
Proof.
  destruct x as [u raw wt hl bl ac tr te]. unfold add_activeConns. cbn.
  intros Hac. f_equal.
  unfold in_i64, min_i64, max_i64, wrap_i64 in *.
  destruct (Z.eq_dec ac (2 ^ 63 - 1)) as [-> | Hne]; [reflexivity |].
  rewrite (Z.mod_small (ac + 1 + 2 ^ 63)) by lia.
  rewrite Z.mod_small by lia. lia.
Qed.

(** X3.  [Next] followed by [Done] on the backend it returned leaves
    every backend as it was before the call, whichever picker receives the
    [Done]. *)
Theorem Next_then_Done_restores (p q : AnyPicker) (h : heap) b p' h' :
  Next p h = (Some b, p', h') ->
  in_i64 (ActiveConns h b) ->
  forall b', deref (Done q b h') b' = deref h b'.
Proof.
  intros HN Hac b'. apply Next_is_IncConns in HN as (_ & _ & _ & ->).
  rewrite Done_is_DecConns. unfold DecConns, IncConns. cbn [snd].
  destruct (decide (b' = b)) as [-> | Hne].
  - rewrite !deref_modify_eq. by apply add_activeConns_round_trip.
  - by rewrite !deref_modify_ne.
Qed.

(** ** Least connections *)

Lemma least_of_skip (h : heap) pre best a :
  IsHealthy h a = false -> least_of h pre best -> least_of h (pre ++ [a]) best.
Proof.
  intros Ha. destruct best as [cur |]; cbn [least_of].
  - intros (j & Hj & Hcur & Hmin). exists j. split_and!; [| done |].
    + by apply lookup_app_l_Some.
    + intros i b Hi Hb. apply lookup_app_Some in Hi as [Hi | [_ Hi]]; [by apply Hmin |].
      apply list_lookup_singleton_Some in Hi as [_ <-]. congruence.
  - intros Hall b Hb. apply elem_of_app in Hb as [Hb | Hb]; [by apply Hall |].
    apply list_elem_of_singleton in Hb as ->. done.
Qed.

Lemma lc_scan_least (h : heap) bs : forall pre best,
  least_of h pre best -> least_of h (pre ++ bs) (lc_scan h bs best).
Proof.
  induction bs as [| a bs IH]; intros pre best Hbest; cbn [lc_scan].
  - by rewrite app_nil_r.
  - replace (pre ++ a :: bs) with ((pre ++ [a]) ++ bs) by (by rewrite <- app_assoc).
    destruct (IsHealthy h a) eqn:Ha; cbn [negb].
    2:{ apply IH. by apply least_of_skip. }
    assert (Hnew : (forall b, b ∈ pre -> IsHealthy h b = true ->
                      ActiveConns h a < ActiveConns h b) ->
                   least_of h (pre ++ [a]) (Some a)).
    { intros Hlt. exists (length pre). split_and!; [| done |].
      - rewrite lookup_app_r by lia. by rewrite Nat.sub_diag.
      - intros i b Hi Hb. apply lookup_app_Some in Hi as [Hi | [Hge Hi]].
        + assert (ActiveConns h a < ActiveConns h b).
          { apply Hlt; [| done]. apply list_elem_of_lookup. by eexists. }
          split; [lia | done].
        + apply list_lookup_singleton_Some in Hi as [Hi <-]. split; lia. }
    destruct best as [cur |].
    + destruct Hbest as (j & Hj & Hcur & Hmin).
      destruct (Z.ltb_spec (ActiveConns h a) (ActiveConns h cur)) as [Hlt | Hge].
      * apply IH, Hnew. intros b Hb Hhb.
        apply list_elem_of_lookup in Hb as [i Hi].
        destruct (Hmin i b Hi Hhb) as [Hle _]. lia.
      * apply IH. exists j. split_and!; [by apply lookup_app_l_Some | done |].
        intros i b Hi Hb. apply lookup_app_Some in Hi as [Hi | [Hlen Hi]];
          [by apply Hmin |].
        apply list_lookup_singleton_Some in Hi as [Hi <-].
        split; [lia |]. apply lookup_lt_Some in Hj. lia.
    + apply IH, Hnew. intros b Hb Hhb. rewrite (Hbest b Hb) in Hhb. done.
Qed.

Lemma LeastConnections_Next_spec (l : LeastConnections) (h : heap) b l' h' :
  Next l h = (Some b, l', h') ->
  l' = l /\ h' = snd (IncConns b h) /\ least_of h (lc_backends l) (Some b).
Proof.
  cbn [Next LeastConnections_Picker]. unfold LeastConnections_Next.
  pose proof (lc_scan_least h (lc_backends l) [] None) as Hl.
  destruct (lc_scan h (lc_backends l) None) as [best |]; [| discriminate].
  intros Heq. injection Heq as -> <- <-. split_and!; [done | done |].
  apply Hl. intros b' Hb'. by apply elem_of_nil in Hb'.
Qed.

(** X4.  [LeastConnections.Next] returns the healthy backend of its list
    with the fewest active connections, and on a tie the one that comes
    first in the list; the picker itself holds no state that changes. *)
Theorem LeastConnections_Next_least (l : LeastConnections) (h : heap) b l' h' :
  Next l h = (Some b, l', h') ->
  l' = l
  /\ exists j, lc_backends l !! j = Some b /\ IsHealthy h b = true
       /\ forall i b', lc_backends l !! i = Some b' -> IsHealthy h b' = true ->
            ActiveConns h b <= ActiveConns h b'
            /\ ((i < j)%nat -> ActiveConns h b < ActiveConns h b').
Proof.
  intros HN. apply LeastConnections_Next_spec in HN as (-> & _ & Hl). by split.
Qed.

(** X5.  Least connections keeps a pool level: when the active
    connections of the healthy backends of the list differ by at most one
    before a call of [Next], they differ by at most one after it. *)
Theorem LeastConnections_Next_keeps_level (l : LeastConnections) (h : heap) b l' h' :
  Next l h = (Some b, l', h') ->
  (forall x, x ∈ lc_backends l -> IsHealthy h x = true ->
     min_i64 <= ActiveConns h x < max_i64) ->
  (forall x y, x ∈ lc_backends l -> y ∈ lc_backends l ->
     IsHealthy h x = true -> IsHealthy h y = true ->
     ActiveConns h x - ActiveConns h y <= 1) ->
  forall x y, x ∈ lc_backends l -> y ∈ lc_backends l ->
    IsHealthy h' x = true -> IsHealthy h' y = true ->
    ActiveConns h' x - ActiveConns h' y <= 1.
Proof.
  intros HN Hmax Hlevel x y Hx Hy.
  apply LeastConnections_Next_spec in HN as (_ & -> & j & Hj & Hb & Hmin).
  assert (Hbin : b ∈ lc_backends l) by (apply list_elem_of_lookup; by eexists).
  assert (Hhl : forall z, IsHealthy (snd (IncConns b h)) z = IsHealthy h z)
    by (intros z; apply IncConns_healthy).
  assert (Hac : forall z, z ∈ lc_backends l -> IsHealthy h z = true ->
            ActiveConns (snd (IncConns b h)) z
            = if decide (z = b) then ActiveConns h b + 1 else ActiveConns h z).
  { intros z Hz Hhz. unfold ActiveConns, IncConns. cbn [snd].
    destruct (decide (z = b)) as [-> | Hne].
    - rewrite deref_modify_eq. cbn. apply wrap_i64_id.
      specialize (Hmax b Hbin Hb). unfold ActiveConns in Hmax.
      unfold in_i64, min_i64, max_i64 in *. lia.
    - by rewrite deref_modify_ne. }
  rewrite !Hhl. intros Hhx Hhy. rewrite (Hac x Hx Hhx), (Hac y Hy Hhy).
  assert (Hbx : ActiveConns h b <= ActiveConns h x).
  { apply list_elem_of_lookup in Hx as [i Hi]. by destruct (Hmin i x Hi Hhx). }
  assert (Hby : ActiveConns h b <= ActiveConns h y).
  { apply list_elem_of_lookup in Hy as [i Hi]. by destruct (Hmin i y Hi Hhy). }
  pose proof (Hlevel x y Hx Hy Hhx Hhy).
  pose proof (Hlevel x b Hx Hbin Hhx Hb).
  repeat destruct (decide _); subst; lia.
Qed.

(** ** Building a picker *)

Lemma New_Some (strategy : string) (bs : list loc) p :
  New strategy bs = Some p ->
  bs <> [] /\ pool p = bs
  /\ ((strategy = "round_robin"%string \/ strategy = EmptyString)
        /\ p = PRoundRobin (NewRoundRobin bs)
      \/ strategy = "weighted_round_robin"%string
           /\ p = PWeightedRoundRobin (NewWeightedRoundRobin bs)
      \/ strategy = "least_connections"%string
           /\ p = PLeastConnections (NewLeastConnections bs)).
Proof.
  unfold New. destruct bs as [| b0 bs]; [discriminate |]. cbn [length Nat.eqb].
  destruct (String.eqb_spec strategy "round_robin") as [-> | H1].
  { cbn [orb]. intros Heq. injection Heq as <-. split_and!; [done | done |]. left. auto. }
  destruct (String.eqb_spec strategy EmptyString) as [-> | H2].
  { cbn [orb]. intros Heq. injection Heq as <-. split_and!; [done | done |]. left. auto. }
  cbn [orb].
  destruct (String.eqb_spec strategy "weighted_round_robin") as [-> | H3].
  { intros Heq. injection Heq as <-. split_and!; [done | | right; left; auto].
    cbn [pool NewWeightedRoundRobin entries]. rewrite <- list_fmap_compose.
    clear. induction (b0 :: bs) as [| x l IH]; [done |]. cbn in *. by rewrite IH. }
  destruct (String.eqb_spec strategy "least_connections") as [-> | H4]; [| discriminate].
  intros Heq. injection Heq as <-. split_and!; [done | done | right; right; auto].
Qed.

Lemma New_None_iff (strategy : string) (bs : list loc) :
  New strategy bs = None
  <-> bs = []
      \/ ~ strategy ∈ ["round_robin"; EmptyString; "weighted_round_robin";
                        "least_connections"]%string.
Proof.
  unfold New. destruct bs as [| b0 bs]; [split; auto |]. cbn [length Nat.eqb].
  assert (Hin : forall s, s ∈ ["round_robin"; EmptyString; "weighted_round_robin";
                               "least_connections"]%string ->
                  (b0 :: bs = [] \/ ~ s ∈ ["round_robin"; EmptyString;
                                            "weighted_round_robin";
                                            "least_connections"]%string) -> False).
  { intros s Hs [Hc | Hc]; [discriminate | by apply Hc]. }
  destruct (String.eqb_spec strategy "round_robin") as [-> | H1].
  { cbn [orb]. split; [done |]. intros Hc. exfalso. eapply Hin; [| exact Hc].
    repeat (first [by left | right]). }
  destruct (String.eqb_spec strategy EmptyString) as [-> | H2].
  { cbn [orb]. split; [done |]. intros Hc. exfalso. eapply Hin; [| exact Hc].
    repeat (first [by left | right]). }
  cbn [orb].
  destruct (String.eqb_spec strategy "weighted_round_robin") as [-> | H3].
  { split; [done |]. intros Hc. exfalso. eapply Hin; [| exact Hc].
    repeat (first [by left | right]). }
  destruct (String.eqb_spec strategy "least_connections") as [-> | H4].
  { split; [done |]. intros Hc. exfalso. eapply Hin; [| exact Hc].
    repeat (first [by left | right]). }
  split; [| done]. intros _. right. intros Hc.
  repeat (apply elem_of_cons in Hc as [-> | Hc]; [done |]).
  by apply elem_of_nil in Hc.
Qed.

(** X6.  [strategy.New] fails exactly when the list is empty or the name
    is none of [round_robin], the empty name, [weighted_round_robin] and
    [least_connections]; the picker it returns is over the given backends,
    in their order, and its first [Next] succeeds on every heap in which
    one of them is healthy and not blocked. *)
Theorem New_picker (strategy : string) (bs : list loc) :
  (New strategy bs = None
   <-> bs = []
       \/ ~ strategy ∈ ["round_robin"; EmptyString; "weighted_round_robin";
                         "least_connections"]%string)
  /\ (forall p, New strategy bs = Some p ->
        pool p = bs
        /\ forall (h : heap) b, b ∈ bs -> IsHealthy h b = true -> IsBlocked h b = false ->
             exists b', b' ∈ bs /\ fst (fst (Next p h)) = Some b').
Proof.
  split; [apply New_None_iff |].
  intros p Hp. apply New_Some in Hp as (Hne & Hpool & _). split; [done |].
  intros h b Hb Hh Hnb.
  destruct (Next p h) as [[[b' |] p'] h'] eqn:HN.
  - exists b'. split; [| done].
    apply Next_is_IncConns in HN as (Hin & _). by rewrite <- Hpool.
  - exfalso. destruct (Next_None_spec p h) as [Hiff _].
    rewrite HN in Hiff. cbn [fst] in Hiff.
    assert (Hel : eligible p h b = false) by (apply Hiff; [done | by rewrite Hpool]).
    destruct p; cbn [eligible] in Hel; rewrite Hh, ?Hnb in Hel; done.
Qed.

(** ** A request through the gateway *)

Lemma callNext_None (w : World) :
  fst (callNext (picker w) w) = None ->
  callNext (picker w) w
  = (None, mkWorld (picker w) (<[picker w := pickers w !!! picker w]> (pickers w))
                   (Proxy.backends w) (trace w ++ [CallNext (picker w) None])).
Proof.
  unfold callNext.
  destruct (Next_None_spec (pickers w !!! picker w) (Proxy.backends w)) as [_ Hsame].
  destruct (Next (pickers w !!! picker w) (Proxy.backends w)) as [[r P'] h'] eqn:HN.
  cbn [fst]. intros ->. specialize (Hsame eq_refl). by injection Hsame as -> ->.
Qed.

Lemma callNext_Some (w : World) b :
  fst (callNext (picker w) w) = Some b ->
  exists P', callNext (picker w) w
  = (Some b, mkWorld (picker w) (<[picker w := P']> (pickers w))
                     (snd (IncConns b (Proxy.backends w)))
                     (trace w ++ [CallNext (picker w) (Some b)])).
Proof.
  unfold callNext.
  destruct (Next (pickers w !!! picker w) (Proxy.backends w)) as [[r P'] h'] eqn:HN.
  cbn [fst]. intros ->. apply Next_is_IncConns in HN as (_ & _ & _ & ->). by exists P'.
Qed.

(** X7.  A request for which the picker has no backend: [director] points
    it at [http://0.0.0.0:0], leaves its headers, its [Host] and its
    context alone and logs the failure; [errorHandler], finding no backend
    in the context, calls [Done] on nothing, changes no backend and answers
    502 with the body of [http.Error]. *)
Theorem request_without_backend (req : Request) (w : World) :
  fst (callNext (picker w) w) = None ->
  backendFromCtx req = None ->
  let out := fst (director req w) in
  let w1 := snd (director req w) in
  let resp := fst (errorHandler out w1) in
  let w2 := snd (errorHandler out w1) in
  URLScheme out = "http"%string /\ URLHost out = "0.0.0.0:0"%string
  /\ Host out = Host req /\ Hdr out = Hdr req /\ backendFromCtx out = None
  /\ StatusCode resp = 502
  /\ Body resp = ("bad gateway" +:+ String (ascii_of_N 10) EmptyString)%string
  /\ Proxy.backends w2 = Proxy.backends w
  /\ picker w2 = picker w
  /\ trace w2 = trace w ++ [CallNext (picker w) None;
                            LogError "no healthy backend available";
                            LogError "backend error"].
Proof.
  intros HN Hctx. cbv zeta. unfold director. rewrite (callNext_None w HN).
  cbn [fst snd URLScheme URLHost Host Hdr backendFromCtx ctxBackend].
  unfold errorHandler. cbn [backendFromCtx ctxBackend].
  unfold backendFromCtx in Hctx. rewrite Hctx.
  cbn [fst snd log trace Proxy.backends picker pickers StatusCode Body http_Error].
  split_and!; try done. by rewrite <- !app_assoc.
Qed.

Lemma released (x : Backend) :
  in_i64 (activeConns x) ->
  add_activeConns (-1) (add_activeConns 1 x) = x.
Proof. apply add_activeConns_round_trip. Qed.

(** X8.  A request that [director] gave backend [b] and that completes,
    through [modifyResponse] or through [errorHandler], with or without a
    picker swapped in meanwhile: the active connections of [b] are back
    where they were before the request; a response counts one request; an
    error counts one request and one error and demotes [b]; no other field
    and no other backend changes. *)
Theorem request_accounting (req : Request) (w : World) (P' : ploc) b :
  fst (callNext (picker w) w) = Some b ->
  in_i64 (ActiveConns (Proxy.backends w) b) ->
  let out := fst (director req w) in
  let w1 := UpdatePicker P' (snd (director req w)) in
  let x := deref (Proxy.backends w) b in
  deref (Proxy.backends (snd (director req w))) b = add_activeConns 1 x
  /\ (forall b', deref (Proxy.backends (modifyResponse out w1)) b'
        = if decide (b' = b) then add_totalRequests 1 x
          else deref (Proxy.backends w) b')
  /\ (forall b', deref (Proxy.backends (snd (errorHandler out w1))) b'
        = if decide (b' = b)
          then add_totalErrors 1 (add_totalRequests 1 (set_healthy false x))
          else deref (Proxy.backends w) b').
Proof.
  intros HN Hac. cbv zeta. unfold director.
  destruct (callNext_Some w b HN) as [Q ->].
  unfold modifyResponse, errorHandler, UpdatePicker, log, onBackends, callDone,
    backendFromCtx.
  cbn [fst snd ctxBackend Proxy.backends picker pickers trace].
  rewrite !Done_is_DecConns.
  unfold IncConns, DecConns, IncRequests, IncErrors, SetHealthy. cbn [snd].
  split_and!.
  - by rewrite deref_modify_eq.
  - intros b'. destruct (decide (b' = b)) as [-> | Hne].
    + rewrite !deref_modify_eq. by rewrite released.
    + by rewrite !deref_modify_ne.
  - intros b'. destruct (decide (b' = b)) as [-> | Hne].
    + rewrite !deref_modify_eq. by rewrite released.
    + by rewrite !deref_modify_ne.
Qed.

(** X9.  [director] rewrites six headers and nothing else of what the
    client sent: every other header keeps its values, and the method, the
    path, the client address and the TLS state are those of the inbound
    request. *)
Theorem director_keeps_other_headers (req : Request) (w : World) b :
  fst (callNext (picker w) w) = Some b ->
  let out := fst (director req w) in
  (forall k, ~ k ∈ ["Te"; "Trailers"; "X-Forwarded-For"; "X-Real-Ip";
                     "X-Forwarded-Host"; "X-Forwarded-Proto"]%string ->
     Hdr out !! k = Hdr req !! k)
  /\ Method out = Method req /\ URLPath out = URLPath req
  /\ RemoteAddr out = RemoteAddr req /\ TLS out = TLS req.
Proof.
  intros HN. cbv zeta. unfold director.
  destruct (callNext_Some w b HN) as [Q ->].
  cbn [fst Hdr Method URLPath RemoteAddr TLS]. split; [| done].
  intros k Hk.
  destruct canonical_header_keys as (Kte & Ktr & Kxff & Kip & Kh & Kp).
  unfold Header.Set_, Header.Del. rewrite Kte, Ktr, Kxff, Kip, Kh, Kp.
  assert (Hne : k <> "Te"%string /\ k <> "Trailers"%string /\ k <> "X-Forwarded-For"%string
                /\ k <> "X-Real-Ip"%string /\ k <> "X-Forwarded-Host"%string
                /\ k <> "X-Forwarded-Proto"%string).
  { split_and!; intros ->; apply Hk; repeat (first [by left | right]). }
  destruct Hne as (N1 & N2 & N3 & N4 & N5 & N6).
  rewrite !lookup_insert_ne by done.
  destruct (negb _); rewrite lookup_insert_ne by done; by rewrite !lookup_delete_ne.
Qed.

(** ** The registry, call by call *)

Import AdminAPI.

Lemma find_cases (h : heap) (r : Registry) rawURL :
  (find h r rawURL = -1 /\ ~ rawURL ∈ urls h r)
  \/ (exists j b, find h r rawURL = Z.of_nat j
        /\ Admin.backends r !! j = Some b /\ RawURL (deref h b) = rawURL
        /\ ~ rawURL ∈ urls h (mkRegistry (take j (Admin.backends r)) (strategy r))).
Proof.
  unfold find, urls.
  destruct (find_from_spec h rawURL (Admin.backends r) 0 ltac:(lia))
    as [[Hf Hall] | (j & b & Hf & Hj & Hb & Hall)].
  - left. split; [done |]. intros Hin.
    apply list_elem_of_fmap in Hin as (b & Heq & Hb).
    rewrite Forall_forall in Hall. by apply (Hall b).
  - right. exists j, b. split_and!; [by rewrite Hf | done | done |].
    cbn [Admin.backends]. intros Hin.
    apply list_elem_of_fmap in Hin as (b' & Heq & Hb').
    rewrite Forall_forall in Hall. by apply (Hall b').
Qed.

Lemma Remove_eq (h : heap) (r : Registry) rawURL :
  (~ rawURL ∈ urls h r /\ Remove rawURL r h = (false, r, h, [Lock; Unlock]))
  \/ (exists j b, Admin.backends r !! j = Some b /\ RawURL (deref h b) = rawURL
        /\ ~ rawURL ∈ urls h (mkRegistry (take j (Admin.backends r)) (strategy r))
        /\ Remove rawURL r h
           = (true, mkRegistry (delete j (Admin.backends r)) (strategy r), h,
              [Lock; Unlock; OnChange (strategy r) (delete j (Admin.backends r))])).
Proof.
  unfold Remove.
  destruct (find_cases h r rawURL) as [[Hf Hnot] | (j & b & Hf & Hj & Hb & Hpre)];
    rewrite Hf.
  - left. by split.
  - right. exists j, b. replace (Z.of_nat j <? 0) with false by lia.
    rewrite Nat2Z.id. cbn [snapshot Admin.backends strategy].
    by rewrite delete_take_drop.
Qed.

Lemma setBlockedAt_eq (v : bool) (h : heap) (r : Registry) rawURL :
  (~ rawURL ∈ urls h r /\ setBlockedAt v rawURL r h = (false, r, h, [RLock; RUnlock]))
  \/ (exists j b, Admin.backends r !! j = Some b /\ RawURL (deref h b) = rawURL
        /\ ~ rawURL ∈ urls h (mkRegistry (take j (Admin.backends r)) (strategy r))
        /\ setBlockedAt v rawURL r h
           = (true, r, SetBlocked b v h,
              [RLock; RUnlock; OnChange (strategy r) (Admin.backends r)])).
Proof.
  unfold setBlockedAt.
  destruct (find_cases h r rawURL) as [[Hf Hnot] | (j & b & Hf & Hj & Hb & Hpre)];
    rewrite Hf.
  - left. by split.
  - right. exists j, b. replace (Z.of_nat j <? 0) with false by lia.
    rewrite Nat2Z.id. rewrite (list_lookup_total_correct _ _ _ Hj). by cbn.
Qed.

Lemma urls_same (h h' : heap) (r : Registry) :
  (forall b, b ∈ Admin.backends r -> RawURL (deref h' b) = RawURL (deref h b)) ->
  urls h' r = urls h r.
Proof.
  intros Hsame. unfold urls. apply list_fmap_ext. intros i b Hi.
  apply Hsame. apply list_elem_of_lookup. by eexists.
Qed.

Lemma Add_eq (h : heap) (r : Registry) rawURL weight :
  allocated h r ->
  (URL.Parse rawURL = None /\ Add rawURL weight r h = (false, r, h, []))
  \/ (exists u, URL.Parse rawURL = Some u /\
        let b := fresh (dom h) in
        let h' := <[b := mkBackend u rawURL weight true false 0 0 0]> h in
        (b ∉ dom h) /\ urls h' r = urls h r
        /\ (forall b', b' ∈ Admin.backends r -> deref h' b' = deref h b')
        /\ (rawURL ∈ urls h r /\ Add rawURL weight r h = (false, r, h', [Lock; Unlock])
            \/ ~ rawURL ∈ urls h r
               /\ Add rawURL weight r h
                  = (true, mkRegistry (Admin.backends r ++ [b]) (strategy r), h',
                     [Lock; Unlock;
                      OnChange (strategy r) (Admin.backends r ++ [b])]))).
Proof.
  intros Hwf. unfold Add, NewBackend.
  destruct (URL.Parse rawURL) as [u |] eqn:Hparse; [right | left; by split].
  exists u. split; [done |]. cbv zeta.
  set (b := fresh (dom h)).
  set (h1 := <[b := mkBackend u rawURL weight true false 0 0 0]> h).
  assert (Hfresh : b ∉ dom h) by apply is_fresh.
  assert (Hsame : forall b', b' ∈ Admin.backends r -> deref h1 b' = deref h b').
  { intros b' Hin. unfold deref, h1. apply lookup_total_insert_ne.
    intros ->. by apply Hfresh, Hwf. }
  assert (Hurls : urls h1 r = urls h r).
  { apply urls_same. intros b' Hb'. by rewrite Hsame. }
  split_and!; [done | done | done |].
  destruct (exists_url h1 r rawURL) eqn:Hex.
  - left. split; [| done]. apply exists_url_spec in Hex as (b' & Hb' & Heq).
    rewrite <- Hurls. apply list_elem_of_fmap. by exists b'.
  - right. split; [| done]. intros Hin. rewrite <- Hurls in Hin.
    apply list_elem_of_fmap in Hin as (b' & Heq & Hb').
    assert (Ht : exists_url h1 r rawURL = true)
      by (apply exists_url_spec; by exists b').
    congruence.
Qed.

(** X10.  The registry keeps raw URLs unique: over a registry whose
    backends are objects of the heap and whose raw URLs are pairwise
    distinct, [Add], [Remove], [Block] and [Unblock], whether they succeed
    or fail, leave a registry of which both are still true. *)
Theorem Registry_keeps_urls_unique (r : Registry) (h : heap) :
  allocated h r ->
  NoDup (urls h r) ->
  (forall rawURL weight ok r' h' evs,
     Add rawURL weight r h = (ok, r', h', evs) ->
     allocated h' r' /\ NoDup (urls h' r'))
  /\ (forall rawURL ok r' h' evs,
     Remove rawURL r h = (ok, r', h', evs) ->
     allocated h' r' /\ NoDup (urls h' r'))
  /\ (forall v rawURL ok r' h' evs,
     setBlockedAt v rawURL r h = (ok, r', h', evs) ->
     allocated h' r' /\ NoDup (urls h' r')).
Proof.
  intros Hwf Hnd. split_and!.
  - intros rawURL weight ok r' h' evs.
    destruct (Add_eq h r rawURL weight Hwf)
      as [[_ ->] | (u & _ & Hfresh & Hurls & Hsame & [[_ ->] | [Hnot ->]])];
      intros Heq; injection Heq as <- <- <- <-.
    + done.
    + split; [| by rewrite Hurls].
      intros b Hb. rewrite dom_insert. apply elem_of_union. right. by apply Hwf.
    + split.
      * intros b Hb. cbn [Admin.backends] in Hb. rewrite dom_insert.
        apply elem_of_app in Hb as [Hb | Hb].
        -- apply elem_of_union. right. by apply Hwf.
        -- apply list_elem_of_singleton in Hb as ->. apply elem_of_union. left.
           by apply elem_of_singleton.
      * unfold urls in *. cbn [Admin.backends]. rewrite fmap_app.
        apply NoDup_app. split_and!.
        -- by rewrite Hurls.
        -- intros x Hx Hx'. cbn in Hx'. apply list_elem_of_singleton in Hx'.
           unfold deref in Hx'. rewrite lookup_total_insert_eq in Hx'. cbn in Hx'.
           subst x. rewrite Hurls in Hx. done.
        -- cbn. apply NoDup_singleton.
  - intros rawURL ok r' h' evs.
    destruct (Remove_eq h r rawURL) as [[_ ->] | (j & b & _ & _ & _ & ->)];
      intros Heq; injection Heq as <- <- <- <-; [done |].
    split.
    + intros x Hx. cbn [Admin.backends] in Hx. apply Hwf.
      by apply list_elem_of_delete_inv in Hx.
    + unfold urls in *. cbn [Admin.backends]. rewrite list_fmap_delete.
      eapply sublist_NoDup; [| apply sublist_delete]. done.
  - intros v rawURL ok r' h' evs.
    destruct (setBlockedAt_eq v h r rawURL) as [[_ ->] | (j & b & _ & _ & _ & ->)];
      intros Heq; injection Heq as <- <- <- <-; [done |].
    split.
    + intros x Hx. unfold SetBlocked, modify. rewrite dom_insert.
      apply elem_of_union. right. by apply Hwf.
    + erewrite urls_same; [done |]. intros x _. unfold SetBlocked.
      apply (modify_preserves RawURL). by intros [].
Qed.

(** X11.  [Remove] undoes [Add]: after a successful [Add] of a URL,
    [Remove] of the same URL succeeds, takes out the backend that was
    added, and leaves the list of the registry as it was before the
    [Add]. *)
Theorem Add_then_Remove (r : Registry) (h : heap) rawURL weight r1 h1 evs :
  allocated h r ->
  Add rawURL weight r h = (true, r1, h1, evs) ->
  Remove rawURL r1 h1
  = (true, mkRegistry (Admin.backends r) (strategy r), h1,
     [Lock; Unlock; OnChange (strategy r) (Admin.backends r)]).
Proof.
  intros Hwf.
  destruct (Add_eq h r rawURL weight Hwf)
    as [[_ ->] | (u & _ & Hfresh & Hurls & Hsame & [[_ ->] | [Hnot ->]])];
    intros Heq; try discriminate Heq. injection Heq as <- <- <-.
  set (b := fresh (dom h)) in *.
  set (h1 := <[b := mkBackend u rawURL weight true false 0 0 0]> h) in *.
  set (r1 := mkRegistry (Admin.backends r ++ [b]) (strategy r)).
  assert (Hb : RawURL (deref h1 b) = rawURL).
  { unfold deref, h1. by rewrite lookup_total_insert_eq. }
  destruct (Remove_eq h1 r1 rawURL) as [[Hc _] | (j & b' & Hj & Hb' & Hpre & ->)].
  { exfalso. apply Hc. unfold urls, r1. cbn [Admin.backends]. rewrite fmap_app.
    apply elem_of_app. right. cbn. rewrite Hb. by left. }
  cbn [Admin.backends strategy r1] in *.
  assert (Hjl : j = length (Admin.backends r)).
  { apply lookup_app_Some in Hj as [Hj | [Hge Hj]].
    - exfalso. apply Hnot. rewrite <- Hurls. unfold urls.
      apply list_elem_of_fmap. exists b'. split; [done |].
      apply list_elem_of_lookup. by eexists.
    - apply list_lookup_singleton_Some in Hj as [Hj _]. lia. }
  subst j. rewrite delete_take_drop.
  rewrite take_app_length.
  rewrite drop_ge by (rewrite length_app; cbn; lia).
  by rewrite app_nil_r.
Qed.

Lemma delete_middle {A} (l1 l2 : list A) x : delete (length l1) (l1 ++ x :: l2) = l1 ++ l2.
Proof.
  rewrite delete_take_drop. rewrite take_app_length. f_equal.
  replace (l1 ++ x :: l2) with ((l1 ++ [x]) ++ l2) by (by rewrite <- app_assoc).
  apply drop_app_length'. rewrite length_app. cbn. lia.
Qed.

(** X12.  Over pairwise distinct raw URLs, a successful [Remove] takes
    out one backend, after which the URL is registered no more, so that a
    second [Remove], a [Block] or an [Unblock] of it fails, while every
    other URL stays registered. *)
Theorem Remove_unregisters (r : Registry) (h : heap) rawURL r' h' evs :
  NoDup (urls h r) ->
  Remove rawURL r h = (true, r', h', evs) ->
  h' = h
  /\ S (length (Admin.backends r')) = length (Admin.backends r)
  /\ ~ rawURL ∈ urls h r'
  /\ (forall u, u <> rawURL -> u ∈ urls h r' <-> u ∈ urls h r)
  /\ fst (fst (fst (Remove rawURL r' h))) = false
  /\ (forall v, fst (fst (fst (setBlockedAt v rawURL r' h))) = false).
Proof.
  intros Hnd.
  destruct (Remove_eq h r rawURL) as [[_ ->] | (j & b & Hj & Hb & _ & ->)];
    intros Heq; try discriminate Heq. injection Heq as <- <- <-.
  assert (Hsplit : Admin.backends r
                   = take j (Admin.backends r) ++ b :: drop (S j) (Admin.backends r))
    by (symmetry; by apply take_drop_middle).
  assert (Hlen : length (take j (Admin.backends r)) = j).
  { apply length_take_le. apply lookup_lt_Some in Hj. lia. }
  set (pre := take j (Admin.backends r)) in *.
  set (post := drop (S j) (Admin.backends r)) in *.
  assert (Hdel : delete j (Admin.backends r) = pre ++ post).
  { rewrite Hsplit, <- Hlen. apply delete_middle. }
  unfold urls in *. cbn [Admin.backends]. rewrite Hdel.
  rewrite Hsplit, fmap_app, fmap_cons, Hb in Hnd.
  apply NoDup_app in Hnd as (Hpre & Hcross & Hpost).
  apply NoDup_cons in Hpost as [Hnotpost _].
  assert (Hgone : ~ rawURL ∈ (fun b0 => RawURL (deref h b0)) <$> pre ++ post).
  { rewrite fmap_app. intros Hin. apply elem_of_app in Hin as [Hin | Hin]; [| done].
    apply (Hcross rawURL Hin). by left. }
  split_and!; [done | | done | | |].
  - rewrite Hsplit. rewrite !length_app. cbn. lia.
  - intros u Hu. rewrite Hsplit. rewrite !fmap_app, fmap_cons, Hb.
    rewrite !elem_of_app, elem_of_cons. split; [tauto |].
    intros [? | [? | ?]]; [tauto | done | tauto].
  - destruct (Remove_eq h (mkRegistry (pre ++ post) (strategy r)) rawURL)
      as [[_ ->] | (j' & b' & Hj' & Hb' & _)]; [done |].
    exfalso. apply Hgone. cbn [Admin.backends] in Hj'.
    apply list_elem_of_fmap. exists b'. split; [done |].
    apply list_elem_of_lookup. by eexists.
  - intros v.
    destruct (setBlockedAt_eq v h (mkRegistry (pre ++ post) (strategy r)) rawURL)
      as [[_ ->] | (j' & b' & Hj' & Hb' & _)]; [done |].
    exfalso. apply Hgone. cbn [Admin.backends] in Hj'.
    apply list_elem_of_fmap. exists b'. split; [done |].
    apply list_elem_of_lookup. by eexists.
Qed.

Lemma unique_by_url (h : heap) (r : Registry) x y :
  NoDup (urls h r) ->
  x ∈ Admin.backends r -> y ∈ Admin.backends r ->
  RawURL (deref h x) = RawURL (deref h y) -> x = y.
Proof.
  intros Hnd Hx Hy Heq.
  apply list_elem_of_lookup in Hx as [i Hi]. apply list_elem_of_lookup in Hy as [j Hj].
  assert (Hij : i = j).
  { apply (NoDup_lookup (urls h r) i j (RawURL (deref h x)) Hnd); unfold urls;
      rewrite list_lookup_fmap; [by rewrite Hi | by rewrite Hj, Heq]. }
  subst j. congruence.
Qed.

(** X13.  Over pairwise distinct raw URLs, a successful [Block] or
    [Unblock] shows in [List] as the blocked flag of the entry with that
    URL and as nothing else, and while a backend is blocked no round robin
    over the registered backends returns it. *)
Theorem Block_shows_in_List (v : bool) (r : Registry) (h : heap) rawURL r' h' evs :
  NoDup (urls h r) ->
  setBlockedAt v rawURL r h = (true, r', h', evs) ->
  fst (List r' h')
  = (fun i => if String.eqb (BackendInfo.URL i) rawURL
              then BackendInfo.mk (BackendInfo.URL i) (BackendInfo.Weight i)
                     (BackendInfo.Healthy i) v (BackendInfo.ActiveConns i)
                     (BackendInfo.TotalRequests i) (BackendInfo.TotalErrors i)
              else i) <$> fst (List r h)
  /\ (v = true ->
      forall (rr : RoundRobin) b,
        rr_backends rr = Admin.backends r' ->
        fst (fst (Next rr h')) = Some b -> RawURL (deref h' b) <> rawURL).
Proof.
  intros Hnd.
  destruct (setBlockedAt_eq v h r rawURL) as [[_ ->] | (j & b0 & Hj & Hb0 & _ & ->)];
    intros Heq; try discriminate Heq. injection Heq as <- <- <-.
  assert (Hin0 : b0 ∈ Admin.backends r) by (apply list_elem_of_lookup; by eexists).
  assert (Hraw : forall x, RawURL (deref (SetBlocked b0 v h) x) = RawURL (deref h x)).
  { intros x. apply (modify_preserves RawURL). by intros []. }
  split.
  - unfold List. cbn [fst]. rewrite <- list_fmap_compose.
    apply list_fmap_ext. intros i x Hi. cbn.
    assert (Hx : x ∈ Admin.backends r) by (apply list_elem_of_lookup; by eexists).
    unfold info, IsHealthy, IsBlocked, ActiveConns, TotalRequests, TotalErrors, SetBlocked.
    cbn [BackendInfo.URL BackendInfo.Weight BackendInfo.Healthy BackendInfo.ActiveConns
         BackendInfo.TotalRequests BackendInfo.TotalErrors].
    destruct (String.eqb_spec (RawURL (deref h x)) rawURL) as [Hurl | Hurl].
    + assert (x = b0) by (apply (unique_by_url h r); congruence). subst x.
      rewrite deref_modify_eq. by destruct (deref h b0).
    + assert (x <> b0) by congruence. by rewrite deref_modify_ne.
  - intros -> rr b Hrr HN Hurl.
    destruct (Next rr (SetBlocked b0 true h)) as [[ob rr1] h1] eqn:HNe.
    cbn [fst] in HN. subst ob.
    apply RoundRobin_Next_selectable in HNe as (Hb & _ & Hnb).
    rewrite Hrr in Hb. rewrite Hraw in Hurl.
    assert (b = b0) by (apply (unique_by_url h r); congruence). subst b.
    unfold IsBlocked, SetBlocked in Hnb. rewrite deref_modify_eq in Hnb.
    by destruct (deref h b0).
Qed.

(** ** The dashboard *)

Lemma wrap_i64_add_l a b : wrap_i64 (wrap_i64 a + b) = wrap_i64 (a + b).
Proof.
  unfold wrap_i64.
  replace ((a + 2 ^ 63) mod 2 ^ 64 - 2 ^ 63 + b + 2 ^ 63)
    with ((a + 2 ^ 63) mod 2 ^ 64 + b) by lia.
  rewrite Zplus_mod_idemp_l. f_equal. f_equal. lia.
Qed.

Lemma selectable_and_blocked (h : heap) bs :
  (length (healthySubset h bs) + length (List.filter (IsBlocked h) bs) <= length bs)%nat.
Proof.
  induction bs as [| b bs IH]; [done |]. cbn [healthySubset List.filter].
  destruct (IsHealthy h b), (IsBlocked h b); cbn; lia.
Qed.

Lemma tally_loop_spec (h : heap) bs : forall t,
  in_i64 (tally.totalReqs t) -> in_i64 (tally.totalErrs t) ->
  in_i64 (tally.activeConns t) -> in_i64 (tally.healthy t) -> in_i64 (tally.blocked t) ->
  tally_loop (info h <$> bs) t
  = tally.mk
      (wrap_i64 (tally.totalReqs t + sumZ (TotalRequests h <$> bs)))
      (wrap_i64 (tally.totalErrs t + sumZ (TotalErrors h <$> bs)))
      (wrap_i64 (tally.activeConns t + sumZ (ActiveConns h <$> bs)))
      (wrap_int (tally.healthy t + Z.of_nat (length (healthySubset h bs))))
      (wrap_int (tally.blocked t + Z.of_nat (length (List.filter (IsBlocked h) bs)))).
Proof.
  induction bs as [| b bs IH]; intros t H1 H2 H3 H4 H5.
  - cbn. unfold wrap_int. rewrite !Z.add_0_r, !wrap_i64_id by done. by destruct t.
  - cbn [fmap list_fmap tally_loop sumZ healthySubset List.filter].
    change (list_fmap _ _ (info h) bs) with (info h <$> bs).
    change (list_fmap _ _ (TotalRequests h) bs) with (TotalRequests h <$> bs).
    change (list_fmap _ _ (TotalErrors h) bs) with (TotalErrors h <$> bs).
    change (list_fmap _ _ (ActiveConns h) bs) with (ActiveConns h <$> bs).
    rewrite IH; unfold tally_step, info, wrap_int;
      cbn [tally.totalReqs tally.totalErrs tally.activeConns tally.healthy tally.blocked
           BackendInfo.Healthy BackendInfo.Blocked BackendInfo.TotalRequests
           BackendInfo.TotalErrors BackendInfo.ActiveConns];
      try apply wrap_i64_range;
      try (destruct (IsHealthy h b && negb (IsBlocked h b)); [apply wrap_i64_range | done]);
      try (destruct (IsBlocked h b); [apply wrap_i64_range | done]).
    rewrite !wrap_i64_add_l. f_equal; try (f_equal; lia).
    + destruct (IsHealthy h b && negb (IsBlocked h b)); cbn [length]; [| done].
      rewrite wrap_i64_add_l. f_equal. lia.
    + destruct (IsBlocked h b); cbn [length]; [| done].
      rewrite wrap_i64_add_l. f_equal. lia.
Qed.

(** X14.  [handleStats] reports as healthy exactly as many backends as a
    round robin over the registry would rotate over (healthy and not
    blocked), as blocked those that carry the flag, the two together never
    more than the total, and as totals the sums of the counters of the
    backends, in [int64]. *)
Theorem handleStats_counts (version uptime : string) (r : Registry) (h : heap) :
  Z.of_nat (length (Admin.backends r)) <= max_i64 ->
  let bs := Admin.backends r in
  let healthy := Z.of_nat (length (healthySubset h bs)) in
  let blocked := Z.of_nat (length (List.filter (IsBlocked h) bs)) in
  fst (handleStats version uptime r h)
  = jsonOK (Stats (statsResponse.mk uptime version
                     (wrap_i64 (sumZ (TotalRequests h <$> bs)))
                     (wrap_i64 (sumZ (TotalErrors h <$> bs)))
                     (wrap_i64 (sumZ (ActiveConns h <$> bs)))
                     (Z.of_nat (length bs)) healthy blocked))
  /\ healthy + blocked <= Z.of_nat (length bs).
Proof.
  intros Hlen bs healthy blocked.
  pose proof (selectable_and_blocked h bs) as Hsum.
  split; [| unfold healthy, blocked; lia].
  unfold handleStats, List. cbn [fst]. fold bs.
  assert (Hz : in_i64 0) by (unfold in_i64, min_i64, max_i64; lia).
  rewrite tally_loop_spec by exact Hz.
  cbn [tally.totalReqs tally.totalErrs tally.activeConns tally.healthy tally.blocked].
  rewrite length_fmap. unfold wrap_int.
  rewrite !Z.add_0_l.
  rewrite (wrap_i64_id (Z.of_nat (length (healthySubset h bs)))),
          (wrap_i64_id (Z.of_nat (length (List.filter (IsBlocked h) bs)))); [done | |];
    unfold in_i64, min_i64, max_i64 in *; fold bs in Hlen; lia.
Qed.

(** X15.  [handleAddBackend] answers 400 exactly when the body does not
    decode or names no URL, 409 exactly when the URL does not parse or is
    registered, and 200 otherwise; only with 200 does the registry change
    and [onChange] run, and the backend then registered is healthy, not
    blocked, and of weight at least one: the weight asked for when it is
    positive, one otherwise. *)
Theorem handleAddBackend_outcome (body : option AddBody.t) (r : Registry) (h : heap) :
  allocated h r ->
  let o := handleAddBackend body r h in
  let named := exists b, body = Some b /\ AddBody.URL b <> EmptyString in
  let fits := exists b, body = Some b /\ URL.Parse (AddBody.URL b) <> None
                        /\ ~ AddBody.URL b ∈ urls h r in
  (Code (reply o) = 400 <-> ~ named)
  /\ (Code (reply o) = 409 <-> named /\ ~ fits)
  /\ (Code (reply o) = 200 <-> named /\ fits)
  /\ (Code (reply o) <> 200 ->
      registry o = r /\ urls (store o) r = urls h r
      /\ onChangeCalls [] (events o) = [] /\ logged o = [])
  /\ (Code (reply o) = 200 ->
      exists b x, body = Some b /\ (x ∉ dom h)
        /\ Admin.backends (registry o) = Admin.backends r ++ [x]
        /\ RawURL (deref (store o) x) = AddBody.URL b
        /\ Weight (deref (store o) x) = Z.max 1 (AddBody.Weight b)
        /\ IsHealthy (store o) x = true /\ IsBlocked (store o) x = false
        /\ onChangeCalls [] (events o)
           = [(strategy r, Admin.backends r ++ [x], true)]).
Proof.
  intros Hwf o named fits. subst o. unfold handleAddBackend.
  destruct body as [b |].
  2:{ cbn. split_and!; try done.
      - split; [| done]. intros _ (b & Hb & _). discriminate.
      - split; [discriminate |]. intros [(b & Hb & _) _]. discriminate.
      - split; [discriminate |]. intros [(b & Hb & _) _]. discriminate. }
  destruct (String.eqb_spec (AddBody.URL b) EmptyString) as [Hempty | Hurl].
  { cbn. split_and!; try done.
    - split; [| done]. intros _ (b' & Hb' & Hne). injection Hb' as <-. done.
    - split; [discriminate |]. intros [(b' & Hb' & Hne) _]. injection Hb' as <-. done.
    - split; [discriminate |]. intros [(b' & Hb' & Hne) _]. injection Hb' as <-. done. }
  assert (Hnamed : named) by (by exists b).
  assert (Hfits : fits <-> URL.Parse (AddBody.URL b) <> None /\ ~ AddBody.URL b ∈ urls h r).
  { split; [intros (b' & Hb' & H1 & H2); injection Hb' as <-; done |].
    intros [H1 H2]. by exists b. }
  set (weight := if AddBody.Weight b <=? 0 then 1 else AddBody.Weight b).
  assert (Hweight : weight = Z.max 1 (AddBody.Weight b))
    by (unfold weight; destruct (Z.leb_spec (AddBody.Weight b) 0); lia).
  destruct (Add_eq h r (AddBody.URL b) weight Hwf)
    as [[Hparse ->] | (u & Hparse & Hfresh & Hurls & Hsame & [[Hin ->] | [Hnot ->]])];
    cbn [negb reply registry store events logged Code jsonErr jsonOK];
    unfold StatusConflict, StatusOK.
  - assert (Hno : ~ fits) by (rewrite Hfits; tauto).
    split_and!; try done; split; try discriminate; try tauto.
  - assert (Hno : ~ fits) by (rewrite Hfits; tauto).
    split_and!; try done; split; try discriminate; try tauto.
  - assert (Hyes : fits) by (rewrite Hfits; split; [congruence | done]).
    split_and!; try done; try (split; try discriminate; tauto).
    intros _. exists b, (fresh (dom h)).
    unfold IsHealthy, IsBlocked, deref. rewrite !lookup_total_insert_eq.
    cbn [Admin.backends RawURL Weight healthy blocked]. split_and!; try done.
Qed.

(** X16.  [handleRemoveBackend], [handleBlock] and [handleUnblock] answer
    400 exactly when the query names no URL, 404 exactly when the URL
    named is not registered, and 200 otherwise; without 200 they leave the
    registry and every backend as they were and never run [onChange]. *)
Theorem url_handlers_outcome (u : string) (r : Registry) (h : heap) :
  let answers (o : Outcome) :=
    (Code (reply o) = 400 <-> u = EmptyString)
    /\ (Code (reply o) = 404 <-> u <> EmptyString /\ ~ u ∈ urls h r)
    /\ (Code (reply o) = 200 <-> u <> EmptyString /\ u ∈ urls h r)
    /\ (Code (reply o) <> 200 ->
        registry o = r /\ store o = h /\ onChangeCalls [] (events o) = []
        /\ logged o = []) in
  answers (handleRemoveBackend u r h)
  /\ answers (handleBlock u r h)
  /\ answers (handleUnblock u r h).
Proof.
  cbv zeta. unfold handleRemoveBackend, handleBlock, handleUnblock, Block, Unblock.
  destruct (String.eqb_spec u EmptyString) as [Hempty | Hurl].
  { cbn. repeat split; try done; try discriminate; tauto. }
  assert (Hreg : forall j b, Admin.backends r !! j = Some b ->
                   RawURL (deref h b) = u -> u ∈ urls h r).
  { intros j b Hj Hb. rewrite <- Hb. unfold urls. apply list_elem_of_fmap. exists b.
    split; [done |]. apply list_elem_of_lookup. by eexists. }
  split; [| split].
  - destruct (Remove_eq h r u) as [[Hnot ->] | (j & b & Hj & Hb & _ & ->)];
      [| pose proof (Hreg j b Hj Hb)];
      cbn; repeat split; try done; try discriminate; tauto.
  - destruct (setBlockedAt_eq true h r u) as [[Hnot ->] | (j & b & Hj & Hb & _ & ->)];
      [| pose proof (Hreg j b Hj Hb)];
      cbn; repeat split; try done; try discriminate; tauto.
  - destruct (setBlockedAt_eq false h r u) as [[Hnot ->] | (j & b & Hj & Hb & _ & ->)];
      [| pose proof (Hreg j b Hj Hb)];
      cbn; repeat split; try done; try discriminate; tauto.
Qed.

(** ** A pool from its configuration *)

Lemma NewBackends_loop_spec cfgs : forall acc (h : heap),
  let out := NewBackends_loop cfgs acc h in
  (forall b, b ∈ dom h -> snd out !! b = h !! b)
  /\ (fst out = None
      <-> exists c, c ∈ cfgs /\ URL.Parse (Config.BackendCfg.URL c) = None)
  /\ (forall bs, fst out = Some bs ->
        exists new, bs = acc ++ new /\ length new = length cfgs /\ NoDup new
          /\ (forall b, b ∈ new -> b ∉ dom h)
          /\ (forall i b c, new !! i = Some b -> cfgs !! i = Some c ->
                exists u, URL.Parse (Config.BackendCfg.URL c) = Some u
                  /\ snd out !! b
                     = Some (mkBackend u (Config.BackendCfg.URL c)
                               (Config.BackendCfg.Weight c) true false 0 0 0))).
Proof.
  induction cfgs as [| c cfgs IH]; intros acc h; cbn [NewBackends_loop].
  - cbn [fst snd]. split_and!; [done | |].
    + split; [discriminate |]. intros (c & Hc & _). by apply elem_of_nil in Hc.
    + intros bs Hbs. injection Hbs as <-. exists []. rewrite app_nil_r.
      split_and!; [done | done | constructor | |].
      * intros b Hb. by apply elem_of_nil in Hb.
      * intros i b c Hi. by rewrite lookup_nil in Hi.
  - unfold NewBackend.
    destruct (URL.Parse (Config.BackendCfg.URL c)) as [u |] eqn:Hparse.
    2:{ cbn [fst snd]. split_and!; [done | | discriminate].
        split; [| done]. intros _. exists c. split; [by left | done]. }
    set (b0 := fresh (dom h)).
    set (x := mkBackend u (Config.BackendCfg.URL c) (Config.BackendCfg.Weight c)
                        true false 0 0 0).
    assert (Hfresh : b0 ∉ dom h) by apply is_fresh.
    specialize (IH (acc ++ [b0]) (<[b0 := x]> h)). cbv zeta in IH.
    destruct IH as (Hold & Hnone & Hsome).
    set (out := NewBackends_loop cfgs (acc ++ [b0]) (<[b0 := x]> h)) in *.
    cbv zeta. split_and!.
    + intros b Hb. rewrite Hold.
      * apply lookup_insert_ne. intros ->. done.
      * rewrite dom_insert. apply elem_of_union. by right.
    + rewrite Hnone. split.
      * intros (c' & Hc' & Hp). exists c'. split; [by right | done].
      * intros (c' & Hc' & Hp). apply elem_of_cons in Hc' as [-> | Hc'];
          [congruence |]. by exists c'.
    + intros bs Hbs. destruct (Hsome bs Hbs) as (new & -> & Hlen & Hnd & Hnew & Hval).
      exists (b0 :: new). split_and!.
      * by rewrite <- app_assoc.
      * cbn. by rewrite Hlen.
      * constructor; [| done]. intros Hin. apply (Hnew b0 Hin).
        rewrite dom_insert. apply elem_of_union. left. by apply elem_of_singleton.
      * intros b Hb. apply elem_of_cons in Hb as [-> | Hb]; [done |].
        intros Hd. apply (Hnew b Hb). rewrite dom_insert. apply elem_of_union. by right.
      * intros [| i] b c' Hi Hc'; cbn in Hi, Hc'.
        -- injection Hi as <-. injection Hc' as <-. exists u. split; [done |].
           rewrite Hold; [apply lookup_insert_eq |].
           rewrite dom_insert. apply elem_of_union. left. by apply elem_of_singleton.
        -- by apply (Hval i).
Qed.

Lemma NewBackends_spec (cfgs : list Config.BackendCfg.t) (h : heap) :
  let out := NewBackends cfgs h in
  (forall b, b ∈ dom h -> snd out !! b = h !! b)
  /\ (fst out = None
      <-> exists c, c ∈ cfgs /\ URL.Parse (Config.BackendCfg.URL c) = None)
  /\ (forall bs, fst out = Some bs ->
        length bs = length cfgs /\ NoDup bs
        /\ (forall b, b ∈ bs -> b ∉ dom h)
        /\ (forall i b c, bs !! i = Some b -> cfgs !! i = Some c ->
              exists u, URL.Parse (Config.BackendCfg.URL c) = Some u
                /\ snd out !! b
                   = Some (mkBackend u (Config.BackendCfg.URL c)
                             (Config.BackendCfg.Weight c) true false 0 0 0))).
Proof.
  cbv zeta. unfold NewBackends.
  destruct (NewBackends_loop_spec cfgs [] h) as (Hold & Hnone & Hsome).
  split_and!; [done | done |].
  intros bs Hbs. destruct (Hsome bs Hbs) as (new & -> & Hrest). exact Hrest.
Qed.

(** X17.  [NewBackends] fails exactly when the URL of one entry does not
    parse.  Otherwise it returns one new backend for each entry, in the
    order of the entries, no two the same and none an object that existed
    before, each with the raw URL and the weight of its entry, healthy,
    not blocked, all counters zero.  In both cases the backends that
    existed before are left as they were. *)
Theorem NewBackends_builds_the_pool (cfgs : list Config.BackendCfg.t) (h : heap) :
  let out := NewBackends cfgs h in
  (forall b, b ∈ dom h -> snd out !! b = h !! b)
  /\ (fst out = None
      <-> exists c, c ∈ cfgs /\ URL.Parse (Config.BackendCfg.URL c) = None)
  /\ (forall bs, fst out = Some bs ->
        length bs = length cfgs /\ NoDup bs
        /\ (forall b, b ∈ bs -> b ∉ dom h)
        /\ (forall i b c, bs !! i = Some b -> cfgs !! i = Some c ->
              exists u, URL.Parse (Config.BackendCfg.URL c) = Some u
                /\ snd out !! b
                   = Some (mkBackend u (Config.BackendCfg.URL c)
                             (Config.BackendCfg.Weight c) true false 0 0 0))).
Proof. apply NewBackends_spec. Qed.

(** ** Loading the configuration *)

Lemma setWeightAt_backends i cfg done b rest :
  Config.Backends cfg = done ++ b :: rest -> length done = i ->
  Config.BackendCfg.Weight b <= 0 ->
  Config.setWeightAt i 1 cfg
  = Config.withBackends ((done ++ [Config.atLeastOne b]) ++ rest) cfg.
Proof.
  intros Hbs Hlen Hw. unfold Config.setWeightAt, Config.withBackends. f_equal.
  rewrite Hbs, <- Hlen. rewrite <- (Nat.add_0_r (length done)) at 1.
  rewrite alter_app_r. cbn. rewrite <- app_assoc. cbn.
  unfold Config.atLeastOne. by replace (Config.BackendCfg.Weight b <=? 0) with true by lia.
Qed.

Lemma unmarshal_loop_spec todo : forall done cfg,
  Config.Backends cfg = done ++ todo ->
  (Forall (fun b => Config.BackendCfg.URL b <> EmptyString) todo
   /\ Config.unmarshal_loop (length done) todo cfg
      = Config.Ok (Config.withBackends (done ++ (Config.atLeastOne <$> todo)) cfg))
  \/ (exists j b, todo !! j = Some b /\ Config.BackendCfg.URL b = EmptyString
        /\ Forall (fun b => Config.BackendCfg.URL b <> EmptyString) (take j todo)
        /\ Config.unmarshal_loop (length done) todo cfg
           = Config.Fail (Config.ErrEmptyURL (length done + j))).
Proof.
  induction todo as [| b todo IH]; intros done cfg Hbs; cbn [Config.unmarshal_loop].
  - left. split; [done |]. cbn. rewrite app_nil_r in *. rewrite <- Hbs. by destruct cfg.
  - destruct (String.eqb_spec (Config.BackendCfg.URL b) EmptyString) as [Hempty | Hurl].
    { right. exists 0%nat, b. rewrite Nat.add_0_r. by split_and!. }
    assert (Hnext : forall cfg', Config.Backends cfg' = (done ++ [Config.atLeastOne b]) ++ todo ->
              Config.withBackends (done ++ (Config.atLeastOne <$> b :: todo)) cfg
              = Config.withBackends ((done ++ [Config.atLeastOne b])
                                       ++ (Config.atLeastOne <$> todo)) cfg' ->
              (Forall (fun b0 => Config.BackendCfg.URL b0 <> EmptyString) (b :: todo)
               /\ Config.unmarshal_loop (S (length done)) todo cfg'
                  = Config.Ok (Config.withBackends
                                 (done ++ (Config.atLeastOne <$> b :: todo)) cfg))
              \/ (exists j b0, (b :: todo) !! j = Some b0
                    /\ Config.BackendCfg.URL b0 = EmptyString
                    /\ Forall (fun b1 => Config.BackendCfg.URL b1 <> EmptyString)
                              (take j (b :: todo))
                    /\ Config.unmarshal_loop (S (length done)) todo cfg'
                       = Config.Fail (Config.ErrEmptyURL (length done + j)))).
    { intros cfg' Hbs' Hsame.
      specialize (IH (done ++ [Config.atLeastOne b]) cfg' Hbs').
      rewrite length_app in IH. cbn [length] in IH.
      replace (length done + 1)%nat with (S (length done)) in IH by lia.
      destruct IH as [[Hall ->] | (j & b0 & Hj & Hb0 & Hpre & ->)].
      - left. split; [by constructor |]. by rewrite Hsame.
      - right. exists (S j), b0. split_and!; [done | done | by constructor |].
        do 2 f_equal. lia. }
    destruct (Z.leb_spec (Config.BackendCfg.Weight b) 0) as [Hw | Hw].
    + apply Hnext.
      * rewrite (setWeightAt_backends (length done) cfg done b todo Hbs eq_refl Hw). done.
      * rewrite (setWeightAt_backends (length done) cfg done b todo Hbs eq_refl Hw).
        unfold Config.withBackends. cbn. by rewrite <- app_assoc.
    + apply Hnext.
      * rewrite Hbs, <- app_assoc. cbn. unfold Config.atLeastOne.
        by replace (Config.BackendCfg.Weight b <=? 0) with false by lia.
      * unfold Config.withBackends. cbn. by rewrite <- app_assoc.
Qed.

Lemma unmarshal_cases (decoded : option Config.t) :
  (decoded = None /\ Config.unmarshal decoded = Config.Fail Config.ErrParsing)
  \/ (exists cfg, decoded = Some cfg /\ Config.Backends cfg = []
         /\ Config.unmarshal decoded = Config.Fail Config.ErrNoBackends)
  \/ (exists cfg, decoded = Some cfg /\ Config.Backends cfg <> []
         /\ Forall (fun b => Config.BackendCfg.URL b <> EmptyString) (Config.Backends cfg)
         /\ Config.unmarshal decoded
            = Config.Ok (Config.withBackends
                           (Config.atLeastOne <$> Config.Backends cfg) cfg))
  \/ (exists cfg j b, decoded = Some cfg /\ Config.Backends cfg !! j = Some b
         /\ Config.BackendCfg.URL b = EmptyString
         /\ Forall (fun b => Config.BackendCfg.URL b <> EmptyString)
                   (take j (Config.Backends cfg))
         /\ Config.unmarshal decoded = Config.Fail (Config.ErrEmptyURL j)).
Proof.
  destruct decoded as [cfg |]; [| by left]. right. unfold Config.unmarshal.
  destruct (Config.Backends cfg) as [| b0 bs] eqn:Hbs; [left; by exists cfg |].
  right. cbn [length Nat.eqb]. rewrite <- Hbs.
  destruct (unmarshal_loop_spec (Config.Backends cfg) [] cfg eq_refl)
    as [[Hall Heq] | (j & b & Hj & Hb & Hpre & Heq)]; cbn [length app] in Heq.
  - left. exists cfg. split_and!; [done | by rewrite Hbs | done | done].
  - right. exists cfg, j, b. by split_and!.
Qed.

Lemma first_empty_unique (bs : list Config.BackendCfg.t) i j b c :
  bs !! i = Some b -> Config.BackendCfg.URL b = EmptyString ->
  Forall (fun b => Config.BackendCfg.URL b <> EmptyString) (take i bs) ->
  bs !! j = Some c -> Config.BackendCfg.URL c = EmptyString ->
  Forall (fun b => Config.BackendCfg.URL b <> EmptyString) (take j bs) ->
  i = j.
Proof.
  intros Hi Hb Hpi Hj Hc Hpj. rewrite Forall_forall in Hpi, Hpj.
  destruct (Nat.lt_trichotomy i j) as [Hlt | [-> | Hlt]]; [| done |]; exfalso.
  - apply (Hpj b); [| done]. apply list_elem_of_lookup. exists i.
    by rewrite lookup_take_lt.
  - apply (Hpi c); [| done]. apply list_elem_of_lookup. exists j.
    by rewrite lookup_take_lt.
Qed.

Lemma atLeastOne_idemp b : Config.atLeastOne (Config.atLeastOne b) = Config.atLeastOne b.
Proof.
  unfold Config.atLeastOne.
  destruct (Z.leb_spec (Config.BackendCfg.Weight b) 0) as [Hw | Hw]; cbn.
  - done.
  - by replace (Config.BackendCfg.Weight b <=? 0) with false by lia.
Qed.

Lemma atLeastOne_ok b :
  Config.BackendCfg.URL (Config.atLeastOne b) = Config.BackendCfg.URL b
  /\ 1 <= Config.BackendCfg.Weight (Config.atLeastOne b).
Proof.
  unfold Config.atLeastOne.
  destruct (Z.leb_spec (Config.BackendCfg.Weight b) 0) as [Hw | Hw]; cbn; split; lia || done.
Qed.

(** X18.  [unmarshal] accepts a decoded configuration exactly when it
    lists at least one backend and no backend has an empty URL, and names
    the first backend with an empty URL when it refuses for that reason.
    What it returns is the decoded configuration with every weight below
    one raised to one and nothing else changed: no backend list is empty,
    no URL is empty, no weight is below one, and [unmarshal] returns it
    unchanged when given it again. *)
Theorem unmarshal_normalises (decoded : option Config.t) :
  (forall cfg', Config.unmarshal decoded = Config.Ok cfg' <->
     exists cfg, decoded = Some cfg /\ Config.Backends cfg <> []
       /\ Forall (fun b => Config.BackendCfg.URL b <> EmptyString) (Config.Backends cfg)
       /\ cfg' = Config.withBackends (Config.atLeastOne <$> Config.Backends cfg) cfg)
  /\ (forall i, Config.unmarshal decoded = Config.Fail (Config.ErrEmptyURL i) <->
        exists cfg b, decoded = Some cfg /\ Config.Backends cfg !! i = Some b
          /\ Config.BackendCfg.URL b = EmptyString
          /\ Forall (fun b => Config.BackendCfg.URL b <> EmptyString)
                    (take i (Config.Backends cfg)))
  /\ (forall cfg', Config.unmarshal decoded = Config.Ok cfg' ->
        Config.Backends cfg' <> []
        /\ Forall (fun b => Config.BackendCfg.URL b <> EmptyString
                            /\ 1 <= Config.BackendCfg.Weight b) (Config.Backends cfg')
        /\ Config.unmarshal (Some cfg') = Config.Ok cfg').
Proof.
  split_and!.
  - intros cfg'. split.
    + intros Hok.
      destruct (unmarshal_cases decoded)
        as [[_ Heq] | [(cfg & _ & _ & Heq) | [(cfg & Hd & Hne & Hall & Heq)
                                             | (cfg & j & b & _ & _ & _ & _ & Heq)]]];
        rewrite Heq in Hok; try discriminate Hok.
      injection Hok as <-. by exists cfg.
    + intros (cfg & -> & Hne & Hall & ->).
      destruct (unmarshal_cases (Some cfg))
        as [[Hc _] | [(cfg1 & Hd & Hnil & _) | [(cfg1 & Hd & _ & _ & Heq)
                                               | (cfg1 & j & b & Hd & Hj & Hb & _)]]].
      * discriminate.
      * injection Hd as <-. done.
      * injection Hd as <-. done.
      * injection Hd as <-. exfalso. rewrite Forall_forall in Hall.
        apply (Hall b); [| done]. apply list_elem_of_lookup. by eexists.
  - intros i. split.
    + intros Hf.
      destruct (unmarshal_cases decoded)
        as [[_ Heq] | [(cfg & _ & _ & Heq) | [(cfg & _ & _ & _ & Heq)
                                             | (cfg & j & b & Hd & Hj & Hb & Hpre & Heq)]]];
        rewrite Heq in Hf; try discriminate Hf.
      injection Hf as <-. by exists cfg, b.
    + intros (cfg & b & -> & Hi & Hb & Hpre).
      destruct (unmarshal_cases (Some cfg))
        as [[Hc _] | [(cfg1 & Hd & Hnil & _) | [(cfg1 & Hd & _ & Hall & _)
                                               | (cfg1 & j & c & Hd & Hj & Hc & Hpj & Heq)]]].
      * discriminate.
      * injection Hd as <-. by rewrite Hnil in Hi.
      * injection Hd as <-. exfalso. rewrite Forall_forall in Hall.
        apply (Hall b); [| done]. apply list_elem_of_lookup. by eexists.
      * injection Hd as <-. rewrite Heq.
        by rewrite (first_empty_unique _ i j b c Hi Hb Hpre Hj Hc Hpj).
  - intros cfg' Hok.
    destruct (unmarshal_cases decoded)
      as [[_ Heq] | [(cfg & _ & _ & Heq) | [(cfg & Hd & Hne & Hall & Heq)
                                           | (cfg & j & b & _ & _ & _ & _ & Heq)]]];
      rewrite Heq in Hok; try discriminate Hok.
    injection Hok as <-. cbn [Config.withBackends Config.Backends].
    assert (Hne' : Config.atLeastOne <$> Config.Backends cfg <> []).
    { destruct (Config.Backends cfg); [done | discriminate]. }
    assert (Hall' : Forall (fun b => Config.BackendCfg.URL b <> EmptyString
                                     /\ 1 <= Config.BackendCfg.Weight b)
                           (Config.atLeastOne <$> Config.Backends cfg)).
    { apply Forall_fmap. eapply Forall_impl; [exact Hall |]. intros b Hb. cbn.
      destruct (atLeastOne_ok b) as [-> Hw]. done. }
    split_and!; [done | done |].
    set (cfg1 := Config.withBackends (Config.atLeastOne <$> Config.Backends cfg) cfg).
    destruct (unmarshal_cases (Some cfg1))
      as [[Hc _] | [(cfg2 & Hd2 & Hnil & _) | [(cfg2 & Hd2 & _ & _ & Heq2)
                                              | (cfg2 & j & b & Hd2 & Hj & Hb & _)]]].
    + discriminate.
    + injection Hd2 as <-. done.
    + injection Hd2 as <-. rewrite Heq2. f_equal. unfold cfg1, Config.withBackends.
      cbn. f_equal. rewrite <- list_fmap_compose. apply list_fmap_ext.
      intros i b _. cbn. apply atLeastOne_idemp.
    + injection Hd2 as <-. exfalso. cbn in Hj. rewrite Forall_forall in Hall'.
      destruct (Hall' b); [| done]. apply list_elem_of_lookup. by eexists.
Qed.

(** ** A round of probes *)

Lemma probe_stores (c : Health.Config) (a : GetResult) b (h : heap) :
  snd (probe c (fun _ => a) b h) = SetHealthy b (Monitor.up a) h
  /\ length (fst (probe c (fun _ => a) b h))
     = (if Bool.eqb (IsHealthy h b) (Monitor.up a) then 0 else 1)%nat.
Proof.
  unfold probe, Monitor.up. destruct a as [| code].
  - cbn [snd fst]. split; [done |]. by destruct (IsHealthy h b).
  - destruct ((code >=? 200) && (code <? 400)); cbn [snd fst]; split; try done;
      by destruct (IsHealthy h b).
Qed.

Lemma probeEach_spec (c : Monitor.Config) jobs : forall (h : heap),
  NoDup (fst <$> jobs) ->
  let out := Monitor.probeEach c jobs h in
  (forall b a, (b, a) ∈ jobs ->
     snd out !! b = Some (set_healthy (Monitor.up a) (deref h b)))
  /\ (forall b, ~ b ∈ fst <$> jobs -> snd out !! b = h !! b)
  /\ length (fst out)
     = length (List.filter (fun j => negb (Bool.eqb (IsHealthy h (fst j)) (Monitor.up (snd j))))
                           jobs).
Proof.
  induction jobs as [| [b0 a0] jobs IH]; intros h Hnd; cbn [Monitor.probeEach].
  - cbn. split_and!; [| done | done]. intros b a Hin. by apply elem_of_nil in Hin.
  - cbn [fmap list_fmap fst] in Hnd. apply NoDup_cons in Hnd as [Hnot Hnd].
    destruct (probe_stores (Monitor.probeConfig c) a0 b0 h) as [Hheap Hlog].
    destruct (probe (Monitor.probeConfig c) (fun _ => a0) b0 h) as [l1 h1].
    cbn [fst snd] in Hheap, Hlog. subst h1.
    specialize (IH (SetHealthy b0 (Monitor.up a0) h) Hnd). cbv zeta in IH.
    destruct (Monitor.probeEach c jobs (SetHealthy b0 (Monitor.up a0) h)) as [l2 h2].
    cbn [fst snd] in *. destruct IH as (Hin & Hout & Hlen).
    assert (Hother : forall b, b <> b0 ->
              deref (SetHealthy b0 (Monitor.up a0) h) b = deref h b).
    { intros b Hne. unfold SetHealthy. by rewrite deref_modify_ne. }
    split_and!.
    + intros b a Hba. apply elem_of_cons in Hba as [Heq | Hba].
      * injection Heq as -> ->. rewrite Hout by done.
        unfold SetHealthy, modify. apply lookup_insert_eq.
      * rewrite (Hin b a Hba). rewrite Hother; [done |]. intros ->. apply Hnot.
        apply list_elem_of_fmap. by exists (b0, a).
    + intros b Hb. cbn [fmap list_fmap fst] in Hb. rewrite not_elem_of_cons in Hb.
      destruct Hb as [Hne Hb]. rewrite (Hout b Hb).
      unfold SetHealthy, modify. by apply lookup_insert_ne.
    + rewrite length_app, Hlog, Hlen. cbn [List.filter fst snd].
      assert (Hsame : List.filter
                (fun j => negb (Bool.eqb (IsHealthy (SetHealthy b0 (Monitor.up a0) h) (fst j))
                                         (Monitor.up (snd j)))) jobs
              = List.filter
                (fun j => negb (Bool.eqb (IsHealthy h (fst j)) (Monitor.up (snd j)))) jobs).
      { apply List.filter_ext_in. intros [b a] Hba. cbn [fst snd].
        unfold IsHealthy. rewrite Hother; [done |]. intros ->. apply Hnot.
        apply list_elem_of_fmap. exists (b0, a). split; [done |]. by apply list_elem_of_In. }
      rewrite Hsame. by destruct (Bool.eqb (IsHealthy h b0) (Monitor.up a0)).
Qed.

(** X19.  A round of [probeAll] over distinct backends sets the health
    flag of each from the answer to its own probe (healthy for a status in
    [200, 400), unhealthy for any other status and for an error), changes
    nothing else of it and no backend outside the list, logs one line for
    each backend whose flag changed, and leaves the same backends whatever
    the order in which the probes ran. *)
Theorem probeAll_round (m : Monitor.t) (answers : list GetResult) (h : heap) :
  NoDup (Monitor.backends m) ->
  length answers = length (Monitor.backends m) ->
  let out := Monitor.probeAll m answers h in
  (forall i b a, Monitor.backends m !! i = Some b -> answers !! i = Some a ->
     snd out !! b = Some (set_healthy (Monitor.up a) (deref h b)))
  /\ (forall b, ~ b ∈ Monitor.backends m -> snd out !! b = h !! b)
  /\ length (fst out)
     = length (List.filter
                 (fun j => negb (Bool.eqb (IsHealthy h (fst j)) (Monitor.up (snd j))))
                 (zip (Monitor.backends m) answers))
  /\ (forall jobs, jobs ≡ₚ zip (Monitor.backends m) answers ->
        snd (Monitor.probeEach (Monitor.cfg m) jobs h) = snd out).
Proof.
  intros Hnd Hlen. cbv zeta. unfold Monitor.probeAll.
  set (jobs0 := zip (Monitor.backends m) answers).
  assert (Hfst : fst <$> jobs0 = Monitor.backends m).
  { unfold jobs0. apply fst_zip. lia. }
  assert (Hnd0 : NoDup (fst <$> jobs0)) by (by rewrite Hfst).
  destruct (probeEach_spec (Monitor.cfg m) jobs0 h Hnd0) as (Hin & Hout & Hlog).
  split_and!.
  - intros i b a Hb Ha. apply Hin. apply list_elem_of_lookup. exists i.
    unfold jobs0. rewrite lookup_zip_with. by rewrite Hb, Ha.
  - intros b Hb. apply Hout. by rewrite Hfst.
  - done.
  - intros jobs Hperm.
    assert (Hnd1 : NoDup (fst <$> jobs)) by (by rewrite Hperm).
    destruct (probeEach_spec (Monitor.cfg m) jobs h Hnd1) as (Hin1 & Hout1 & _).
    apply map_eq. intros b.
    destruct (decide (b ∈ fst <$> jobs0)) as [Hb | Hb].
    + apply list_elem_of_fmap in Hb as ([b' a] & -> & Hba). cbn [fst].
      rewrite (Hin b' a Hba). apply Hin1. by rewrite Hperm.
    + rewrite (Hout b Hb). apply Hout1. by rewrite Hperm.
Qed.

(** ** The registry and the running gateway *)

Lemma onChange_rebuilt (r' : Registry) (s0 s : Main.System) :
  picker (Main.gw s0) = picker (Main.gw s) ->
  pickers (Main.gw s0) = pickers (Main.gw s) ->
  Main.monitor s0 = Main.monitor s ->
  Main.rebuilt r' s (Main.onChange (strategy r') (Admin.backends r') s0).
Proof.
  intros Hp Hps Hm. unfold Main.rebuilt, Main.onChange.
  destruct (New (strategy r') (Admin.backends r')) as [P |] eqn:HNew.
  - cbn [Main.gw Main.monitor Main.install UpdatePicker picker pickers Monitor.UpdateBackends
         Monitor.backends]. rewrite Hps.
    split_and!.
    + apply lookup_insert_eq.
    + by apply New_Some in HNew as (_ & Hpool & _).
    + apply is_fresh.
    + intros p Hin. apply lookup_insert_ne. intros <-. by apply (is_fresh (dom (pickers (Main.gw s)))).
    + done.
  - cbn [Main.say Main.gw Main.monitor]. by split_and!.
Qed.

(** X20.  A change of the registry of a running gateway.  After a
    successful [Add], [Remove], [Block], [Unblock] or [ReplaceAll], when
    [strategy.New] can build a picker over the list the registry now
    holds, that picker, a new object in its initial state, is the picker
    of the gateway, and the monitor probes that list; when it cannot (the
    list is empty after the last backend was removed, or the strategy name
    is unknown), the gateway keeps the picker it had, over the backends it
    had, and the monitor its list.  A failed call leaves picker and monitor
    alone. *)
Theorem registry_change_reaches_gateway (r : Registry) (s : Main.System) :
  allocated (Proxy.backends (Main.gw s)) r ->
  let reaches method :=
    forall ok r' s', Main.call method r s = (ok, r', s') ->
      if ok then Main.rebuilt r' s s' else Main.untouched s s' in
  (forall rawURL weight, reaches (Add rawURL weight))
  /\ (forall rawURL, reaches (Remove rawURL))
  /\ (forall v rawURL, reaches (setBlockedAt v rawURL))
  /\ (forall bs name, reaches (ReplaceAll bs name)).
Proof.
  intros Hwf. cbv zeta. unfold Main.call. split_and!.
  - intros rawURL weight ok r' s'.
    destruct (Add_eq (Proxy.backends (Main.gw s)) r rawURL weight Hwf)
      as [[_ ->] | (u & _ & _ & _ & _ & [[_ ->] | [_ ->]])];
      intros Heq; injection Heq as <- <- <-; cbn [Main.notify].
    + by split_and!.
    + by split_and!.
    + by apply (onChange_rebuilt (mkRegistry _ _)).
  - intros rawURL ok r' s'.
    destruct (Remove_eq (Proxy.backends (Main.gw s)) r rawURL)
      as [[_ ->] | (j & b & _ & _ & _ & ->)];
      intros Heq; injection Heq as <- <- <-; cbn [Main.notify].
    + by split_and!.
    + by apply (onChange_rebuilt (mkRegistry _ _)).
  - intros v rawURL ok r' s'.
    destruct (setBlockedAt_eq v (Proxy.backends (Main.gw s)) r rawURL)
      as [[_ ->] | (j & b & _ & _ & _ & ->)];
      intros Heq; injection Heq as <- <- <-; cbn [Main.notify].
    + by split_and!.
    + by apply onChange_rebuilt.
  - intros bs name ok r' s'. unfold ReplaceAll.
    intros Heq; injection Heq as <- <- <-; cbn [Main.notify].
    by apply (onChange_rebuilt (mkRegistry _ _)).
Qed.

(** ** Start-up *)

Lemma Parsed_positive (ParseDuration : string -> Z) (hc : Config.HealthCheckCfg.t) :
  0 < Config.HealthCheckCfg.ParsedInterval ParseDuration hc
  /\ 0 < Config.HealthCheckCfg.ParsedTimeout ParseDuration hc.
Proof.
  unfold Config.HealthCheckCfg.ParsedInterval, Config.HealthCheckCfg.ParsedTimeout.
  split.
  - destruct (Z.leb_spec (ParseDuration (Config.HealthCheckCfg.Interval hc)) 0);
      [reflexivity | lia].
  - destruct (Z.leb_spec (ParseDuration (Config.HealthCheckCfg.Timeout hc)) 0);
      [reflexivity | lia].
Qed.

Lemma startup_cases (ParseDuration : string -> Z) (cfg : Config.t) (h : heap) :
  let out1 := NewBackends (Config.Backends cfg) h in
  let out2 := NewBackends (Config.Backends cfg) (snd out1) in
  ((exists c, c ∈ Config.Backends cfg /\ URL.Parse (Config.BackendCfg.URL c) = None)
   /\ fst out1 = None)
  \/ (exists bs1 bs,
        fst out1 = Some bs1 /\ fst out2 = Some bs
        /\ length bs1 = length (Config.Backends cfg)
        /\ length bs = length (Config.Backends cfg)
        /\ (New (Config.Strategy cfg) bs1 = None <-> New (Config.Strategy cfg) bs = None)).
Proof.
  cbv zeta.
  destruct (NewBackends_spec (Config.Backends cfg) h) as (_ & Hnone1 & Hsome1).
  destruct (fst (NewBackends (Config.Backends cfg) h)) as [bs1 |] eqn:H1.
  2:{ left. split; [by apply Hnone1 | done]. }
  right.
  destruct (NewBackends_spec (Config.Backends cfg) (snd (NewBackends (Config.Backends cfg) h)))
    as (_ & Hnone2 & Hsome2).
  destruct (fst (NewBackends (Config.Backends cfg) (snd (NewBackends (Config.Backends cfg) h))))
    as [bs |] eqn:H2.
  2:{ exfalso. assert (Hc : @None (list loc) = None) by done.
      apply Hnone2 in Hc. apply Hnone1 in Hc. discriminate. }
  destruct (Hsome1 bs1 eq_refl) as (Hl1 & _). destruct (Hsome2 bs eq_refl) as (Hl2 & _).
  exists bs1, bs. split_and!; try done.
  rewrite !New_None_iff.
  assert (bs1 = [] <-> bs = []).
  { split; intros ->; cbn in *; [destruct bs | destruct bs1]; done || (cbn in *; lia). }
  tauto.
Qed.

Lemma startup_spec (ParseDuration : string -> Z)
        (loaded : Config.result) (h : heap) reg s :
  Main.startup ParseDuration loaded h = Some (reg, s) ->
  let cfg := match loaded with Config.Ok c => c | Config.Fail _ => Config.Default end in
  let hs := Proxy.backends (Main.gw s) in
  (exists P, pickers (Main.gw s) !! picker (Main.gw s) = Some P
             /\ pool P = Admin.backends reg)
  /\ Monitor.backends (Main.monitor s) = Admin.backends reg
  /\ strategy reg = Config.Strategy cfg
  /\ length (Admin.backends reg) = length (Config.Backends cfg)
  /\ NoDup (Admin.backends reg)
  /\ allocated hs reg
  /\ (forall i b c, Admin.backends reg !! i = Some b -> Config.Backends cfg !! i = Some c ->
        RawURL (deref hs b) = Config.BackendCfg.URL c
        /\ Weight (deref hs b) = Config.BackendCfg.Weight c)
  /\ 0 < Monitor.Interval (Monitor.cfg (Main.monitor s))
  /\ 0 < Monitor.clientTimeout (Main.monitor s)
  /\ Main.current s = Main.buildChain cfg.
Proof.
  intros Hstart cfg hs. unfold Main.startup in Hstart.
  assert (Hcfg : (let '(cfg0, lines) :=
                    match loaded with
                    | Config.Ok cfg0 => (cfg0, [])
                    | Config.Fail _ =>
                        (Config.Default, ["could not load config file, using defaults"%string])
                    end in cfg0) = cfg) by (by destruct loaded).
  destruct (match loaded with
            | Config.Ok cfg0 => (cfg0, [])
            | Config.Fail _ =>
                (Config.Default, ["could not load config file, using defaults"%string])
            end) as [cfg0 lines]. subst cfg0.
  unfold Main.buildGateway in Hstart.
  destruct (NewBackends (Config.Backends cfg) h) as [[bs1 |] h1]; [| discriminate].
  destruct (New (Config.Strategy cfg) bs1) as [P1 |]; [| discriminate].
  destruct (NewBackends_spec (Config.Backends cfg) h1) as (_ & _ & Hsome).
  destruct (NewBackends (Config.Backends cfg) h1) as [[bs |] h2]; [| discriminate].
  cbn [fst snd] in Hsome. destruct (Hsome bs eq_refl) as (Hlen & Hnd & _ & Hval).
  cbn [AdminAPI.Backends AdminAPI.NewRegistry snapshot fst Admin.backends] in Hstart.
  destruct (New (Config.Strategy cfg) bs) as [P |] eqn:HNew; [| discriminate].
  injection Hstart as <- <-. subst hs.
  cbn [Main.gw Main.monitor Main.current Main.install UpdatePicker onBackends
       Main.newGateway picker pickers Proxy.backends Admin.backends strategy
       Monitor.UpdateBackends Monitor.New Monitor.backends Monitor.cfg
       Monitor.clientTimeout Monitor.Interval Monitor.Timeout].
  destruct (Parsed_positive ParseDuration (Config.HealthCheck cfg)) as [Hi Ht].
  split_and!; try done.
  - exists P. split; [apply lookup_insert_eq |].
    by apply New_Some in HNew as (_ & Hpool & _).
  - intros b Hb. apply list_elem_of_lookup in Hb as [i Hi'].
    destruct (lookup_lt_is_Some_2 (Config.Backends cfg) i) as [c Hc].
    { rewrite <- Hlen. by apply lookup_lt_Some in Hi'. }
    destruct (Hval i b c Hi' Hc) as (u & _ & Hb). by apply elem_of_dom.
  - intros i b c Hb Hc. destruct (Hval i b c Hb Hc) as (u & _ & Hlook).
    unfold deref. by rewrite (lookup_total_correct _ _ _ Hlook).
Qed.

(** X21.  When [main] reaches the point where it serves, the picker of
    the gateway, the health monitor and the registry are over the same
    backend objects, one for each entry of the configuration in its order,
    each with the URL and the weight of its entry; the registry carries the
    strategy of the configuration, and the monitor a probe interval and a
    timeout that are positive whatever the configuration says. *)
Theorem startup_shares_backends (ParseDuration : string -> Z)
        (loaded : Config.result) (h : heap) reg s :
  Main.startup ParseDuration loaded h = Some (reg, s) ->
  let cfg := match loaded with Config.Ok c => c | Config.Fail _ => Config.Default end in
  let hs := Proxy.backends (Main.gw s) in
  (exists P, pickers (Main.gw s) !! picker (Main.gw s) = Some P
             /\ pool P = Admin.backends reg)
  /\ Monitor.backends (Main.monitor s) = Admin.backends reg
  /\ strategy reg = Config.Strategy cfg
  /\ length (Admin.backends reg) = length (Config.Backends cfg)
  /\ NoDup (Admin.backends reg)
  /\ allocated hs reg
  /\ (forall i b c, Admin.backends reg !! i = Some b -> Config.Backends cfg !! i = Some c ->
        RawURL (deref hs b) = Config.BackendCfg.URL c
        /\ Weight (deref hs b) = Config.BackendCfg.Weight c)
  /\ 0 < Monitor.Interval (Monitor.cfg (Main.monitor s))
  /\ 0 < Monitor.clientTimeout (Main.monitor s)
  /\ Main.current s = Main.buildChain cfg.
Proof. apply startup_spec. Qed.

(** X22.  [main] stops before serving exactly when a backend URL of the
    configuration does not parse, the configuration lists no backend, or
    its strategy name is unknown; with the default configuration, the one
    it falls back on when the file does not load, it never stops. *)
Theorem startup_succeeds (ParseDuration : string -> Z) (loaded : Config.result) (h : heap) :
  let cfg := match loaded with Config.Ok c => c | Config.Fail _ => Config.Default end in
  (Main.startup ParseDuration loaded h = None
   <-> (exists c, c ∈ Config.Backends cfg /\ URL.Parse (Config.BackendCfg.URL c) = None)
       \/ Config.Backends cfg = []
       \/ ~ Config.Strategy cfg ∈ ["round_robin"; EmptyString; "weighted_round_robin";
                                    "least_connections"]%string)
  /\ (forall e, Main.startup ParseDuration (Config.Fail e) h <> None).
Proof.
  assert (Hiff : forall loaded',
    let cfg := match loaded' with Config.Ok c => c | Config.Fail _ => Config.Default end in
    Main.startup ParseDuration loaded' h = None
    <-> (exists c, c ∈ Config.Backends cfg /\ URL.Parse (Config.BackendCfg.URL c) = None)
        \/ Config.Backends cfg = []
        \/ ~ Config.Strategy cfg ∈ ["round_robin"; EmptyString; "weighted_round_robin";
                                     "least_connections"]%string).
  { intros loaded' cfg. unfold Main.startup.
    assert (Hcfg : (let '(cfg0, lines) :=
                      match loaded' with
                      | Config.Ok cfg0 => (cfg0, [])
                      | Config.Fail _ =>
                          (Config.Default,
                           ["could not load config file, using defaults"%string])
                      end in cfg0) = cfg) by (by destruct loaded').
    destruct (match loaded' with
              | Config.Ok cfg0 => (cfg0, [])
              | Config.Fail _ =>
                  (Config.Default, ["could not load config file, using defaults"%string])
              end) as [cfg0 lines]. subst cfg0.
    unfold Main.buildGateway.
    destruct (startup_cases ParseDuration cfg h)
      as [[Hbad H1] | (bs1 & bs & H1 & H2 & Hl1 & Hl2 & HNew)].
    - destruct (NewBackends (Config.Backends cfg) h) as [o1 h1]. cbn [fst] in H1. subst o1.
      split; [by left | done].
    - destruct (NewBackends_spec (Config.Backends cfg) h) as (_ & Hnone & _).
      destruct (NewBackends (Config.Backends cfg) h) as [o1 h1]. cbn [fst snd] in *.
      subst o1.
      assert (Hgood : ~ exists c, c ∈ Config.Backends cfg
                                  /\ URL.Parse (Config.BackendCfg.URL c) = None).
      { intros Hc. apply Hnone in Hc. discriminate. }
      assert (Hnil : bs = [] <-> Config.Backends cfg = []).
      { split; intros Hn.
        - rewrite Hn in Hl2. by destruct (Config.Backends cfg).
        - rewrite Hn in Hl2. by destruct bs. }
      destruct (New (Config.Strategy cfg) bs1) as [P1 |] eqn:HN1; cbv beta iota zeta.
      + destruct (NewBackends (Config.Backends cfg) h1) as [o2 h2]. cbn [fst] in H2.
        subst o2.
        cbn [AdminAPI.Backends AdminAPI.NewRegistry snapshot fst Admin.backends].
        destruct (New (Config.Strategy cfg) bs) as [P |] eqn:HN.
        * split; [discriminate |]. intros [Hc | Hc]; [done |].
          exfalso. assert (Hn : New (Config.Strategy cfg) bs = None).
          { apply New_None_iff. tauto. }
          congruence.
        * exfalso. assert (Some P1 = None) by (by apply HNew). discriminate.
      + split; [| done]. intros _. right.
        assert (Hn : New (Config.Strategy cfg) bs = None) by (by apply HNew).
        apply New_None_iff in Hn. tauto. }
  split; [apply Hiff |].
  intros e Hc. apply (Hiff (Config.Fail e)) in Hc. cbv zeta in Hc.
  destruct Hc as [(c & Hin & Hparse) | [Hc | Hc]].
  - cbn in Hin. apply list_elem_of_singleton in Hin as ->. vm_compute in Hparse. discriminate.
  - discriminate.
  - apply Hc. cbn. by left.
Qed.

(** ** Hot reload *)

Lemma hotReload_spec (newCfg : Config.t) (r : Registry) (s : Main.System) :
  let r' := fst (Main.hotReload newCfg r s) in
  let s' := snd (Main.hotReload newCfg r s) in
  let hs := Proxy.backends (Main.gw s) in
  let hs' := Proxy.backends (Main.gw s') in
  let invalid :=
    exists c, c ∈ Config.Backends newCfg /\ URL.Parse (Config.BackendCfg.URL c) = None in
  (forall b, b ∈ dom hs -> hs' !! b = hs !! b)
  /\ (invalid ->
      r' = r /\ picker (Main.gw s') = picker (Main.gw s)
      /\ pickers (Main.gw s') = pickers (Main.gw s)
      /\ Main.monitor s' = Main.monitor s /\ Main.current s' = Main.current s)
  /\ (~ invalid ->
      strategy r' = Config.Strategy newCfg
      /\ length (Admin.backends r') = length (Config.Backends newCfg)
      /\ NoDup (Admin.backends r')
      /\ (forall b, b ∈ Admin.backends r' -> b ∉ dom hs)
      /\ (forall i b c, Admin.backends r' !! i = Some b ->
            Config.Backends newCfg !! i = Some c ->
            exists u, URL.Parse (Config.BackendCfg.URL c) = Some u
              /\ hs' !! b = Some (mkBackend u (Config.BackendCfg.URL c)
                                    (Config.BackendCfg.Weight c) true false 0 0 0))
      /\ Main.rebuilt r' s s'
      /\ Main.current s' = Main.buildChain newCfg).
Proof.
  cbv zeta. unfold Main.hotReload.
  destruct (NewBackends_spec (Config.Backends newCfg) (Proxy.backends (Main.gw s)))
    as (Hold & Hnone & Hsome).
  destruct (NewBackends (Config.Backends newCfg) (Proxy.backends (Main.gw s)))
    as [[bs |] h'] eqn:HNB; cbn [fst snd] in *.
  - unfold Main.call, ReplaceAll.
    cbn [Main.withBackends Main.gw onBackends Proxy.backends Main.notify fst snd
         Main.say Main.monitor Main.current Main.journal snapshot Admin.backends strategy].
    assert (Hheap : forall s0, Proxy.backends
                      (Main.gw (Main.onChange (Config.Strategy newCfg) bs s0))
                    = Proxy.backends (Main.gw s0)).
    { intros s0. unfold Main.onChange. by destruct (New (Config.Strategy newCfg) bs). }
    rewrite Hheap. cbn [Main.withBackends Main.gw onBackends Proxy.backends].
    split_and!; [done | |].
    + intros Hinv. apply Hnone in Hinv. discriminate.
    + intros _. destruct (Hsome bs eq_refl) as (Hlen & Hnd & Hfresh & Hval).
      split_and!; try done.
      pose proof (onChange_rebuilt (mkRegistry bs (Config.Strategy newCfg))
                    (Main.withBackends h' (Main.withBackends h' s)) s
                    eq_refl eq_refl eq_refl) as Hre.
      cbn [strategy Admin.backends] in Hre. unfold Main.rebuilt in *.
      cbn [strategy Admin.backends] in *.
      by destruct (New (Config.Strategy newCfg) bs).
  - cbn [Main.withBackends Main.gw onBackends Proxy.backends Main.say Main.monitor
         Main.current picker pickers].
    split_and!; [done | by intros _ |].
    intros Hvalid. exfalso. apply Hvalid. by apply Hnone.
Qed.

(** X23.  A hot reload whose configuration holds a URL that does not
    parse changes neither the registry, the picker, the monitor nor the
    middleware chain.  Any other reload replaces the list of the registry
    by new backends, one for each entry, all healthy, not blocked and with
    zero counters, whatever the state of the backends they replace; takes
    the strategy name and the middleware chain of the new configuration;
    and reaches the gateway and the monitor as any change of the registry
    does.  The backends that existed before stay as they were. *)
Theorem hotReload_outcome (newCfg : Config.t) (r : Registry) (s : Main.System) :
  let r' := fst (Main.hotReload newCfg r s) in
  let s' := snd (Main.hotReload newCfg r s) in
  let hs := Proxy.backends (Main.gw s) in
  let hs' := Proxy.backends (Main.gw s') in
  let invalid :=
    exists c, c ∈ Config.Backends newCfg /\ URL.Parse (Config.BackendCfg.URL c) = None in
  (forall b, b ∈ dom hs -> hs' !! b = hs !! b)
  /\ (invalid ->
      r' = r /\ picker (Main.gw s') = picker (Main.gw s)
      /\ pickers (Main.gw s') = pickers (Main.gw s)
      /\ Main.monitor s' = Main.monitor s /\ Main.current s' = Main.current s)
  /\ (~ invalid ->
      strategy r' = Config.Strategy newCfg
      /\ length (Admin.backends r') = length (Config.Backends newCfg)
      /\ NoDup (Admin.backends r')
      /\ (forall b, b ∈ Admin.backends r' -> b ∉ dom hs)
      /\ (forall i b c, Admin.backends r' !! i = Some b ->
            Config.Backends newCfg !! i = Some c ->
            exists u, URL.Parse (Config.BackendCfg.URL c) = Some u
              /\ hs' !! b = Some (mkBackend u (Config.BackendCfg.URL c)
                                    (Config.BackendCfg.Weight c) true false 0 0 0))
      /\ Main.rebuilt r' s s'
      /\ Main.current s' = Main.buildChain newCfg).
Proof. apply hotReload_spec. Qed.

(** ** The client address *)

Import Middleware.

Lemma IndexByte_absent s c : ContainsByte c s = false -> IndexByte s c = -1.
Proof.
  induction s as [| d s IH]; cbn; [done |].
  destruct (byte_eqb c d); cbn; [discriminate |]. intros Hs. by rewrite (IH Hs).
Qed.

Lemma IndexByte_range s c : -1 <= IndexByte s c.
Proof.
  induction s as [| d s IH]; cbn; [lia |].
  destruct (byte_eqb c d); [lia |]. destruct (Z.ltb_spec (IndexByte s c) 0); lia.
Qed.

Lemma IndexByte_present s c : ContainsByte c s = true -> 0 <= IndexByte s c.
Proof.
  induction s as [| d s IH]; cbn; [discriminate |].
  destruct (byte_eqb c d); cbn; [lia |]. intros Hs. specialize (IH Hs).
  destruct (Z.ltb_spec (IndexByte s c) 0); lia.
Qed.

Lemma append_nil s : (EmptyString +:+ s)%string = s.
Proof. reflexivity. Qed.

Lemma append_cons d s t : (String d s +:+ t)%string = String d (s +:+ t).
Proof. reflexivity. Qed.

Lemma IndexByte_app s t c :
  ContainsByte c s = false -> IndexByte (s ++ String c t) c = len s.
Proof.
  unfold len. induction s as [| d s IH]; rewrite ?append_nil, ?append_cons;
    cbn [ContainsByte IndexByte String.length].
  - intros _. unfold byte_eqb. by rewrite Ascii.eqb_refl.
  - destruct (byte_eqb c d); cbn [orb]; [discriminate |]. intros Hs. rewrite (IH Hs).
    destruct (Z.ltb_spec (Z.of_nat (String.length s)) 0); lia.
Qed.

Lemma ContainsByte_app c s t :
  ContainsByte c (s ++ t) = ContainsByte c s || ContainsByte c t.
Proof.
  induction s as [| d s IH]; rewrite ?append_nil, ?append_cons; cbn; [done |].
  rewrite IH. by rewrite orb_assoc.
Qed.

Lemma LastIndexByte_absent s c : ContainsByte c s = false -> LastIndexByte s c = -1.
Proof.
  induction s as [| d s IH]; cbn; [done |].
  destruct (byte_eqb c d); cbn; [discriminate |]. intros Hs. by rewrite (IH Hs).
Qed.

Lemma LastIndexByte_app s t c :
  ContainsByte c t = false -> LastIndexByte (s ++ String c t) c = len s.
Proof.
  unfold len. intros Ht.
  induction s as [| d s IH]; rewrite ?append_nil, ?append_cons;
    cbn [LastIndexByte String.length].
  - rewrite (LastIndexByte_absent t c Ht). cbn. unfold byte_eqb. by rewrite Ascii.eqb_refl.
  - rewrite IH. destruct (Z.leb_spec 0 (Z.of_nat (String.length s))); lia.
Qed.

Lemma length_append s t : String.length (s ++ t) = (String.length s + String.length t)%nat.
Proof.
  induction s as [| d s IH]; rewrite ?append_nil, ?append_cons; cbn; [done | by rewrite IH].
Qed.

Lemma substring_all s : substring 0 (String.length s) s = s.
Proof. induction s as [| d s IH]; cbn; [done | by rewrite IH]. Qed.

Lemma substring_prefix s t : substring 0 (String.length s) (s ++ t) = s.
Proof.
  induction s as [| d s IH]; rewrite ?append_nil, ?append_cons; cbn;
    [by destruct t | by rewrite IH].
Qed.

Lemma substring_skip s t n :
  substring (String.length s) n (s ++ t) = substring 0 n t.
Proof.
  induction s as [| d s IH]; rewrite ?append_nil, ?append_cons; cbn; [done | by rewrite IH].
Qed.

Lemma slice_prefix s t : slice (s ++ t) 0 (len s) = s.
Proof.
  unfold slice, len. rewrite Z.sub_0_r, Nat2Z.id. apply substring_prefix.
Qed.

Lemma slice_suffix s t : slice (s ++ t) (len s) (len (s ++ t)) = t.
Proof.
  unfold slice, len. rewrite Nat2Z.id, length_append.
  replace (Z.to_nat (Z.of_nat (String.length s + String.length t) - Z.of_nat (String.length s)))
    with (String.length t) by lia.
  rewrite substring_skip. apply substring_all.
Qed.

Lemma slice_whole s : slice s 0 (len s) = s.
Proof. unfold slice, len. rewrite Z.sub_0_r, Nat2Z.id. apply substring_all. Qed.

Lemma slice_middle a b c : slice (a +:+ b +:+ c) (len a) (len a + len b) = b.
Proof.
  unfold slice, len. rewrite Nat2Z.id.
  replace (Z.to_nat (Z.of_nat (String.length a) + Z.of_nat (String.length b)
                     - Z.of_nat (String.length a)))
    with (String.length b) by lia.
  rewrite substring_skip. apply substring_prefix.
Qed.

Lemma len_append s t : len (s +:+ t) = len s + len t.
Proof. unfold len. rewrite length_append. lia. Qed.

Lemma plain_spec s :
  plain s = true ->
  ContainsByte ":"%char s = false /\ ContainsByte "["%char s = false
  /\ ContainsByte "]"%char s = false.
Proof.
  unfold plain. intros H. apply andb_true_iff in H as [H H3].
  apply andb_true_iff in H as [H1 H2].
  by rewrite negb_true_iff in H1, H2, H3.
Qed.

Lemma unbracketed_spec s :
  unbracketed s = true ->
  ContainsByte "["%char s = false /\ ContainsByte "]"%char s = false.
Proof.
  unfold unbracketed. intros H. apply andb_true_iff in H as [H1 H2].
  by rewrite negb_true_iff in H1, H2.
Qed.

Lemma SplitHostPort_plain host port :
  plain host = true -> plain port = true ->
  SplitHostPort (host +:+ ":" +:+ port) = Some (host, port).
Proof.
  intros Hh Hp.
  destruct (plain_spec host Hh) as (Hc & Hl & Hr).
  destruct (plain_spec port Hp) as (Pc & Pl & Pr).
  unfold SplitHostPort.
  change (host +:+ ":" +:+ port) with (host +:+ String ":"%char port).
  rewrite (LastIndexByte_app host port ":"%char Pc).
  destruct (Z.ltb_spec (len host) 0) as [Hneg | _]; [unfold len in Hneg; lia |].
  assert (Hfirst : match host +:+ String ":"%char port with
                   | String c _ => byte_eqb c "["%char
                   | EmptyString => false
                   end = false).
  { destruct host as [| c host]; [done |]. rewrite append_cons.
    cbn in Hl. apply orb_false_iff in Hl as [Hl _].
    unfold byte_eqb in *. by rewrite Ascii.eqb_sym. }
  rewrite Hfirst. rewrite slice_prefix.
  rewrite (IndexByte_absent host ":"%char Hc). cbn [Z.leb Z.compare].
  rewrite slice_whole.
  rewrite (IndexByte_absent (host +:+ String ":"%char port) "["%char)
    by (rewrite ContainsByte_app, Hl; cbn; by rewrite Pl).
  rewrite (IndexByte_absent (host +:+ String ":"%char port) "]"%char)
    by (rewrite ContainsByte_app, Hr; cbn; by rewrite Pr).
  cbn [Z.leb Z.compare]. do 2 f_equal.
  change (host +:+ String ":"%char port) with (host +:+ ":" +:+ port).
  replace (host +:+ ":" +:+ port) with ((host +:+ ":") +:+ port).
  2:{ clear. induction host as [| c host IH]; [done |]. rewrite !append_cons. by rewrite IH. }
  replace (len host + 1) with (len (host +:+ ":")) by (rewrite len_append; done).
  apply slice_suffix.
Qed.

Lemma append_assoc (a b c : string) : ((a +:+ b) +:+ c)%string = (a +:+ b +:+ c)%string.
Proof.
  induction a as [| d a IH]; [done |]. rewrite !append_cons. by rewrite IH.
Qed.

Lemma SplitHostPort_bracketed host port :
  unbracketed host = true -> plain port = true ->
  SplitHostPort ("[" +:+ host +:+ "]:" +:+ port) = Some (host, port).
Proof.
  intros Hh Hp.
  destruct (unbracketed_spec host Hh) as (Hl & Hr).
  destruct (plain_spec port Hp) as (Pc & Pl & Pr).
  unfold SplitHostPort.
  set (hostport := "[" +:+ host +:+ "]:" +:+ port).
  assert (Hi : LastIndexByte hostport ":"%char = len host + 2).
  { unfold hostport.
    replace ("[" +:+ host +:+ "]:" +:+ port)
      with (("[" +:+ host +:+ "]") +:+ String ":"%char port)
      by (by rewrite !append_assoc).
    rewrite (LastIndexByte_app _ port ":"%char Pc).
    rewrite !len_append. unfold len. cbn. lia. }
  assert (He : IndexByte hostport "]"%char = len host + 1).
  { unfold hostport.
    replace ("[" +:+ host +:+ "]:" +:+ port)
      with (("[" +:+ host) +:+ String "]"%char (":" +:+ port))
      by (by rewrite !append_assoc).
    rewrite IndexByte_app.
    - rewrite len_append. unfold len. cbn. lia.
    - rewrite ContainsByte_app. cbn. exact Hr. }
  assert (Hlen : len hostport = len host + 3 + len port).
  { unfold hostport. rewrite !len_append. unfold len. cbn. lia. }
  assert (Hpos : 0 <= len host /\ 0 <= len port) by (unfold len; lia).
  rewrite Hi, He, Hlen.
  destruct (Z.ltb_spec (len host + 2) 0); [lia |].
  destruct (Z.ltb_spec (len host + 1) 0); [lia |].
  destruct (Z.eqb_spec (len host + 1 + 1) (len host + 3 + len port)); [lia |].
  destruct (Z.eqb_spec (len host + 1 + 1) (len host + 2)); [| lia].
  change (match hostport with
          | String c _ => byte_eqb c "["%char
          | EmptyString => false
          end) with true. cbv iota.
  assert (Hhost : slice hostport 1 (len host + 1) = host).
  { unfold hostport. replace 1 with (len "[") at 1 by done.
    replace (len host + 1) with (len "[" + len host) by (unfold len; cbn; lia).
    apply slice_middle. }
  assert (Hrest : slice hostport 1 (len host + 3 + len port) = host +:+ "]:" +:+ port).
  { rewrite <- Hlen. unfold hostport. replace 1 with (len "[") at 1 by done.
    apply slice_suffix. }
  assert (Htail : slice hostport (len host + 1 + 1) (len host + 3 + len port)
                  = ":" +:+ port).
  { rewrite <- Hlen. unfold hostport.
    replace ("[" +:+ host +:+ "]:" +:+ port)
      with (("[" +:+ host +:+ "]") +:+ ":" +:+ port) by (by rewrite !append_assoc).
    replace (len host + 1 + 1) with (len ("[" +:+ host +:+ "]"))
      by (rewrite !len_append; unfold len; cbn; lia).
    apply slice_suffix. }
  assert (Hport : slice hostport (len host + 2 + 1) (len host + 3 + len port) = port).
  { rewrite <- Hlen. unfold hostport.
    replace ("[" +:+ host +:+ "]:" +:+ port)
      with (("[" +:+ host +:+ "]:") +:+ port) by (by rewrite !append_assoc).
    replace (len host + 2 + 1) with (len ("[" +:+ host +:+ "]:"))
      by (rewrite !len_append; unfold len; cbn; lia).
    apply slice_suffix. }
  rewrite Hhost, Hrest, Htail, Hport.
  rewrite (IndexByte_absent (host +:+ "]:" +:+ port) "["%char)
    by (rewrite ContainsByte_app, Hl, !append_cons, append_nil; cbn; by rewrite Pl).
  rewrite (IndexByte_absent (":" +:+ port) "]"%char)
    by (rewrite !append_cons, append_nil; cbn; by rewrite Pr).
  done.
Qed.

Lemma SplitHostPort_no_colon s : ContainsByte ":"%char s = false -> SplitHostPort s = None.
Proof.
  intros Hs. unfold SplitHostPort. by rewrite (LastIndexByte_absent s ":"%char Hs).
Qed.

(** X24.  The key a client is rate-limited under.  A non-empty
    [X-Real-IP] header is the key, whatever the connection; without one
    the key is the host part of the remote address, so that connections
    from one address share a key whatever their ports, brackets around an
    IPv6 host being taken off; a remote address without a colon is the key
    as it is. *)
Theorem clientIP_key (r : Request) :
  let real := Header.Get (Hdr r) "X-Real-IP" in
  (real <> EmptyString -> clientIP r = real)
  /\ (real = EmptyString -> forall host port,
        plain host = true -> plain port = true ->
        RemoteAddr r = host +:+ ":" +:+ port -> clientIP r = host)
  /\ (real = EmptyString -> forall host port,
        unbracketed host = true -> plain port = true ->
        RemoteAddr r = "[" +:+ host +:+ "]:" +:+ port -> clientIP r = host)
  /\ (real = EmptyString -> ContainsByte ":"%char (RemoteAddr r) = false ->
        clientIP r = RemoteAddr r).
Proof.
  cbv zeta. unfold clientIP.
  destruct (String.eqb_spec (Header.Get (Hdr r) "X-Real-IP") EmptyString) as [Hreal | Hreal];
    cbn [negb]; split_and!; try done.
  - intros _ host port Hh Hp ->. by rewrite SplitHostPort_plain.
  - intros _ host port Hh Hp ->. by rewrite SplitHostPort_bracketed.
  - intros _ Hc. by rewrite SplitHostPort_no_colon.
Qed.

(** ** The rate limiter *)

Section RateLimiterFacts.
Context {Limiter S : Type}.
Variable NewLimiter : float -> Z -> Limiter.
Variable Allow : Limiter -> Z -> bool * Limiter.

(** X25.  One request through the rate limiter concerns the entry of its
    own client and no other: that entry exists afterwards, made with a new
    limiter if the client was unknown, holds what [Allow] left of the
    limiter and the instant of the request; the entries of all other
    clients are as they were.  A refusal is the 429 of [http.Error] and
    never reaches the next handler; an allowed request gets the reply of
    the next handler. *)
Theorem limited_per_client (rps : float) (burst : Z)
        (next : Request -> S -> Response * S) (r : Request) (now at_ : Z)
        (entries : gmap string (@ipEntry Limiter)) (s : S) :
  let ip := clientIP r in
  let l := match entries !! ip with
           | Some e => limiter e
           | None => NewLimiter rps burst
           end in
  let out := limited NewLimiter Allow rps burst next r now at_ entries s in
  let entries' := snd (fst (fst out)) in
  (forall ip', ip' <> ip -> entries' !! ip' = entries !! ip')
  /\ entries' !! ip = Some (mkIpEntry (snd (Allow l at_)) now)
  /\ (fst (Allow l at_) = false ->
      out = (http_Error "too many requests" 429, entries', s, true))
  /\ (fst (Allow l at_) = true ->
      out = (fst (next r s), entries', snd (next r s), false)).
Proof.
  cbv zeta. unfold limited, getLimiter. cbn [limiter].
  set (ip := clientIP r).
  assert (Hl : limiter (match entries !! ip with
                        | Some e => e
                        | None => mkIpEntry (NewLimiter rps burst) 0
                        end)
               = match entries !! ip with
                 | Some e => limiter e
                 | None => NewLimiter rps burst
                 end) by (by destruct (entries !! ip)).
  rewrite Hl.
  destruct (Allow (match entries !! ip with
                   | Some e => limiter e
                   | None => NewLimiter rps burst
                   end) at_) as [ok l'] eqn:HA.
  cbn [fst snd].
  destruct ok; cbn [negb].
  - destruct (next r s) as [resp s'] eqn:Hnext. cbn [fst snd]. split_and!.
    + intros ip' Hne. rewrite lookup_alter_ne by done. by rewrite lookup_insert_ne.
    + rewrite lookup_alter_eq, lookup_insert_eq. done.
    + discriminate.
    + done.
  - cbn [fst snd]. split_and!.
    + intros ip' Hne. rewrite lookup_alter_ne by done. by rewrite lookup_insert_ne.
    + rewrite lookup_alter_eq, lookup_insert_eq. done.
    + done.
    + discriminate.
Qed.

(** X26.  A round of the cleanup deletes exactly the entries last seen
    more than ten minutes before it runs; every other entry, and so the
    limiter of every client seen in the last ten minutes, is kept as it
    is. *)
Theorem cleanup_removes_idle (now : Z) (entries : gmap string (@ipEntry Limiter)) :
  (forall ip, cleanup now entries !! ip
              = match entries !! ip with
                | Some e => if Time.Sub now (lastSeen e) >? 10 * Time.Minute
                            then None else Some e
                | None => None
                end)
  /\ (forall ip e, entries !! ip = Some e ->
        0 <= now - lastSeen e <= 10 * Time.Minute ->
        cleanup now entries !! ip = Some e).
Proof.
  assert (Hgen : forall (acc m : gmap string (@ipEntry Limiter)) ip,
    map_fold (fun ip e acc =>
                if Time.Sub now (lastSeen e) >? 10 * Time.Minute
                then delete ip acc else acc) acc m !! ip
    = match m !! ip with
      | Some e => if Time.Sub now (lastSeen e) >? 10 * Time.Minute
                  then None else acc !! ip
      | None => acc !! ip
      end).
  { intros acc m.
    apply (map_fold_weak_ind
             (fun r m => forall ip, r !! ip
                = match m !! ip with
                  | Some e => if Time.Sub now (lastSeen e) >? 10 * Time.Minute
                              then None else acc !! ip
                  | None => acc !! ip
                  end)).
    - intros ip. by rewrite lookup_empty.
    - intros i x m0 r Hnone IH ip.
      destruct (decide (ip = i)) as [-> | Hne].
      + rewrite lookup_insert_eq.
        destruct (Time.Sub now (lastSeen x) >? 10 * Time.Minute).
        * apply lookup_delete_eq.
        * rewrite IH. by rewrite Hnone.
      + rewrite lookup_insert_ne by done.
        destruct (Time.Sub now (lastSeen x) >? 10 * Time.Minute).
        * rewrite lookup_delete_ne by done. apply IH.
        * apply IH. }
  assert (Hall : forall ip, cleanup now entries !! ip
              = match entries !! ip with
                | Some e => if Time.Sub now (lastSeen e) >? 10 * Time.Minute
                            then None else Some e
                | None => None
                end).
  { intros ip. unfold cleanup. rewrite Hgen. by destruct (entries !! ip). }
  split; [exact Hall |].
  intros ip e He Hrange. rewrite Hall, He.
  replace (Time.Sub now (lastSeen e) >? 10 * Time.Minute) with false; [done |].
  unfold Time.Sub, Time.Minute, Time.Second, min_i64, max_i64 in *. lia.
Qed.

End RateLimiterFacts.

(** ** The response recorder *)

Section RecorderFacts.
Context {W : Type}.
Variable innerWriteHeader : Z -> W -> W.
Variable innerWrite : string -> W -> Z * bool * W.

Lemma serve_spec calls : forall (rr : @responseRecorder W),
  in_i64 (bytes rr) ->
  let out := serve innerWriteHeader innerWrite calls rr in
  let inner := serveInner innerWriteHeader innerWrite calls (ResponseWriter rr) in
  ResponseWriter out = snd inner
  /\ status out = lastStatus (status rr) calls
  /\ bytes out = wrap_int (bytes rr + sumZ (fst inner)).
Proof.
  induction calls as [| c calls IH]; intros rr Hb; cbv zeta.
  - cbn. unfold wrap_int. rewrite Z.add_0_r, wrap_i64_id by done. done.
  - destruct c as [code | b]; cbn [serve serveInner lastStatus].
    + specialize (IH (WriteHeader innerWriteHeader code rr) Hb). cbv zeta in IH.
      cbn [WriteHeader ResponseWriter status bytes] in IH. exact IH.
    + unfold Write.
      destruct (innerWrite b (ResponseWriter rr)) as [[n err] w1] eqn:Hw. cbn [snd].
      specialize (IH (mkRecorder w1 (status rr) (wrap_int (bytes rr + n)))
                     (wrap_i64_range _)).
      cbv zeta in IH. cbn [ResponseWriter status bytes] in IH.
      destruct (serveInner innerWriteHeader innerWrite calls w1) as [ns w2].
      cbn [fst snd sumZ] in *. destruct IH as (-> & -> & ->).
      split_and!; [done | done |]. unfold wrap_int. rewrite wrap_i64_add_l. f_equal. lia.
Qed.

(** X27.  The recorder that [Logger] wraps around the response writer is
    transparent: the wrapped writer receives the calls of the handler
    unchanged and in order; the status recorded is the code of the last
    [WriteHeader], 200 when the handler calls none; the byte count
    recorded is the sum of the counts that the wrapped [Write] returned. *)
Theorem recorder_is_transparent (calls : list call) (w : W) :
  let out := serve innerWriteHeader innerWrite calls (mkRecorder w 200 0) in
  let inner := serveInner innerWriteHeader innerWrite calls w in
  ResponseWriter out = snd inner
  /\ status out = lastStatus 200 calls
  /\ bytes out = wrap_int (sumZ (fst inner)).
Proof.
  apply (serve_spec calls (mkRecorder w 200 0)).
  unfold in_i64, min_i64, max_i64. cbn. lia.
Qed.

End RecorderFacts.

(** ** Request identifiers *)

Lemma hex_round_trip (v : byte) :
  URL.unhex2 (hexdigit (N.shiftr (N_of_ascii v) 4)) (hexdigit (N.land (N_of_ascii v) 15)) = v.
Proof.
  destruct v as [[] [] [] [] [] [] [] []]; reflexivity.
Qed.

Lemma hex_digits (v : byte) :
  one_of hextable (hexdigit (N.shiftr (N_of_ascii v) 4)) = true
  /\ one_of hextable (hexdigit (N.land (N_of_ascii v) 15)) = true.
Proof.
  destruct v as [[] [] [] [] [] [] [] []]; split; reflexivity.
Qed.

Lemma EncodeToString_spec (src : list byte) :
  String.length (EncodeToString src) = (2 * length src)%nat
  /\ all_bytes (one_of hextable) (EncodeToString src) = true.
Proof.
  induction src as [| v src [IHl IHa]]; [done |]. cbn [EncodeToString String.length all_bytes].
  destruct (hex_digits v) as [-> ->]. rewrite IHl, IHa. cbn [length]. split; [lia | done].
Qed.

Lemma EncodeToString_inj (src1 src2 : list byte) :
  EncodeToString src1 = EncodeToString src2 -> src1 = src2.
Proof.
  revert src2. induction src1 as [| v1 src1 IH]; intros [| v2 src2]; cbn [EncodeToString];
    try done.
  intros Heq. injection Heq as Hhi Hlo Hrest.
  f_equal; [| by apply IH].
  rewrite <- (hex_round_trip v1), <- (hex_round_trip v2). by rewrite Hhi, Hlo.
Qed.

(** X28.  A request identifier is sixteen lowercase hexadecimal digits,
    and two identifiers are equal only when the eight random bytes they
    were made from are. *)
Theorem newRequestID_format (random1 random2 : nat -> byte) :
  String.length (newRequestID random1) = 16%nat
  /\ all_bytes (one_of hextable) (newRequestID random1) = true
  /\ (newRequestID random1 = newRequestID random2 ->
      forall i, (i < 8)%nat -> random1 i = random2 i).
Proof.
  unfold newRequestID.
  destruct (EncodeToString_spec (random1 <$> seq 0 8)) as [Hl Ha].
  split_and!; [by rewrite Hl | done |].
  intros Heq i Hi. apply EncodeToString_inj in Heq.
  assert (Hi1 : (random1 <$> seq 0 8) !! i = Some (random1 i)).
  { rewrite list_lookup_fmap, lookup_seq_lt by done. done. }
  rewrite Heq, list_lookup_fmap, lookup_seq_lt in Hi1 by done.
  cbn in Hi1. by injection Hi1.
Qed.

(** ** Weights of the registered backends *)

Lemma Load_weights (read : bool) (decoded : option Config.t) :
  let cfg := match Config.Load read decoded with
             | Config.Ok c => c
             | Config.Fail _ => Config.Default
             end in
  Forall (fun b => 1 <= Config.BackendCfg.Weight b) (Config.Backends cfg).
Proof.
  cbv zeta. unfold Config.Load.
  assert (Hdef : Forall (fun b => 1 <= Config.BackendCfg.Weight b)
                        (Config.Backends Config.Default)).
  { cbn. constructor; [cbn; lia | constructor]. }
  destruct read; cbn [negb]; [| exact Hdef].
  destruct (unmarshal_cases decoded)
    as [[_ ->] | [(cfg & _ & _ & ->) | [(cfg & _ & _ & _ & ->)
                                       | (cfg & j & b & _ & _ & _ & _ & ->)]]];
    try exact Hdef.
  cbn [Config.withBackends Config.Backends]. apply Forall_fmap, Forall_true.
  intros b. cbn. apply atLeastOne_ok.
Qed.

(** X29.  On every way into the registry the weights are at least one:
    the list [main] starts with, from the file or from the default
    configuration; the list a reload of the file puts in its place; the
    backend an [Add] through the dashboard appends; and what [Remove],
    [Block] and [Unblock] through the dashboard leave. *)
Theorem registered_weights_at_least_one :
  (forall ParseDuration read decoded (h : heap) reg s,
     Main.startup ParseDuration (Config.Load read decoded) h = Some (reg, s) ->
     Main.weighted (Proxy.backends (Main.gw s)) reg)
  /\ (forall decoded r s,
        allocated (Proxy.backends (Main.gw s)) r ->
        Main.weighted (Proxy.backends (Main.gw s)) r ->
        Main.weighted (Proxy.backends (Main.gw (snd (Main.reload decoded r s))))
                      (fst (Main.reload decoded r s)))
  /\ (forall body r (h : heap),
        allocated h r -> Main.weighted h r ->
        Main.weighted (store (handleAddBackend body r h))
                      (registry (handleAddBackend body r h)))
  /\ (forall u r (h : heap),
        Main.weighted h r ->
        Main.weighted (store (handleRemoveBackend u r h))
                      (registry (handleRemoveBackend u r h))
        /\ Main.weighted (store (handleBlock u r h)) (registry (handleBlock u r h))
        /\ Main.weighted (store (handleUnblock u r h)) (registry (handleUnblock u r h))).
Proof.
  split_and!.
  - intros PD read decoded h reg s Hstart.
    pose proof (Load_weights read decoded) as Hw. cbv zeta in Hw.
    destruct (startup_spec PD _ h reg s Hstart)
      as (_ & _ & _ & Hlen & _ & _ & Hval & _).
    intros b Hb. apply list_elem_of_lookup in Hb as [i Hi].
    destruct (lookup_lt_is_Some_2
                (Config.Backends match Config.Load read decoded with
                                 | Config.Ok c => c
                                 | Config.Fail _ => Config.Default
                                 end) i) as [c Hc].
    { rewrite <- Hlen. by apply lookup_lt_Some in Hi. }
    destruct (Hval i b c Hi Hc) as [_ ->].
    rewrite Forall_forall in Hw. apply Hw. apply list_elem_of_lookup. by eexists.
  - intros decoded r s Hwf Hw. unfold Main.reload, Config.Watch.
    destruct (unmarshal_cases decoded)
      as [[_ ->] | [(cfg & _ & _ & ->) | [(cfg & _ & _ & Hurls & ->)
                                         | (cfg & j & b & _ & _ & _ & _ & ->)]]];
      cbn [snd fst]; try exact Hw.
    set (cfg' := Config.withBackends (Config.atLeastOne <$> Config.Backends cfg) cfg).
    destruct (hotReload_spec cfg' r s) as (Hold & Hbad & Hgood).
    destruct (decide (Exists (fun c => URL.Parse (Config.BackendCfg.URL c) = None)
                             (Config.Backends cfg'))) as [Hinv | Hval].
    + apply Exists_exists in Hinv. destruct (Hbad Hinv) as (-> & _).
      intros b Hb. specialize (Hold b (Hwf b Hb)).
      unfold deref, lookup_total, map_lookup_total. rewrite Hold. by apply Hw.
    + rewrite Exists_exists in Hval. destruct (Hgood Hval) as (_ & Hlen & _ & _ & Hnew & _).
      intros b Hb. apply list_elem_of_lookup in Hb as [i Hi].
      destruct (lookup_lt_is_Some_2 (Config.Backends cfg') i) as [c Hc].
      { rewrite <- Hlen. by apply lookup_lt_Some in Hi. }
      destruct (Hnew i b c Hi Hc) as (u & _ & Hlook).
      unfold deref. rewrite (lookup_total_correct _ _ _ Hlook). cbn [Weight].
      unfold cfg' in Hc. cbn [Config.withBackends Config.Backends] in Hc.
      apply list_lookup_fmap_Some in Hc as (c0 & -> & _). apply atLeastOne_ok.
  - intros body r h Hwf Hw. unfold handleAddBackend.
    destruct body as [b |]; [| exact Hw].
    destruct (String.eqb (AddBody.URL b) EmptyString); [exact Hw |].
    set (weight := if AddBody.Weight b <=? 0 then 1 else AddBody.Weight b).
    assert (Hweight : 1 <= weight)
      by (unfold weight; destruct (Z.leb_spec (AddBody.Weight b) 0); lia).
    destruct (Add_eq h r (AddBody.URL b) weight Hwf)
      as [[_ ->] | (u & _ & Hfresh & _ & Hsame & [[_ ->] | [_ ->]])];
      cbn [negb store registry].
    + exact Hw.
    + intros x Hx. rewrite (Hsame x Hx). by apply Hw.
    + intros x Hx. cbn [Admin.backends] in Hx. apply elem_of_app in Hx as [Hx | Hx].
      * rewrite (Hsame x Hx). by apply Hw.
      * apply list_elem_of_singleton in Hx as ->. unfold deref.
        by rewrite lookup_total_insert_eq.
  - intros u r h Hw. unfold handleRemoveBackend, handleBlock, handleUnblock, Block, Unblock.
    destruct (String.eqb u EmptyString); [by split_and! |].
    split_and!.
    + destruct (Remove_eq h r u) as [[_ ->] | (j & b & _ & _ & _ & ->)];
        cbn [negb store registry]; [exact Hw |].
      intros x Hx. cbn [Admin.backends] in Hx. apply Hw.
      by apply list_elem_of_delete_inv in Hx.
    + destruct (setBlockedAt_eq true h r u) as [[_ ->] | (j & b & _ & _ & _ & ->)];
        cbn [negb store registry]; [exact Hw |].
      intros x Hx. unfold SetBlocked. rewrite (modify_preserves Weight); [by apply Hw |].
      by intros [].
    + destruct (setBlockedAt_eq false h r u) as [[_ ->] | (j & b & _ & _ & _ & ->)];
        cbn [negb store registry]; [exact Hw |].
      intros x Hx. unfold SetBlocked. rewrite (modify_preserves Weight); [by apply Hw |].
      by intros [].
Qed.

(** ** Weighted round robin over equal weights, against round robin *)

Import Rotation.

Section EqualWeights.
Variables (h : heap) (wt : Z) (bs : list loc).
Hypothesis Hall : forall b, b ∈ bs -> IsHealthy h b = true /\ Weight (deref h b) = wt.
Hypothesis Hwt : 1 <= wt.

Lemma turn_lookup r j :
  turn wt bs r !! j
  = (fun b => mkEntry b (Z.of_nat r * wt
                         - (if (j <? r)%nat then Z.of_nat (length bs) * wt else 0)))
      <$> bs !! j.
Proof. unfold turn. by rewrite list_lookup_imap. Qed.

Lemma turn_backends r : backend <$> turn wt bs r = bs.
Proof.
  apply list_eq. intros j. rewrite list_lookup_fmap, turn_lookup.
  by destruct (bs !! j).
Qed.

Lemma turn_zero : turn wt bs 0 = entries (NewWeightedRoundRobin bs).
Proof.
  apply list_eq. intros j. rewrite turn_lookup. cbn [NewWeightedRoundRobin entries].
  change (map ?f ?l) with (f <$> l). rewrite list_lookup_fmap.
  destruct (bs !! j); [| done]. cbn. do 2 f_equal.
Qed.

Lemma turn_active r e : e ∈ turn wt bs r -> active h e = true /\ weight_of h e = wt.
Proof.
  intros He. assert (Hb : backend e ∈ bs).
  { rewrite <- (turn_backends r). apply list_elem_of_fmap. by exists e. }
  apply Hall in Hb. done.
Qed.

Lemma turn_totalWeight r : totalWeight h (turn wt bs r) = Z.of_nat (length bs) * wt.
Proof.
  rewrite totalWeight_backends, turn_backends. clear r.
  induction bs as [| b l IH]; [done |].
  rewrite fmap_cons. cbn [sumZ length].
  destruct (Hall b) as [-> ->]; [apply elem_of_cons; by left |].
  rewrite IH; [lia |]. intros x Hx. apply Hall, elem_of_cons. by right.
Qed.

Hypothesis Hmax : Z.of_nat (length bs) * (Z.of_nat (length bs) * wt) <= max_i64.

Lemma turn_fits r : fits h (turn wt bs r).
Proof.
  split.
  - apply Forall_forall. intros e He _. apply turn_active in He as [_ ->]. done.
  - rewrite turn_totalWeight. unfold turn. by rewrite length_imap.
Qed.

Lemma turn_raisedZ r j :
  (raisedZ h <$> turn wt bs r) !! j
  = (fun b => mkEntry b (Z.of_nat (S r) * wt
                         - (if (j <? r)%nat then Z.of_nat (length bs) * wt else 0)))
      <$> bs !! j.
Proof.
  rewrite list_lookup_fmap, turn_lookup.
  destruct (bs !! j) as [b |] eqn:Hj; [| done]. cbn [fmap option_fmap option_map].
  f_equal. set (e := mkEntry b _).
  assert (He : e ∈ turn wt bs r).
  { apply list_elem_of_lookup. exists j. by rewrite turn_lookup, Hj. }
  destruct (turn_active r e He) as [Ha Hw]. unfold raisedZ. rewrite Ha, Hw.
  unfold e. cbn [backend currentWeight]. f_equal. lia.
Qed.

Lemma turn_raised r :
  balanced h (turn wt bs r) -> raised h <$> turn wt bs r = raisedZ h <$> turn wt bs r.
Proof.
  intros Hbal. apply list_fmap_ext. intros j e He.
  apply (raised_exact h _ e Hbal (turn_fits r)). apply list_elem_of_lookup. by exists j.
Qed.

Lemma turn_step r h0 :
  (r < length bs)%nat -> balanced h (turn wt bs r) -> same_view h h0 ->
  exists b h1,
    bs !! r = Some b
    /\ Next (mkWeightedRoundRobin (turn wt bs r)) h0
       = (Some b, mkWeightedRoundRobin (turn wt bs (S r mod length bs)), h1)
    /\ same_view h h1
    /\ balanced h (turn wt bs (S r mod length bs)).
Proof.
  intros Hr Hbal Hv.
  destruct (lookup_lt_is_Some_2 bs r Hr) as [b Hb].
  set (w := mkWeightedRoundRobin (turn wt bs r)).
  destruct (Next_same_view h h0 Hv w) as [Heq Hv1].
  destruct (WeightedRoundRobin_Next_spec w h) as [_ Hsome].
  assert (Hat : forall j x, bs !! j = Some x -> exists e,
            turn wt bs r !! j = Some e /\ backend e = x /\ active h e = true).
  { intros j x Hj. eexists. rewrite turn_lookup, Hj. split; [done |]. split; [done |].
    unfold active. cbn [backend]. apply Hall. apply list_elem_of_lookup. by exists j. }
  destruct (Hat r b Hb) as (er & Her & Hber & Haer).
  destruct Hsome as (r' & e & Hr' & Hact & Hbest & HNext).
  { exists er. split; [apply list_elem_of_lookup; by exists r | done]. }
  cbn [w entries] in Hr', Hbest, HNext.
  assert (Hcw : forall j x, bs !! j = Some x ->
            cw_at (raised h <$> turn wt bs r) j
            = Z.of_nat (S r) * wt - (if (j <? r)%nat then Z.of_nat (length bs) * wt else 0)).
  { intros j x Hj. unfold cw_at. rewrite (turn_raised r Hbal).
    erewrite list_lookup_total_correct; [| by rewrite turn_raisedZ, Hj]. done. }
  assert (Hb' : exists b', bs !! r' = Some b' /\ backend e = b').
  { rewrite turn_lookup in Hr'. destruct (bs !! r') as [b' |]; [| done].
    exists b'. split; [done |]. cbn in Hr'. by injection Hr' as <-. }
  destruct Hb' as (b' & Hb' & Hbe).
  assert (HN : 1 <= Z.of_nat (length bs)) by lia.
  assert (r' = r) as ->.
  { destruct (Hbest r er Her Haer) as [Hle Hlt].
    rewrite (Hcw r b Hb), (Hcw r' b' Hb') in Hle, Hlt.
    destruct (Nat.ltb_spec r r), (Nat.ltb_spec r' r); try lia; nia. }
  assert (b' = b) as -> by congruence.
  rewrite HNext in Heq.
  destruct (Next w h0) as [[r0 w1] h1]. cbn [fst snd] in Heq, Hv1.
  injection Heq as -> ->.
  destruct (exact_step h (turn wt bs r) r e Hbal (turn_fits r) Hr' Hact
              (fun j e' Hj Ha => proj1 (Hbest j e' Hj Ha)))
    as (Hes2 & _ & _ & Hbal2 & _).
  rewrite turn_totalWeight in Hes2.
  assert (Hnext : alter (add_currentWeight (- total_from h 0 (turn wt bs r))) r
                    (raised h <$> turn wt bs r)
                  = turn wt bs (S r mod length bs)).
  { rewrite Hes2. apply list_eq. intros j.
    assert (Hmod : (S r mod length bs)%nat = if decide (S r < length bs)%nat then S r else 0%nat).
    { destruct (decide (S r < length bs)%nat); [by apply Nat.mod_small |].
      replace (S r) with (length bs) by lia. apply Nat.Div0.mod_same. }
    rewrite turn_lookup.
    destruct (decide (j = r)) as [-> | Hne].
    - rewrite list_lookup_alter_eq, turn_raisedZ, Hb.
      cbn [fmap option_fmap option_map backend currentWeight]. do 2 f_equal.
      rewrite Hmod. destruct (decide (S r < length bs)%nat).
      + destruct (Nat.ltb_spec r r), (Nat.ltb_spec r (S r)); lia.
      + replace (length bs) with (S r) by lia.
        destruct (Nat.ltb_spec r r), (Nat.ltb_spec r 0); lia.
    - rewrite list_lookup_alter_ne, turn_raisedZ by done.
      destruct (bs !! j) as [x |] eqn:Hj; [| done].
      cbn [fmap option_fmap option_map]. do 2 f_equal.
      apply lookup_lt_Some in Hj.
      rewrite Hmod. destruct (decide (S r < length bs)%nat).
      + destruct (Nat.ltb_spec j r), (Nat.ltb_spec j (S r)); lia.
      + replace (length bs) with (S r) in * by lia.
        destruct (Nat.ltb_spec j r), (Nat.ltb_spec j 0); lia. }
  exists b, h1. rewrite <- Hnext. split_and!; try done.
  by rewrite Hbe.
Qed.

End EqualWeights.

Lemma turn_run (h : heap) (wt : Z) (bs : list loc) :
  (forall b, b ∈ bs -> IsHealthy h b = true /\ Weight (deref h b) = wt) ->
  1 <= wt ->
  Z.of_nat (length bs) * (Z.of_nat (length bs) * wt) <= max_i64 ->
  forall (n r : nat) (h0 : heap),
    (r < length bs)%nat -> balanced h (turn wt bs r) -> same_view h h0 ->
    results n (mkWeightedRoundRobin (turn wt bs r)) h0
    = (fun i => bs !! ((r + i) mod length bs)%nat) <$> seq 0 n.
Proof.
  intros Hall Hwt Hmax. induction n as [| n IH]; intros r h0 Hr Hbal Hv; [done |].
  destruct (turn_step h wt bs Hall Hwt Hmax r h0 Hr Hbal Hv)
    as (b & h1 & Hb & HNext & Hv1 & Hbal1).
  assert (Hr1 : (S r mod length bs < length bs)%nat) by (apply Nat.mod_upper_bound; lia).
  specialize (IH _ h1 Hr1 Hbal1 Hv1).
  unfold results in *. cbn [calls]. rewrite HNext.
  destruct (calls n _ h1) as [[rs p2] h2]. cbn [fst] in *. subst rs.
  cbn [seq]. rewrite fmap_cons. f_equal.
  - rewrite Nat.add_0_r, Nat.mod_small by done. done.
  - rewrite <- fmap_S_seq, <- list_fmap_compose. apply list_fmap_ext.
    intros _ i _. cbn. f_equal.
    rewrite Nat.Div0.add_mod_idemp_l. f_equal. lia.
Qed.

Lemma rotation_nil (n : nat) : rotation [] n = replicate n None.
Proof.
  unfold rotation. generalize 0%nat.
  induction n as [| n IH]; intros s; [done |]. cbn [seq replicate]. rewrite fmap_cons.
  f_equal. apply IH.
Qed.

Lemma RoundRobin_calls_none (n : nat) (r : RoundRobin) (h : heap) :
  healthySubset h (rr_backends r) = [] ->
  results n r h = replicate n None.
Proof.
  intros Hnil. unfold results. induction n as [| n IH]; [done |].
  cbn [calls]. change (Next r h) with (RoundRobin_Next r h).
  unfold RoundRobin_Next. rewrite Hnil. cbn [length Nat.eqb].
  destruct (calls n r h) as [[rs p2] h2]. cbn [fst] in *. by rewrite IH.
Qed.

Lemma healthySubset_all (h : heap) bs :
  (forall b, b ∈ bs -> IsHealthy h b = true /\ IsBlocked h b = false) ->
  healthySubset h bs = bs.
Proof.
  induction bs as [| a bs IH]; intros Hall; [done |]. cbn [healthySubset].
  destruct (Hall a) as [-> ->]; [apply elem_of_cons; by left |]. cbn [andb negb].
  f_equal. apply IH. intros b Hb. apply Hall, elem_of_cons. by right.
Qed.

Lemma New_balanced (h : heap) (wt : Z) (bs : list loc) :
  (forall b, b ∈ bs -> IsHealthy h b = true /\ Weight (deref h b) = wt) ->
  1 <= wt -> bs <> [] ->
  balanced h (turn wt bs 0).
Proof.
  intros Hall Hwt Hne.
  assert (Hzero : forall e, e ∈ turn wt bs 0 -> currentWeight e = 0).
  { intros e He. apply list_elem_of_lookup in He as [j Hj].
    rewrite turn_lookup in Hj. destruct (bs !! j); [| done].
    cbn in Hj. by injection Hj as <-. }
  assert (HT : 1 <= totalWeight h (turn wt bs 0)).
  { rewrite (turn_totalWeight h wt bs Hall). destruct bs; [done |]. cbn [length]. nia. }
  split.
  - apply Z.le_antisymm.
    + apply activeSum_nonpos, Forall_forall. intros e He _. rewrite (Hzero e He). lia.
    + apply activeSum_nonneg, Forall_forall. intros e He _. rewrite (Hzero e He). lia.
  - apply Forall_forall. intros e He _. rewrite (Hzero e He). lia.
Qed.

(** X30.  Over backends that are all healthy and all of one weight, a
    new weighted round robin is a plain rotation: its calls return the
    backends in the order of the list, over and over, whatever the weight;
    and when none of the backends is blocked, this is call for call what
    a new round robin over the list returns. *)
Theorem WeightedRoundRobin_equal_weights (bs : list loc) (h : heap) (wt : Z) (n : nat) :
  (forall b, b ∈ bs -> IsHealthy h b = true /\ Weight (deref h b) = wt) ->
  1 <= wt ->
  Z.of_nat (length bs) * (Z.of_nat (length bs) * wt) <= max_i64 ->
  results n (NewWeightedRoundRobin bs) h = rotation bs n
  /\ ((forall b, b ∈ bs -> IsBlocked h b = false) ->
      Z.of_nat n <= 2 ^ 64 ->
      results n (NewRoundRobin bs) h = results n (NewWeightedRoundRobin bs) h).
Proof.
  intros Hall Hwt Hmax.
  assert (Hw : results n (NewWeightedRoundRobin bs) h = rotation bs n).
  { destruct (decide (bs = [])) as [-> | Hne].
    - rewrite rotation_nil. unfold results.
      rewrite calls_none; [done |]. intros e He. by apply elem_of_nil in He.
    - replace (NewWeightedRoundRobin bs) with (mkWeightedRoundRobin (turn wt bs 0)).
      + rewrite (turn_run h wt bs Hall Hwt Hmax n 0 h).
        * done.
        * destruct bs; [done | cbn [length]; lia].
        * by apply New_balanced.
        * apply same_view_refl.
      + rewrite turn_zero. done. }
  split; [done |]. intros Hnb Hn. rewrite Hw.
  assert (Hsub : healthySubset h bs = bs).
  { apply healthySubset_all. intros b Hb. split; [by apply Hall | by apply Hnb]. }
  destruct (decide (bs = [])) as [-> | Hne].
  { rewrite rotation_nil. by apply RoundRobin_calls_none. }
  destruct (RoundRobin_calls n (NewRoundRobin bs) h) as (r' & h' & Hcalls & _).
  - cbn [NewRoundRobin rr_backends]. by rewrite Hsub.
  - cbn. lia.
  - cbn [NewRoundRobin rr_counter]. lia.
  - unfold results. rewrite Hcalls. cbn [fst NewRoundRobin rr_backends rr_counter].
    rewrite Hsub. unfold rotation. apply list_fmap_ext. intros _ i _.
    assert (Hlen : (0 < length bs)%nat) by (destruct bs; [done | cbn [length]; lia]).
    rewrite Z.add_0_l, <- Nat2Z.inj_mod, Nat2Z.id.
    symmetry. apply list_lookup_lookup_total_lt. apply Nat.mod_upper_bound. lia.
Qed.

(** * The theorems at concrete inputs *)

(** A demoted backend answering 204 is healthy again, and the recovery is
    logged. *)
Lemma probe_sets_healthy_witness :
  IsHealthy demotedHeap 1%nat = false
  /\ IsHealthy (snd (probe (mkConfig "/healthz") answers204 1%nat demotedHeap)) 1%nat = true
  /\ In (Info "health: backend recovered" "http://b1:80")
        (fst (probe (mkConfig "/healthz") answers204 1%nat demotedHeap)).
Proof.
  split; [reflexivity |].
  destruct (probe_sets_healthy (mkConfig "/healthz") answers204 1%nat demotedHeap
              _ _ (surjective_pairing _)) as [Hok _].
  destruct (Hok 204 eq_refl ltac:(lia)) as (_ & Hset & Hlog).
  split; [exact Hset |]. apply Hlog. reflexivity.
Defined.

(** A failed dispatch to backend 1 demotes it and counts one error. *)
Lemma errorHandler_demotes_backend_witness :
  backendFromCtx inflightRequest = Some 1%nat
  /\ IsHealthy (Proxy.backends (snd (errorHandler inflightRequest swapWorld))) 1%nat = false
  /\ TotalErrors (Proxy.backends (snd (errorHandler inflightRequest swapWorld))) 1%nat = 1
  /\ StatusCode (fst (errorHandler inflightRequest swapWorld)) = 502.
Proof.
  split; [reflexivity |].
  destruct (errorHandler_demotes_backend inflightRequest swapWorld 1%nat _ _
              eq_refl (surjective_pairing _))
    as (_ & _ & Hh & _ & _ & _ & Herr & Hcode & _).
  split; [exact Hh |]. split; [| exact Hcode].
  apply Herr. vm_compute. split; discriminate.
Defined.

(** After a swap to picker 2, the completion of a request served by
    backend 1 calls [Done] on picker 2. *)
Lemma Done_called_on_current_picker_witness :
  backendFromCtx inflightRequest = Some 1%nat
  /\ trace (modifyResponse inflightRequest (UpdatePicker 2%nat swapWorld))
     = [CallDone 2%nat 1%nat].
Proof.
  split; [reflexivity |].
  exact (proj1 (Done_called_on_current_picker inflightRequest swapWorld 2%nat 1%nat
                  eq_refl)).
Defined.

(** A forwarded request with one prior hop gets the client appended. *)
Lemma director_forwarding_headers_witness :
  fst (callNext (picker swapWorld) swapWorld) = Some 1%nat
  /\ Hdr (fst (director (requestWith {[ "X-Forwarded-For"%string := ["10.9.9.9"%string] ]})
                        swapWorld)) !! "X-Forwarded-For"%string
     = Some ["10.9.9.9, 10.0.0.7:51234"%string].
Proof.
  split; [reflexivity |].
  exact (proj1 (director_forwarding_headers
                  (requestWith {[ "X-Forwarded-For"%string := ["10.9.9.9"%string] ]})
                  swapWorld 1%nat eq_refl)).
Defined.

(** A URL that starts with a colon has no scheme to parse: no backend. *)
Lemma NewBackend_fails_iff_Parse_fails_witness :
  URL.Parse ":8080" = None /\ NewBackend ":8080" 1 twoHeap = None.
Proof.
  split; [reflexivity |].
  apply (proj1 (NewBackend_fails_iff_Parse_fails ":8080" 1 twoHeap)). reflexivity.
Defined.

Lemma NoDup_two : NoDup [1%nat; 2%nat].
Proof.
  apply NoDup_cons. split; [| apply NoDup_singleton].
  intros Hin. apply list_elem_of_singleton in Hin. discriminate Hin.
Defined.

Lemma NoDup_three : NoDup [1%nat; 2%nat; 3%nat].
Proof.
  apply NoDup_cons. split.
  - intros Hin. apply elem_of_cons in Hin as [Hin | Hin]; [discriminate Hin |].
    apply list_elem_of_singleton in Hin. discriminate Hin.
  - apply NoDup_cons. split; [| apply NoDup_singleton].
    intros Hin. apply list_elem_of_singleton in Hin. discriminate Hin.
Defined.

(** Weights 3 and 1: calls 6 to 9 go three times to the first backend and
    once to the second. *)
Lemma WeightedRoundRobin_window_witness :
  listWeight twoHeap [1%nat; 2%nat] = 4
  /\ selected 1%nat (window 5 4 (NewWeightedRoundRobin [1%nat; 2%nat]) twoHeap) = 3%nat
  /\ selected 2%nat (window 5 4 (NewWeightedRoundRobin [1%nat; 2%nat]) twoHeap) = 1%nat.
Proof.
  split; [reflexivity |].
  assert (Hfree : forall b, b ∈ [1%nat; 2%nat] -> IsBlocked twoHeap b = false).
  { intros b Hb. apply elem_of_cons in Hb as [-> | Hb]; [reflexivity |].
    apply list_elem_of_singleton in Hb as ->. reflexivity. }
  assert (Hw : forall b, b ∈ [1%nat; 2%nat] ->
                 IsHealthy twoHeap b && negb (IsBlocked twoHeap b) = true ->
                 1 <= Weight (deref twoHeap b)).
  { intros b Hb _. apply elem_of_cons in Hb as [-> | Hb]; [vm_compute; discriminate |].
    apply list_elem_of_singleton in Hb as ->. vm_compute; discriminate. }
  assert (Hmax : Z.of_nat (length [1%nat; 2%nat])
                 * listWeight twoHeap
                     (List.filter (fun b => IsHealthy twoHeap b && negb (IsBlocked twoHeap b))
                        [1%nat; 2%nat])
                 <= max_i64) by (vm_compute; discriminate).
  pose proof (proj2 (WeightedRoundRobin_window [1%nat; 2%nat] twoHeap Hfree)
                NoDup_two Hw Hmax 5%nat) as Hwin.
  split.
  - apply (Hwin 1%nat); [apply elem_of_cons; by left | reflexivity].
  - apply (Hwin 2%nat); [apply elem_of_cons; right; apply elem_of_cons; by left | reflexivity].
Defined.

(** Three backends, counter at 7: the next six calls reach each twice. *)
Lemma RoundRobin_rotation_witness :
  let h := SetBlocked 2%nat true threeHeap in
  List.filter (fun b => IsHealthy h b && negb (IsBlocked h b)) [1%nat; 2%nat; 3%nat]
  = [1%nat; 3%nat]
  /\ selected 3%nat (results 6 (mkRoundRobin [1%nat; 2%nat; 3%nat] 7) h) = 3%nat.
Proof.
  split; [reflexivity |].
  apply (proj2 (proj2 (proj2 (proj2
           (RoundRobin_rotation (mkRoundRobin [1%nat; 2%nat; 3%nat] 7)
              (SetBlocked 2%nat true threeHeap)))))
           3%nat 3%nat NoDup_three).
  - vm_compute. split; [discriminate | reflexivity].
  - vm_compute. discriminate.
  - apply elem_of_cons. right. apply elem_of_cons. by left.
Defined.

(** Removing an unknown URL fails; removing backend 2 publishes the list
    without it, once, outside the lock. *)
Lemma Registry_mutations_witness :
  (forall b, b ∈ Admin.backends twoRegistry -> b ∈ dom twoHeap)
  /\ fst (fst (fst (Remove "http://b9:80" twoRegistry twoHeap))) = false
  /\ onChangeCalls [] (snd (Remove "http://b2:80" twoRegistry twoHeap))
     = [("weighted_round_robin"%string, [1%nat], true)].
Proof.
  assert (Hwf : forall b, b ∈ Admin.backends twoRegistry -> b ∈ dom twoHeap).
  { intros b Hb. apply elem_of_dom.
    apply elem_of_cons in Hb as [-> | Hb]; [by eexists |].
    apply list_elem_of_singleton in Hb as ->. by eexists. }
  split; [exact Hwf |].
  split.
  - destruct (Registry_mutations twoRegistry twoHeap "http://b9:80" 1 Hwf)
      as (_ & Hremove & _).
    destruct (Hremove _ _ _ _ (surjective_pairing _ )) as (Hfail & _).
    apply Hfail. intros (b & Hb & Hurl).
    apply elem_of_cons in Hb as [-> | Hb]; [vm_compute in Hurl; discriminate Hurl |].
    apply list_elem_of_singleton in Hb as ->. vm_compute in Hurl. discriminate Hurl.
  - destruct (Registry_mutations twoRegistry twoHeap "http://b2:80" 1 Hwf)
      as (_ & Hremove & _).
    destruct (Hremove _ _ _ _ (surjective_pairing _ )) as (_ & _ & Hok).
    destruct (Hok eq_refl) as (j & b & _ & _ & _ & _ & Hcalls). exact Hcalls.
Defined.

(** Weights 3 and 1: after seven calls the current weights sum to zero. *)
Lemma WeightedRoundRobin_zero_sum_witness :
  (forall b, b ∈ [1%nat; 2%nat] -> IsHealthy twoHeap b = true)
  /\ weightSum (entries (snd (fst (calls 7 (NewWeightedRoundRobin [1%nat; 2%nat]) twoHeap)))) = 0.
Proof.
  assert (Hall : forall b, b ∈ [1%nat; 2%nat] -> IsHealthy twoHeap b = true).
  { intros b Hb. apply elem_of_cons in Hb as [-> | Hb]; [reflexivity |].
    apply list_elem_of_singleton in Hb as ->. reflexivity. }
  split; [exact Hall |].
  apply (proj2 (proj2 (WeightedRoundRobin_zero_sum [1%nat; 2%nat] twoHeap 7 Hall))).
  - intros b Hb. apply elem_of_cons in Hb as [-> | Hb]; [vm_compute; discriminate |].
    apply list_elem_of_singleton in Hb as ->. vm_compute; discriminate.
  - vm_compute. discriminate.
Defined.

Import Cases.

Lemma elem_of_two {A} (P : A -> Prop) (x y : A) :
  P x -> P y -> forall z, z ∈ [x; y] -> P z.
Proof.
  intros Hx Hy z Hz. apply elem_of_cons in Hz as [-> | Hz]; [exact Hx |].
  apply list_elem_of_singleton in Hz as ->. exact Hy.
Defined.

(** Least connections over the two idle backends takes the first and
    raises its active connections to one. *)
Lemma Next_touches_one_counter_witness :
  Next (PLeastConnections (NewLeastConnections [1%nat; 2%nat])) twoHeap
  = (Some 1%nat, PLeastConnections (NewLeastConnections [1%nat; 2%nat]),
     snd (IncConns 1%nat twoHeap))
  /\ ActiveConns (snd (IncConns 1%nat twoHeap)) 1%nat
     = wrap_i64 (ActiveConns twoHeap 1%nat + 1)
  /\ snd (IncConns 1%nat twoHeap) !! 2%nat = twoHeap !! 2%nat.
Proof.
  assert (HN : Next (PLeastConnections (NewLeastConnections [1%nat; 2%nat])) twoHeap
               = (Some 1%nat, PLeastConnections (NewLeastConnections [1%nat; 2%nat]),
                  snd (IncConns 1%nat twoHeap))) by reflexivity.
  split; [exact HN |].
  destruct (Next_touches_one_counter _ _ _ _ _ HN) as (_ & _ & _ & _ & Hac & Hother).
  split; [exact Hac |]. apply Hother. discriminate.
Defined.

(** A backend picked by round robin and released through another picker
    is as it was. *)
Lemma Next_then_Done_restores_witness :
  in_i64 (ActiveConns twoHeap 1%nat)
  /\ deref (Done (PLeastConnections (NewLeastConnections [2%nat])) 1%nat
                 (snd (IncConns 1%nat twoHeap))) 1%nat
     = deref twoHeap 1%nat.
Proof.
  assert (Hac : in_i64 (ActiveConns twoHeap 1%nat)) by (vm_compute; split; discriminate).
  split; [exact Hac |].
  apply (Next_then_Done_restores (PRoundRobin (NewRoundRobin [1%nat; 2%nat]))
           (PLeastConnections (NewLeastConnections [2%nat])) twoHeap 1%nat
           (PRoundRobin (mkRoundRobin [1%nat; 2%nat] 1))
           (snd (IncConns 1%nat twoHeap)) eq_refl Hac).
Defined.

(** Two idle backends: least connections takes the first. *)
Lemma LeastConnections_Next_least_witness :
  Next (NewLeastConnections [1%nat; 2%nat]) twoHeap
  = (Some 1%nat, NewLeastConnections [1%nat; 2%nat], snd (IncConns 1%nat twoHeap))
  /\ exists j, lc_backends (NewLeastConnections [1%nat; 2%nat]) !! j = Some 1%nat
       /\ IsHealthy twoHeap 1%nat = true
       /\ forall i b', lc_backends (NewLeastConnections [1%nat; 2%nat]) !! i = Some b' ->
            IsHealthy twoHeap b' = true ->
            ActiveConns twoHeap 1%nat <= ActiveConns twoHeap b'
            /\ ((i < j)%nat -> ActiveConns twoHeap 1%nat < ActiveConns twoHeap b').
Proof.
  split; [reflexivity |].
  exact (proj2 (LeastConnections_Next_least (NewLeastConnections [1%nat; 2%nat]) twoHeap
                  1%nat _ _ eq_refl)).
Defined.

(** Two idle backends stay within one connection of each other. *)
Lemma LeastConnections_Next_keeps_level_witness :
  Next (NewLeastConnections [1%nat; 2%nat]) twoHeap
  = (Some 1%nat, NewLeastConnections [1%nat; 2%nat], snd (IncConns 1%nat twoHeap))
  /\ ActiveConns (snd (IncConns 1%nat twoHeap)) 1%nat
     - ActiveConns (snd (IncConns 1%nat twoHeap)) 2%nat <= 1.
Proof.
  split; [reflexivity |].
  assert (Hidle : forall x, x ∈ [1%nat; 2%nat] -> ActiveConns twoHeap x = 0).
  { apply elem_of_two; reflexivity. }
  apply (LeastConnections_Next_keeps_level (NewLeastConnections [1%nat; 2%nat]) twoHeap
           1%nat _ _ eq_refl).
  - intros x Hx _. rewrite (Hidle x Hx). vm_compute. split; [discriminate | reflexivity].
  - intros x y Hx Hy _ _. rewrite (Hidle x Hx), (Hidle y Hy). vm_compute. discriminate.
  - apply elem_of_cons. by left.
  - apply elem_of_cons. right. apply elem_of_cons. by left.
  - reflexivity.
  - reflexivity.
Defined.

(** With its only backend demoted the gateway answers 502 and changes no
    backend. *)
Lemma request_without_backend_witness :
  fst (callNext (picker downWorld) downWorld) = None
  /\ backendFromCtx acceptRequest = None
  /\ StatusCode (fst (errorHandler (fst (director acceptRequest downWorld))
                                   (snd (director acceptRequest downWorld)))) = 502
  /\ Proxy.backends (snd (errorHandler (fst (director acceptRequest downWorld))
                                       (snd (director acceptRequest downWorld))))
     = Proxy.backends downWorld.
Proof.
  split; [reflexivity |]. split; [reflexivity |].
  destruct (request_without_backend acceptRequest downWorld eq_refl eq_refl)
    as (_ & _ & _ & _ & _ & Hcode & _ & Hheap & _).
  split; [exact Hcode | exact Hheap].
Defined.

(** A request served by backend 1 and answered, picker 2 swapped in
    meanwhile: one request more, nothing else changed. *)
Lemma request_accounting_witness :
  fst (callNext (picker swapWorld) swapWorld) = Some 1%nat
  /\ in_i64 (ActiveConns (Proxy.backends swapWorld) 1%nat)
  /\ deref (Proxy.backends
              (modifyResponse (fst (director acceptRequest swapWorld))
                 (UpdatePicker 2%nat (snd (director acceptRequest swapWorld))))) 1%nat
     = add_totalRequests 1 (deref (Proxy.backends swapWorld) 1%nat).
Proof.
  assert (Hac : in_i64 (ActiveConns (Proxy.backends swapWorld) 1%nat))
    by (vm_compute; split; discriminate).
  split; [reflexivity |]. split; [exact Hac |].
  destruct (request_accounting acceptRequest swapWorld 2%nat 1%nat eq_refl Hac)
    as (_ & Hok & _).
  exact (Hok 1%nat).
Defined.

(** The [Accept] header of the client reaches the backend as it came. *)
Lemma director_keeps_other_headers_witness :
  fst (callNext (picker swapWorld) swapWorld) = Some 1%nat
  /\ Hdr (fst (director acceptRequest swapWorld)) !! "Accept"%string
     = Some ["*/*"%string].
Proof.
  split; [reflexivity |].
  destruct (director_keeps_other_headers acceptRequest swapWorld 1%nat eq_refl)
    as [Hkeep _].
  rewrite Hkeep; [reflexivity |].
  intros Hin. repeat (apply elem_of_cons in Hin as [Hin | Hin]; [discriminate Hin |]).
  by apply elem_of_nil in Hin.
Defined.

Lemma twoRegistry_allocated : allocated twoHeap twoRegistry.
Proof.
  intros b Hb. apply elem_of_dom. revert b Hb.
  apply (elem_of_two (fun b => is_Some (twoHeap !! b))); by eexists.
Defined.

Lemma twoRegistry_unique : NoDup (urls twoHeap twoRegistry).
Proof.
  apply NoDup_cons. split; [| apply NoDup_singleton].
  intros Hin. apply list_elem_of_singleton in Hin. discriminate Hin.
Defined.

(** The two URLs stay distinct when the first backend is removed. *)
Lemma Registry_keeps_urls_unique_witness :
  allocated twoHeap twoRegistry /\ NoDup (urls twoHeap twoRegistry)
  /\ NoDup (urls twoHeap (snd (fst (fst (Remove "http://b1:80" twoRegistry twoHeap))))).
Proof.
  split; [exact twoRegistry_allocated |]. split; [exact twoRegistry_unique |].
  destruct (Registry_keeps_urls_unique twoRegistry twoHeap twoRegistry_allocated
              twoRegistry_unique) as (_ & Hremove & _).
  exact (proj2 (Hremove "http://b1:80"%string true _ twoHeap _ eq_refl)).
Defined.

(** A third backend added and removed again: the two of before. *)
Lemma Add_then_Remove_witness :
  allocated twoHeap twoRegistry
  /\ fst (fst (fst (Add "http://b3:80" 2 twoRegistry twoHeap))) = true
  /\ Admin.backends
       (snd (fst (fst (Remove "http://b3:80"
                         (snd (fst (fst (Add "http://b3:80" 2 twoRegistry twoHeap))))
                         (snd (fst (Add "http://b3:80" 2 twoRegistry twoHeap)))))))
     = [1%nat; 2%nat].
Proof.
  split; [exact twoRegistry_allocated |]. split; [reflexivity |].
  rewrite (Add_then_Remove twoRegistry twoHeap "http://b3:80" 2
             (snd (fst (fst (Add "http://b3:80" 2 twoRegistry twoHeap))))
             (snd (fst (Add "http://b3:80" 2 twoRegistry twoHeap)))
             (snd (Add "http://b3:80" 2 twoRegistry twoHeap))
             twoRegistry_allocated eq_refl).
  reflexivity.
Defined.

(** Backend 1 removed: its URL is gone, the other one stays. *)
Lemma Remove_unregisters_witness :
  NoDup (urls twoHeap twoRegistry)
  /\ ~ "http://b1:80"%string
       ∈ urls twoHeap (snd (fst (fst (Remove "http://b1:80" twoRegistry twoHeap)))).
Proof.
  split; [exact twoRegistry_unique |].
  destruct (Remove_unregisters twoRegistry twoHeap "http://b1:80" _ twoHeap _
              twoRegistry_unique eq_refl) as (_ & _ & Hgone & _).
  exact Hgone.
Defined.

(** Backend 2 blocked: [List] shows it blocked and backend 1 as before. *)
Lemma Block_shows_in_List_witness :
  NoDup (urls twoHeap twoRegistry)
  /\ BackendInfo.Blocked <$> fst (List twoRegistry (SetBlocked 2%nat true twoHeap))
     = [false; true].
Proof.
  split; [exact twoRegistry_unique |].
  destruct (Block_shows_in_List true twoRegistry twoHeap "http://b2:80" twoRegistry
              (SetBlocked 2%nat true twoHeap) _ twoRegistry_unique eq_refl) as [-> _].
  reflexivity.
Defined.

(** Two healthy backends, none blocked, no traffic yet. *)
Lemma handleStats_counts_witness :
  Z.of_nat (length (Admin.backends twoRegistry)) <= max_i64
  /\ fst (handleStats "dev" "5s" twoRegistry twoHeap)
     = jsonOK (Stats (statsResponse.mk "5s" "dev" 0 0 0 2 2 0)).
Proof.
  assert (Hlen : Z.of_nat (length (Admin.backends twoRegistry)) <= max_i64)
    by (vm_compute; discriminate).
  split; [exact Hlen |].
  destruct (handleStats_counts "dev" "5s" twoRegistry twoHeap Hlen) as [-> _].
  reflexivity.
Defined.

(** A body that does not decode is answered 400. *)
Lemma handleAddBackend_outcome_witness :
  allocated twoHeap twoRegistry
  /\ (Code (reply (handleAddBackend None twoRegistry twoHeap)) <> 200 ->
      registry (handleAddBackend None twoRegistry twoHeap) = twoRegistry
      /\ urls (store (handleAddBackend None twoRegistry twoHeap)) twoRegistry
         = urls twoHeap twoRegistry
      /\ onChangeCalls [] (events (handleAddBackend None twoRegistry twoHeap)) = []
      /\ logged (handleAddBackend None twoRegistry twoHeap) = []).
Proof.
  split; [exact twoRegistry_allocated |].
  destruct (handleAddBackend_outcome None twoRegistry twoHeap twoRegistry_allocated)
    as (_ & _ & _ & Hbad & _).
  exact Hbad.
Defined.

(** Backend 1 answers 204 and backend 2 does not answer: the first stays
    healthy, the second is demoted, and one line is logged. *)
Lemma probeAll_round_witness :
  NoDup (Monitor.backends (Monitor.New [1%nat; 2%nat] (Monitor.mkConfig 0 0 "/healthz")))
  /\ length [GetResponse 204; GetError] = length [1%nat; 2%nat]
  /\ snd (Monitor.probeAll (Monitor.New [1%nat; 2%nat] (Monitor.mkConfig 0 0 "/healthz"))
                           [GetResponse 204; GetError] twoHeap) !! 2%nat
     = Some (set_healthy false (deref twoHeap 2%nat)).
Proof.
  split; [exact NoDup_two |]. split; [reflexivity |].
  destruct (probeAll_round (Monitor.New [1%nat; 2%nat] (Monitor.mkConfig 0 0 "/healthz"))
              [GetResponse 204; GetError] twoHeap NoDup_two eq_refl) as (Hset & _).
  exact (Hset 1%nat 2%nat GetError eq_refl eq_refl).
Defined.

(** Backend 1 removed from the registry of the running gateway: a new
    round robin over backend 2 is the picker, and the monitor probes
    backend 2. *)
Lemma registry_change_reaches_gateway_witness :
  allocated (Proxy.backends (Main.gw liveSystem)) twoRegistry
  /\ Main.rebuilt (snd (fst (Main.call (Remove "http://b1:80") twoRegistry liveSystem)))
                  liveSystem
                  (snd (Main.call (Remove "http://b1:80") twoRegistry liveSystem)).
Proof.
  split; [exact twoRegistry_allocated |].
  destruct (registry_change_reaches_gateway twoRegistry liveSystem twoRegistry_allocated)
    as (_ & Hremove & _).
  exact (Hremove "http://b1:80"%string true _ _ eq_refl).
Defined.

(** The default configuration: one backend, shared by the picker, the
    monitor and the registry. *)
Lemma startup_shares_backends_witness :
  exists reg s,
    Main.startup (fun _ => 0) (Config.Fail Config.ErrReading) ∅ = Some (reg, s)
    /\ Monitor.backends (Main.monitor s) = Admin.backends reg
    /\ length (Admin.backends reg) = 1%nat.
Proof.
  destruct (Main.startup (fun _ => 0) (Config.Fail Config.ErrReading) ∅)
    as [[reg s] |] eqn:Hs; [| vm_compute in Hs; discriminate Hs].
  exists reg, s. split; [reflexivity |].
  destruct (startup_shares_backends _ _ _ reg s Hs) as (_ & Hmon & _ & Hlen & _).
  split; [exact Hmon | exact Hlen].
Defined.

Lemma WeightedRoundRobin_equal_weights_witness :
  results 7 (NewWeightedRoundRobin [1%nat; 2%nat; 3%nat]) threeHeap
  = [Some 1%nat; Some 2%nat; Some 3%nat; Some 1%nat; Some 2%nat; Some 3%nat; Some 1%nat]
  /\ results 7 (NewRoundRobin [1%nat; 2%nat; 3%nat]) threeHeap
     = results 7 (NewWeightedRoundRobin [1%nat; 2%nat; 3%nat]) threeHeap.
Proof.
  assert (Hall : forall b, b ∈ [1%nat; 2%nat; 3%nat] ->
            IsHealthy threeHeap b = true /\ Weight (deref threeHeap b) = 1).
  { intros b Hb. repeat (apply elem_of_cons in Hb as [-> | Hb]);
      [by vm_compute .. | by apply elem_of_nil in Hb]. }
  assert (Hfree : forall b, b ∈ [1%nat; 2%nat; 3%nat] -> IsBlocked threeHeap b = false).
  { intros b Hb. repeat (apply elem_of_cons in Hb as [-> | Hb]);
      [by vm_compute .. | by apply elem_of_nil in Hb]. }
  assert (Hmax : Z.of_nat (length [1%nat; 2%nat; 3%nat])
                 * (Z.of_nat (length [1%nat; 2%nat; 3%nat]) * 1) <= max_i64).
  { vm_compute. discriminate. }
  assert (Hcalls : Z.of_nat 7 <= 2 ^ 64) by (vm_compute; discriminate).
  destruct (WeightedRoundRobin_equal_weights [1%nat; 2%nat; 3%nat] threeHeap 1 7
              Hall ltac:(lia) Hmax) as [Hrot Hrr].
  split; [exact Hrot | exact (Hrr Hfree Hcalls)].
Defined.
